(** * PII detection and de-identification: the detection, scoring and masking engine

    A shallow embedding of [backend/pii_redactor.py]: the validators, the
    pattern registry, the confidence scorer, the masking registry, the
    redaction engine, the document adapters and the summary.

    Conventions of the embedding.
    - A Python [str] is a list of Unicode code points ([text]).
    - What Python takes from the Unicode database and from its standard
      library (character classes, case mapping, [hashlib], [strptime],
      [str()] of decoded JSON values) is an interface, [Unicode] and
      [Library]; the theorems hold for every implementation of it, and a
      concrete one, exact on U+0000..U+00FF, is used to run the code on
      concrete inputs.
    - Code that can raise returns a [result]; [try]/[except] is written out.
    - The instance attributes that [_deidentify_text_enhanced] mutates are
      threaded through as a [Processor] record.
    - Confidence scores and thresholds are rationals: only their order is
      ever used by the code. *)

From Stdlib Require Import String Ascii DecimalString QArith Sorted.
From stdpp Require Import base option list sorting gmap countable.

Set Default Proof Using "Type".
Local Open Scope N_scope.

(** ** Characters and text *)

Definition char := N.
Definition text := list char.

(** ASCII literals of the source as [text]. *)
Definition txt (s : string) : text :=
  List.map N_of_ascii (list_ascii_of_string s).

Definition in_range (lo hi c : char) : bool := (lo <=? c) && (c <=? hi).

Definition ascii_digit (c : char) : bool := in_range 48 57 c.
Definition ascii_upper (c : char) : bool := in_range 65 90 c.
Definition ascii_lower (c : char) : bool := in_range 97 122 c.
Definition ascii_alnum (c : char) : bool :=
  ascii_digit c || ascii_upper c || ascii_lower c.
(** [str.isspace] below U+0080: TAB..CR, FS..US and the space. *)
Definition ascii_space (c : char) : bool :=
  in_range 9 13 c || in_range 28 32 c.
Definition ascii_to_upper (c : char) : char :=
  if ascii_lower c then c - 32 else c.

(** The part of the Unicode database the program consults, with the facts
    about it that the proofs use. *)
Class Unicode := {
  (** general category Nd: [str.isdecimal], the regex class [\d], and the
      digits [int()] accepts *)
  isdecimal : char -> bool;
  decimal_value : char -> nat;
  (** [str.isdigit] of one character *)
  isdigit : char -> bool;
  (** [str.isalnum]; with the underscore, the regex word characters *)
  isalnum : char -> bool;
  (** [str.isspace], the regex class [\s] *)
  isspace : char -> bool;
  (** [str.upper], one character at a time (it may yield several) *)
  upper_char : char -> text;
  (** [str.lower] of a whole string *)
  str_lower : text -> text;
  isdecimal_ascii : forall c, c < 128 -> isdecimal c = ascii_digit c;
  isdigit_ascii : forall c, c < 128 -> isdigit c = ascii_digit c;
  isalnum_ascii : forall c, c < 128 -> isalnum c = ascii_alnum c;
  isspace_ascii : forall c, c < 128 -> isspace c = ascii_space c;
  upper_ascii : forall c, c < 128 -> upper_char c = [ascii_to_upper c];
  decimal_value_ascii :
    forall c, ascii_digit c = true -> decimal_value c = N.to_nat (c - 48);
  decimal_value_bound :
    forall c, isdecimal c = true -> (decimal_value c <= 9)%nat;
  isdecimal_isdigit : forall c, isdecimal c = true -> isdigit c = true;
  isdigit_isalnum : forall c, isdigit c = true -> isalnum c = true;
  isspace_not_alnum : forall c, isspace c = true -> isalnum c = false
}.

(** A decoded JSON document, as [json.load] returns it. A float is kept as
    its [repr]. *)
#[local] Unset Elimination Schemes.
Inductive json :=
| JNone
| JBool (b : bool)
| JInt (z : Z)
| JFloat (repr : text)
| JStr (s : text)
| JList (items : list json)
| JDict (items : list (text * json)).
#[local] Set Elimination Schemes.

(** What the program takes from the standard library. *)
Class Library := {
  (** [hashlib.sha256(s.encode("utf-8")).hexdigest()] *)
  sha256_hexdigest : text -> text;
  (** [hashlib.md5(s.encode()).hexdigest()] *)
  md5_hexdigest : text -> text;
  (** [datetime.strptime(s, '%d/%m/%Y')]: the parsed (day, month, year), or
      [None] where it raises ValueError *)
  strptime_dmY : text -> option (nat * nat * nat);
  (** [str(v)] of a decoded JSON value *)
  py_str : json -> text;
  py_str_str : forall s, py_str (JStr s) = s
}.

(** ** Exceptions *)

Inductive exn := ValueError | IndexError.

Inductive result (A : Type) :=
| Ok (a : A)
| Raise (e : exn).
Arguments Ok {A} a.
Arguments Raise {A} e.

Definition bind {A B} (m : result A) (f : A -> result B) : result B :=
  match m with
  | Ok a => f a
  | Raise e => Raise e
  end.

Notation "x <- m ;; k" := (bind m (fun x => k))
  (at level 100, m at next level, right associativity).

(** [try: m  except Exception: return d] *)
Definition try_except {A} (m : result A) (d : A) : result A :=
  match m with
  | Ok a => Ok a
  | Raise _ => Ok d
  end.

Fixpoint mapM {A B} (f : A -> result B) (l : list A) : result (list B) :=
  match l with
  | [] => Ok []
  | a :: l' => b <- f a ;; bs <- mapM f l' ;; Ok (b :: bs)
  end.

(** [l[i]]: a negative index counts from the end *)
Definition index {A} (l : list A) (i : Z) : result A :=
  let j := if (i <? 0)%Z then (Z.of_nat (length l) + i)%Z else i in
  if (j <? 0)%Z then Raise IndexError
  else match l !! Z.to_nat j with
       | Some a => Ok a
       | None => Raise IndexError
       end.

(** ** Python string operations *)

Definition X : char := 88.

(** [s[a:b]], [s[-n:]] and [s[:n]] for non-negative arguments *)
Definition slice {A} (a b : nat) (s : list A) : list A :=
  take (b - a) (drop a s).
Definition last_n {A} (n : nat) (s : list A) : list A :=
  drop (length s - n) s.

(** [s.split(sep)] for a one-character separator *)
Fixpoint split_on (sep : char) (s : text) : list text :=
  match s with
  | [] => [[]]
  | c :: s' =>
      if c =? sep then [] :: split_on sep s'
      else match split_on sep s' with
           | p :: ps => (c :: p) :: ps
           | [] => [[c]]
           end
  end.

(** [s.split(sep, 1)] *)
Fixpoint split_once (sep : char) (s : text) : list text :=
  match s with
  | [] => [[]]
  | c :: s' =>
      if c =? sep then [[]; s']
      else match split_once sep s' with
           | p :: ps => (c :: p) :: ps
           | [] => [[c]]
           end
  end.

(** [sep.join(parts)] *)
Fixpoint join (sep : text) (parts : list text) : text :=
  match parts with
  | [] => []
  | [p] => p
  | p :: ps => p ++ sep ++ join sep ps
  end.

(** [c in s] for a character, [sub in s] for a string *)
Definition char_in (c : char) (s : text) : bool := existsb (N.eqb c) s.

Fixpoint starts_with (sub s : text) : bool :=
  match sub, s with
  | [], _ => true
  | a :: sub', b :: s' => (a =? b) && starts_with sub' s'
  | _ :: _, [] => false
  end.

Fixpoint contains (sub s : text) : bool :=
  starts_with sub s ||
  match s with
  | [] => false
  | _ :: s' => contains sub s'
  end.

Section Strings.
Context {U : Unicode}.

(** [re.sub(r"\D", "", s)] *)
Definition strip_non_digits (s : text) : text := List.filter isdecimal s.

(** [s.isdigit()] *)
Definition str_isdigit (s : text) : bool :=
  negb (Nat.eqb (length s) 0) && forallb isdigit s.

(** [s.upper()] *)
Definition str_upper (s : text) : text := flat_map upper_char s.

(** [int(s)]: blanks are stripped, a sign is accepted, then decimal digits
    with single underscores between them. Below U+007F only TAB..CR and the
    space are blanks for [int]; above it, what [str.isspace] accepts. *)
Definition int_blank (c : char) : bool :=
  if c <? 127 then in_range 9 13 c || (c =? 32) else isspace c.

Fixpoint lstrip (s : text) : text :=
  match s with
  | c :: s' => if int_blank c then lstrip s' else s
  | [] => []
  end.

Definition strip (s : text) : text := rev (lstrip (rev (lstrip s))).

(** digits after the first one: [acc] is the value read so far *)
Fixpoint int_digits (acc : Z) (s : text) : result Z :=
  match s with
  | [] => Ok acc
  | c :: s' =>
      if isdecimal c then int_digits (10 * acc + Z.of_nat (decimal_value c)) s'
      else if c =? 95 then
        match s' with
        | d :: s'' =>
            if isdecimal d
            then int_digits (10 * acc + Z.of_nat (decimal_value d)) s''
            else Raise ValueError
        | [] => Raise ValueError
        end
      else Raise ValueError
  end.

Definition int_unsigned (s : text) : result Z :=
  match s with
  | c :: s' =>
      if isdecimal c then int_digits (Z.of_nat (decimal_value c)) s'
      else Raise ValueError
  | [] => Raise ValueError
  end.

Definition py_int (s : text) : result Z :=
  match strip s with
  | c :: s' =>
      if c =? 45 then z <- int_unsigned s' ;; Ok (- z)%Z
      else if c =? 43 then int_unsigned s'
      else int_unsigned (c :: s')
  | [] => Raise ValueError
  end.

End Strings.

(** ** Regular expressions

    The fragment of Python's [re] syntax that the patterns of the source
    use, and a backtracking matcher with the priorities of [re]: the first
    alternative first, greedy repetitions longest first, lazy ones shortest
    first. *)

Inductive citem :=
| CLit (c : char)          (** a literal character *)
| CRange (lo hi : char)    (** [lo-hi] *)
| CDigit                   (** [\d] *)
| CSpace.                  (** [\s] *)

Definition cset := list citem.

Inductive regex :=
| REps                                        (** the empty pattern *)
| RSet (cs : cset)                            (** one character of a class *)
| RBound                                      (** [\b] *)
| RStart                                      (** [^] *)
| REnd                                        (** [$] *)
| RSeq (r1 r2 : regex)
| RAlt (r1 r2 : regex)                        (** [r1|r2] *)
| RStar (cs : cset) (greedy : bool)           (** [[..]*] and [[..]*?] *)
| RRep (r : regex) (lo extra : nat).          (** [r{lo,lo+extra}] *)

(** A match found by [finditer]: [start()], [end()] and [group(0)]. *)
Record Match := {
  m_start : nat;
  m_end : nat;
  group0 : text
}.

Definition cont := option char -> text -> option text.
Definition matcher := option char -> text -> cont -> option text.

Definition orelse {A} (a b : option A) : option A :=
  match a with
  | Some x => Some x
  | None => b
  end.

Fixpoint m_star (p : char -> bool) (greedy : bool)
    (prev : option char) (s : text) (k : cont) : option text :=
  match s with
  | c :: s' =>
      if p c then
        if greedy then orelse (m_star p greedy (Some c) s' k) (k prev s)
        else orelse (k prev s) (m_star p greedy (Some c) s' k)
      else k prev s
  | [] => k prev s
  end.

(** at most [n] more repetitions, as many as possible first *)
Fixpoint m_upto (m : matcher) (n : nat) : matcher :=
  fun prev s k =>
    match n with
    | O => k prev s
    | S n' => orelse (m prev s (fun p' s' => m_upto m n' p' s' k)) (k prev s)
    end.

(** exactly [n] repetitions, then [tl] *)
Fixpoint m_times (m : matcher) (n : nat) (tl : matcher) : matcher :=
  fun prev s k =>
    match n with
    | O => tl prev s k
    | S n' => m prev s (fun p' s' => m_times m n' tl p' s' k)
    end.

Section Regex.
Context {U : Unicode}.

Definition in_citem (i : citem) (c : char) : bool :=
  match i with
  | CLit a => c =? a
  | CRange lo hi => in_range lo hi c
  | CDigit => isdecimal c
  | CSpace => isspace c
  end.

Definition in_cset (cs : cset) (c : char) : bool :=
  existsb (fun i => in_citem i c) cs.

(** a word character for [\b]; outside the string there is none *)
Definition is_word (c : option char) : bool :=
  match c with
  | Some c => isalnum c || (c =? 95)
  | None => false
  end.

Fixpoint rmatch (r : regex) : matcher :=
  fun prev s k =>
    match r with
    | REps => k prev s
    | RSet cs =>
        match s with
        | c :: s' => if in_cset cs c then k (Some c) s' else None
        | [] => None
        end
    | RBound => if xorb (is_word prev) (is_word (head s)) then k prev s else None
    | RStart => match prev with None => k prev s | Some _ => None end
    | REnd =>
        match s with
        | [] => k prev s
        | [c] => if c =? 10 then k prev s else None
        | _ => None
        end
    | RSeq a b => rmatch a prev s (fun p' s' => rmatch b p' s' k)
    | RAlt a b => orelse (rmatch a prev s k) (rmatch b prev s k)
    | RStar cs g => m_star (in_cset cs) g prev s k
    | RRep a lo extra => m_times (rmatch a) lo (m_upto (rmatch a) extra) prev s k
    end.

Definition k_end : cont := fun _ rest => Some rest.

(** [pattern.finditer(text)]: at each position from left to right the first
    match by priority; the search resumes where the match ended. [skip]
    counts the characters of the last match still to be stepped over. None
    of the patterns of the source matches the empty string. *)
Fixpoint scan (r : regex) (prev : option char) (pos : nat) (s : text)
    (skip : nat) : list Match :=
  match skip with
  | S j =>
      match s with
      | c :: s' => scan r (Some c) (S pos) s' j
      | [] => []
      end
  | O =>
      match rmatch r prev s k_end with
      | Some rest =>
          let n := (length s - length rest)%nat in
          {| m_start := pos; m_end := (pos + n)%nat; group0 := take n s |} ::
          match s with
          | c :: s' => scan r (Some c) (S pos) s' (pred n)
          | [] => []
          end
      | None =>
          match s with
          | c :: s' => scan r (Some c) (S pos) s' 0
          | [] => []
          end
      end
  end.

Definition finditer (r : regex) (s : text) : list Match := scan r None 0 s 0.

(** [bool(re.match(r, s))] *)
Definition re_match (r : regex) (s : text) : bool :=
  match rmatch r None s k_end with
  | Some _ => true
  | None => false
  end.

End Regex.

(** Pattern syntax. *)
Definition lit (s : string) : regex :=
  foldr (fun c r => RSeq (RSet [CLit c]) r) REps (txt s).
Definition seq (rs : list regex) : regex := foldr RSeq REps rs.
Definition times (n : nat) (cs : cset) : regex := RRep (RSet cs) n 0.
Definition plus (cs : cset) : regex := RSeq (RSet cs) (RStar cs true).
Definition opt (r : regex) : regex := RRep r 0 1.
Definition chr (s : string) : citem :=
  match txt s with
  | c :: _ => CLit c
  | [] => CLit 0
  end.
Definition rng (a b : string) : citem :=
  match txt a, txt b with
  | lo :: _, hi :: _ => CRange lo hi
  | _, _ => CLit 0
  end.

Definition AZ : citem := rng "A" "Z".
Definition az : citem := rng "a" "z".
Definition d09 : citem := rng "0" "9".

(** ** Validators *)

Definition verhoeff_d : list (list Z) := [
  [0;1;2;3;4;5;6;7;8;9]; [1;2;3;4;0;6;7;8;9;5]; [2;3;4;0;1;7;8;9;5;6];
  [3;4;0;1;2;8;9;5;6;7]; [4;0;1;2;3;9;5;6;7;8]; [5;9;8;7;6;0;4;3;2;1];
  [6;5;9;8;7;1;0;4;3;2]; [7;6;5;9;8;2;1;0;4;3]; [8;7;6;5;9;3;2;1;0;4];
  [9;8;7;6;5;4;3;2;1;0] ]%Z.

Definition verhoeff_p : list (list Z) := [
  [0;1;2;3;4;5;6;7;8;9]; [1;5;7;6;2;8;3;0;9;4]; [5;8;0;3;7;9;6;1;4;2];
  [8;9;1;6;0;4;3;5;2;7]; [9;4;5;3;1;2;6;8;7;0]; [4;2;8;6;5;7;3;9;0;1];
  [2;7;9;3;8;0;6;4;1;5]; [7;0;4;6;9;1;3;2;5;8] ]%Z.

(** one step of the Luhn loop: the state is [(checksum, dbl)] *)
Definition luhn_step (st : Z * bool) (d : Z) : Z * bool :=
  let '(checksum, dbl) := st in
  let d :=
    if dbl then (let d2 := d * 2 in if d2 >? 9 then d2 - 9 else d2)%Z else d in
  ((checksum + d)%Z, negb dbl).

Section Validators.
Context {U : Unicode} {L : Library}.

(** the body of the [for] loop of [verhoeff_validate], from index [i] *)
Fixpoint verhoeff_loop (i : nat) (c : Z) (items : text) : result Z :=
  match items with
  | [] => Ok c
  | item :: rest =>
      row_d <- index verhoeff_d c ;;
      row_p <- index verhoeff_p (Z.of_nat i mod 8) ;;
      n <- py_int [item] ;;
      j <- index row_p n ;;
      c' <- index row_d j ;;
      verhoeff_loop (S i) c' rest
  end.

Definition verhoeff_validate (num : text) : result bool :=
  try_except
    (c <- verhoeff_loop 0 0 (rev num) ;; Ok (c =? 0)%Z)
    false.

Definition luhn_check (number : text) : result bool :=
  digits <- mapM (fun ch => py_int [ch]) (strip_non_digits number) ;;
  if (length digits <? 13)%nat || (19 <? length digits)%nat then Ok false
  else
    let '(checksum, _) := fold_left luhn_step (rev digits) (0%Z, false) in
    Ok (checksum mod 10 =? 0)%Z.

Definition validate_indian_phone (phone : text) : result bool :=
  let digits := strip_non_digits phone in
  if (length digits =? 10)%nat then
    c <- index digits 0 ;; Ok (char_in c (txt "6789"))
  else Ok false.

Definition ifsc_re : regex :=
  seq [RStart; times 4 [AZ]; lit "0"; times 6 [AZ; d09]; REnd].
Definition voter_id_re : regex :=
  seq [RStart; times 3 [AZ]; times 7 [CDigit]; REnd].
Definition driving_license_re : regex :=
  seq [RStart; times 2 [AZ]; times 2 [CDigit]; lit "/"; times 6 [CDigit];
       lit "/"; times 4 [CDigit]; REnd].
Definition medical_id_re : regex :=
  seq [RStart; lit "MED"; times 8 [AZ; d09]; REnd].

Definition validate_ifsc (ifsc : text) : result bool :=
  Ok (re_match ifsc_re (str_upper ifsc)).

Definition validate_voter_id (voter_id : text) : result bool :=
  Ok (re_match voter_id_re (str_upper voter_id)).

Definition validate_driving_license (dl : text) : result bool :=
  Ok (re_match driving_license_re (str_upper dl)).

(** [all(0 <= int(p) <= 255 for p in parts if p.isdigit())]: the parts that
    are not all digits are skipped by the filter of the generator; [all]
    stops at the first part out of range. *)
Fixpoint all_octets (parts : list text) : result bool :=
  match parts with
  | [] => Ok true
  | p :: ps =>
      if str_isdigit p then
        n <- py_int p ;;
        if (0 <=? n)%Z && (n <=? 255)%Z then all_octets ps else Ok false
      else all_octets ps
  end.

Definition validate_ip (ip : text) : result bool :=
  let parts := split_on 46 ip in
  if (length parts =? 4)%nat then all_octets parts else Ok false.

Definition validate_dob (dob : text) : result bool :=
  match strptime_dmY dob with
  | Some _ => Ok true
  | None => Ok false
  end.

Definition validate_medical_id (mid : text) : result bool :=
  Ok (re_match medical_id_re (str_upper mid)).

End Validators.

(** ** Pattern registry *)

Inductive PiiType :=
| aadhaar | pan | credit_card | email | phone | ifsc | bank_account
| voter_id | driving_license | ip_address | dob | medical_id.

Definition word (r : regex) : regex := seq [RBound; r; RBound].

Definition sep_or_space : cset := [chr "-"; CSpace].

Definition pattern_of (t : PiiType) : regex :=
  match t with
  | aadhaar =>
      word (RAlt (seq [times 4 [CDigit]; RSet [CSpace]; times 4 [CDigit];
                       RSet [CSpace]; times 4 [CDigit]])
                 (times 12 [CDigit]))
  | pan => word (seq [times 5 [AZ]; times 4 [d09]; RSet [AZ]])
  | credit_card =>
      word (RRep (RSeq (RSet [CDigit]) (RStar [chr " "; chr "-"] false)) 13 6)
  | email =>
      word (seq [plus [AZ; az; d09; chr "."; chr "_"; chr "%"; chr "+"; chr "-"];
                 lit "@"; plus [AZ; az; d09; chr "."; chr "-"]; lit ".";
                 times 2 [AZ; az]; RStar [AZ; az] true])
  | phone =>
      word (seq [opt (seq [lit "+91"; opt (RSet sep_or_space)]);
                 RAlt (seq [RSet [rng "6" "9"]; times 9 [CDigit]])
                      (seq [RSet [rng "6" "9"]; times 2 [CDigit];
                            RSet sep_or_space; times 3 [CDigit];
                            RSet sep_or_space; times 4 [CDigit]])])
  | ifsc => word (seq [times 4 [AZ]; lit "0"; times 6 [AZ; d09]])
  | bank_account => word (RRep (RSet [CDigit]) 9 9)
  | voter_id => word (seq [times 3 [AZ]; times 7 [CDigit]])
  | driving_license =>
      word (seq [times 2 [AZ]; times 2 [CDigit]; lit "/"; times 6 [CDigit];
                 lit "/"; times 4 [CDigit]])
  | ip_address =>
      word (seq [RRep (seq [RRep (RSet [CDigit]) 1 2; lit "."]) 3 0;
                 RRep (RSet [CDigit]) 1 2])
  | dob =>
      word (seq [times 2 [CDigit]; lit "/"; times 2 [CDigit]; lit "/";
                 times 4 [CDigit]])
  | medical_id => word (seq [lit "MED"; times 8 [AZ; d09]])
  end.

(** the keys of [ENHANCED_PII_PATTERNS], in the order of the dictionary *)
Definition pii_types : list PiiType :=
  [aadhaar; pan; credit_card; email; phone; ifsc; bank_account; voter_id;
   driving_license; ip_address; dob; medical_id].

Definition ENHANCED_PII_PATTERNS : list (PiiType * regex) :=
  List.map (fun t => (t, pattern_of t)) pii_types.

(** ** Masking registry *)

Section Masking.
Context {U : Unicode} {L : Library}.

(** The loop shared by [mask_credit_card_enhanced] and
    [mask_phone_enhanced]: every character that [isdigit] accepts is replaced
    by [masked[digit_idx]], the others are kept. *)
Fixpoint fill_digits (masked : text) (digit_idx : nat) (s : text) : result text :=
  match s with
  | [] => Ok []
  | c :: s' =>
      if isdigit c then
        m <- index masked (Z.of_nat digit_idx) ;;
        out <- fill_digits masked (S digit_idx) s' ;;
        Ok (m :: out)
      else
        out <- fill_digits masked digit_idx s' ;;
        Ok (c :: out)
  end.

Definition mask_credit_card_enhanced (cc : text) : result text :=
  let digits := strip_non_digits cc in
  if (length digits <? 13)%nat then Ok cc
  else
    let masked_digits := replicate (length digits - 4) X ++ last_n 4 digits in
    fill_digits masked_digits 0 cc.

Definition mask_phone_enhanced (phone : text) : result text :=
  let digits := strip_non_digits phone in
  if (length digits <? 10)%nat then Ok phone
  else
    let masked := replicate (length digits - 4) X ++ last_n 4 digits in
    fill_digits masked 0 phone.

Definition anonymize_bank_account (account : text) : text :=
  let token := str_upper (take 12 (sha256_hexdigest account)) in
  txt "ACCT_" ++ token.

Definition anonymize_ifsc (ifsc : text) : text :=
  let bank_code := take 4 ifsc in
  let token := str_upper (take 6 (md5_hexdigest ifsc)) in
  bank_code ++ txt "0" ++ token.

Definition mask_aadhaar (a : text) : text :=
  let digits := strip_non_digits a in
  if negb (length digits =? 12)%nat then a
  else
    let masked := take 4 digits ++ txt "XXXX" ++ last_n 4 digits in
    if char_in 32 a
    then take 4 masked ++ txt " " ++ slice 4 8 masked ++ txt " " ++ drop 8 masked
    else masked.

Definition anonymize_pan (pan : text) : text :=
  let token := str_upper (take 10 (sha256_hexdigest pan)) in
  txt "PAN_" ++ token.

(** [local, domain = email.split("@", 1)] raises ValueError unless the split
    yields two parts; the handler returns ["xxxx@"]. *)
Definition pseudo_email (email : text) : text :=
  match split_once 64 email with
  | [_; domain] => txt "xxxx@" ++ domain
  | _ => txt "xxxx@"
  end.

Definition mask_voter_id (vid : text) : text :=
  take 3 vid ++ replicate 4 X ++ last_n 3 vid.

Definition mask_driving_license (dl : text) : result text :=
  let parts := split_on 47 dl in
  if (length parts =? 3)%nat then
    p0 <- index parts 0 ;;
    p2 <- index parts 2 ;;
    Ok (p0 ++ txt "/XXXXXX/" ++ p2)
  else Ok dl.

Definition mask_ip (ip : text) : text :=
  let parts := split_on 46 ip in
  join (txt ".") (take 2 parts ++ [txt "X"; txt "X"]).

Definition mask_dob (dob : text) : result text :=
  year <- index (split_on 47 dob) (-1) ;;
  Ok (txt "XX/XX/" ++ year).

Definition anonymize_medical_id (mid : text) : text :=
  let token := str_upper (take 8 (sha256_hexdigest mid)) in
  txt "MED" ++ token.

Definition ENHANCED_DEIDENTIFY (t : PiiType) (raw : text) : result text :=
  match t with
  | credit_card => mask_credit_card_enhanced raw
  | aadhaar => Ok (mask_aadhaar raw)
  | pan => Ok (anonymize_pan raw)
  | email => Ok (pseudo_email raw)
  | phone => mask_phone_enhanced raw
  | ifsc => Ok (anonymize_ifsc raw)
  | bank_account => Ok (anonymize_bank_account raw)
  | voter_id => Ok (mask_voter_id raw)
  | driving_license => mask_driving_license raw
  | ip_address => Ok (mask_ip raw)
  | dob => mask_dob raw
  | medical_id => Ok (anonymize_medical_id raw)
  end.

End Masking.

(** ** Detections *)

Record EnhancedDetection := {
  row_index : Z;
  column_name : text;
  pii_type : PiiType;
  raw_value : text;
  masked_value : text;
  start : nat;
  end_ : nat;
  confidence : Q;
  context : text
}.

(** [detection.row_index = r; detection.column_name = c] *)
Definition at_cell (r : Z) (c : text) (d : EnhancedDetection) : EnhancedDetection :=
  {| row_index := r; column_name := c; pii_type := pii_type d;
     raw_value := raw_value d; masked_value := masked_value d;
     start := start d; end_ := end_ d; confidence := confidence d;
     context := context d |}.

(** ** Confidence scorer and detector *)

Definition candidate : Type := PiiType * Match * Q.

Definition cand_start (x : candidate) : nat := m_start (snd (fst x)).

Section Detector.
Context {U : Unicode} {L : Library}.

Definition _calculate_confidence (t : PiiType) (match_text context : text)
  : result Q :=
  match t with
  | credit_card =>
      ok <- luhn_check match_text ;;
      Ok (if ok then 0.95 else 0.3)%Q
  | aadhaar =>
      let digits := strip_non_digits match_text in
      if (length digits =? 12)%nat then
        ok <- verhoeff_validate digits ;;
        Ok (if ok then 0.95 else 0.7)%Q
      else Ok 0.3%Q
  | phone =>
      ok <- validate_indian_phone match_text ;;
      Ok (if ok then 0.9 else 0.4)%Q
  | ifsc =>
      ok <- validate_ifsc match_text ;;
      Ok (if ok then 0.95 else 0.5)%Q
  | bank_account =>
      let digits := strip_non_digits match_text in
      if (9 <=? length digits)%nat && (length digits <=? 18)%nat then
        let context_lower := str_lower context in
        if existsb (fun keyword => contains keyword context_lower)
                   [txt "account"; txt "bank"; txt "acc"; txt "a/c"]
        then Ok 0.8%Q else Ok 0.6%Q
      else Ok 0.3%Q
  | voter_id =>
      ok <- validate_voter_id match_text ;;
      Ok (if ok then 0.9 else 0.4)%Q
  | driving_license =>
      ok <- validate_driving_license match_text ;;
      Ok (if ok then 0.9 else 0.4)%Q
  | ip_address =>
      ok <- validate_ip match_text ;;
      Ok (if ok then 0.95 else 0.5)%Q
  | dob =>
      ok <- validate_dob match_text ;;
      Ok (if ok then 0.8 else 0.3)%Q
  | medical_id =>
      ok <- validate_medical_id match_text ;;
      Ok (if ok then 0.7 else 0.3)%Q
  | pan | email => Ok 1%Q
  end.

(** the inner loop of [find_all_enhanced] over the matches of one pattern *)
Fixpoint score_matches (threshold : Q) (t : PiiType) (context : text)
    (ms : list Match) : result (list candidate) :=
  match ms with
  | [] => Ok []
  | m :: ms' =>
      conf <- _calculate_confidence t (group0 m) context ;;
      rest <- score_matches threshold t context ms' ;;
      Ok (if Qle_bool threshold conf then (t, m, conf) :: rest else rest)
  end.

(** the outer loop over the items of the pattern dictionary *)
Fixpoint find_in_patterns (threshold : Q) (ps : list (PiiType * regex))
    (s context : text) : result (list candidate) :=
  match ps with
  | [] => Ok []
  | (t, pattern) :: ps' =>
      here <- score_matches threshold t context (finditer pattern s) ;;
      rest <- find_in_patterns threshold ps' s context ;;
      Ok (here ++ rest)
  end.

Definition find_all_enhanced (threshold : Q) (s context : text)
  : result (list candidate) :=
  find_in_patterns threshold ENHANCED_PII_PATTERNS s context.

End Detector.

(** ** Redaction engine *)

Global Instance PiiType_eq_dec : EqDecision PiiType.
Proof. solve_decision. Defined.

Definition PiiType_to_nat (t : PiiType) : nat :=
  match t with
  | aadhaar => 0 | pan => 1 | credit_card => 2 | email => 3 | phone => 4
  | ifsc => 5 | bank_account => 6 | voter_id => 7 | driving_license => 8
  | ip_address => 9 | dob => 10 | medical_id => 11
  end%nat.

Definition PiiType_of_nat (n : nat) : option PiiType := pii_types !! n.

Global Instance PiiType_countable : Countable PiiType.
Proof.
  apply (inj_countable PiiType_to_nat PiiType_of_nat).
  intros []; reflexivity.
Defined.

(** The attributes of an [EnhancedProcessor] that processing reads or
    mutates: the detector's threshold, [det_counts] (a Counter) and
    [confidence_stats] (a defaultdict of lists). *)
Record Processor := {
  confidence_threshold : Q;
  det_counts : gmap PiiType nat;
  confidence_stats : gmap PiiType (list Q)
}.

(** [EnhancedProcessor(confidence_threshold=threshold)] *)
Definition new_processor (threshold : Q) : Processor :=
  {| confidence_threshold := threshold; det_counts := ∅; confidence_stats := ∅ |}.

(** [self.det_counts[t] += 1; self.confidence_stats[t].append(conf)] *)
Definition record_detection (self : Processor) (t : PiiType) (conf : Q)
  : Processor :=
  {| confidence_threshold := confidence_threshold self;
     det_counts := <[t := S (default 0%nat (det_counts self !! t))]> (det_counts self);
     confidence_stats :=
       <[t := default [] (confidence_stats self !! t) ++ [conf]]>
         (confidence_stats self) |}.

(** [all_matches.sort(key=lambda x: x[1].start(), reverse=True)]: the sort is
    stable, also with [reverse=True], so its result is the one of this
    insertion sort: matches with the same start keep their order. *)
Fixpoint insert_desc (x : candidate) (l : list candidate) : list candidate :=
  match l with
  | [] => [x]
  | y :: l' =>
      if (cand_start x <? cand_start y)%nat then y :: insert_desc x l'
      else x :: l
  end.

Definition sort_by_start_desc (l : list candidate) : list candidate :=
  foldr insert_desc [] l.

(** [new_text[:start] + masked + new_text[end:]] *)
Definition splice (new_text : text) (s e : nat) (masked : text) : text :=
  take s new_text ++ masked ++ drop e new_text.

Section Engine.
Context {U : Unicode} {L : Library}.

(** the [for] loop of [_deidentify_text_enhanced]; the state is the
    processor, the working copy and the detections appended so far *)
Fixpoint redact_loop (context : text) (ms : list candidate)
    (st : Processor * text * list EnhancedDetection)
  : result (Processor * text * list EnhancedDetection) :=
  match ms with
  | [] => Ok st
  | (t, m, conf) :: ms' =>
      let '(self, new_text, detections) := st in
      let raw := group0 m in
      masked <- ENHANCED_DEIDENTIFY t raw ;;
      let new_text := splice new_text (m_start m) (m_end m) masked in
      let detection :=
        {| row_index := -1; column_name := []; pii_type := t;
           raw_value := raw; masked_value := masked;
           start := m_start m; end_ := m_end m; confidence := conf;
           context := take 100 context |} in
      redact_loop context ms'
        (record_detection self t conf, new_text, detections ++ [detection])
  end.

Definition _deidentify_text_enhanced (self : Processor) (s context : text)
  : result (Processor * (text * list EnhancedDetection)) :=
  all_matches <- find_all_enhanced (confidence_threshold self) s context ;;
  match all_matches with
  | [] => Ok (self, (s, []))
  | _ =>
      st <- redact_loop context (sort_by_start_desc all_matches) (self, s, []) ;;
      let '(self, new_text, detections) := st in
      Ok (self, (new_text, rev detections))
  end.

End Engine.

(** ** Summary *)

(** The aggregate fields of the summary that are computed from the counters
    and the log. (The timestamp, the file paths and the two float averages
    are left out.) *)
Record Summary := {
  total_detections : nat;
  counts_by_type : gmap PiiType nat;
  unique_values_by_type : gmap PiiType nat
}.

Definition raw_values_of (t : PiiType) (detections : list EnhancedDetection)
  : gset text :=
  list_to_set
    (List.map raw_value
       (List.filter (fun d => bool_decide (pii_type d = t)) detections)).

Definition _generate_summary (self : Processor)
    (detections : list EnhancedDetection) : Summary :=
  {| total_detections := length detections;
     counts_by_type := det_counts self;
     unique_values_by_type :=
       map_imap (fun t _ => Some (size (raw_values_of t detections)))
                (det_counts self) |}.

(** what a [process_*_enhanced] call returns and writes to [output_path] *)
Record Processed (Doc : Type) := {
  output : Doc;
  summary : Summary;
  detections_log : list EnhancedDetection
}.
Arguments output {Doc} _.
Arguments summary {Doc} _.
Arguments detections_log {Doc} _.

(** number of detections of type [t] in a log *)
Definition count_type (t : PiiType) (log : list EnhancedDetection) : nat :=
  length (List.filter (fun d => bool_decide (pii_type d = t)) log).

(** ** Document adapters *)

Section Adapters.
Context {U : Unicode} {L : Library}.

(** [process_txt_enhanced], from the text read from the input file *)
Definition process_txt_enhanced (self : Processor) (s : text)
  : result (Processor * Processed text) :=
  r <- _deidentify_text_enhanced self s s ;;
  let '(self, (new_text, dets)) := r in
  let detections_log := List.map (at_cell 1 (txt "text")) dets in
  Ok (self, {| output := new_text;
               summary := _generate_summary self detections_log;
               detections_log := detections_log |}).

(** [process_pdf_enhanced], from the text extracted from each page *)
Definition process_pdf_enhanced (self : Processor) (pages : list text)
  : result (Processor * Processed text) :=
  let s :=
    flat_map (fun extracted =>
                match extracted with
                | [] => []
                | _ => extracted ++ [10]
                end) pages in
  r <- _deidentify_text_enhanced self s s ;;
  let '(self, (new_text, dets)) := r in
  let detections_log := List.map (at_cell 1 (txt "pdf_text")) dets in
  Ok (self, {| output := new_text;
               summary := _generate_summary self detections_log;
               detections_log := detections_log |}).

(** [isinstance(item, dict)] *)
Definition is_dict (v : json) : bool :=
  match v with
  | JDict _ => true
  | _ => false
  end.

Definition dict_items (v : json) : list (text * json) :=
  match v with
  | JDict items => items
  | _ => []
  end.

(** the loop over [item.items()] of one record *)
Fixpoint process_item (r_i : Z) (item_context : text) (items : list (text * json))
    (st : Processor * list EnhancedDetection)
  : result (Processor * list EnhancedDetection * list (text * text)) :=
  match items with
  | [] => Ok (st, [])
  | (key, value) :: items' =>
      let '(self, detections_log) := st in
      let cell := match value with JNone => [] | _ => py_str value end in
      r <- _deidentify_text_enhanced self cell item_context ;;
      let '(self, (new_text, dets)) := r in
      let detections_log := detections_log ++ List.map (at_cell r_i key) dets in
      r' <- process_item r_i item_context items' (self, detections_log) ;;
      let '(st', new_item) := r' in
      Ok (st', (key, new_text) :: new_item)
  end.

(** the loop over [enumerate(data, start=1)] *)
Fixpoint process_records (r_i : Z) (data : list json)
    (st : Processor * list EnhancedDetection)
  : result (Processor * list EnhancedDetection * list (list (text * text))) :=
  match data with
  | [] => Ok (st, [])
  | item :: data' =>
      let item_context :=
        join (txt " ")
          (List.map (fun kv => fst kv ++ txt ":" ++ py_str (snd kv))
                    (dict_items item)) in
      r <- process_item r_i item_context (dict_items item) st ;;
      let '(st, new_item) := r in
      r' <- process_records (r_i + 1) data' st ;;
      let '(st', new_data) := r' in
      Ok (st', new_item :: new_data)
  end.

(** [process_json_enhanced], from the decoded document. The only check is
    that the document is a list whose items are dictionaries; where it
    fails the code raises [ValueError("JSON must be a list of dictionaries")]. *)
Definition process_json_enhanced (self : Processor) (data : json)
  : result (Processor * Processed (list (list (text * text)))) :=
  match data with
  | JList items =>
      if forallb is_dict items then
        r <- process_records 1 items (self, []) ;;
        let '((self, detections_log), new_data) := r in
        Ok (self, {| output := new_data;
                     summary := _generate_summary self detections_log;
                     detections_log := detections_log |})
      else Raise ValueError
  | _ => Raise ValueError
  end.

(** [_process_tabular], from the DataFrame that the reader returned: the
    column labels and, for each row, one cell per column, [None] where
    [pd.notna] is false and [Some (str(value))] otherwise. *)
Fixpoint process_row (row_index : Z) (row_context : text)
    (cells : list (text * option text))
    (st : Processor * list EnhancedDetection)
  : result (Processor * list EnhancedDetection * list text) :=
  match cells with
  | [] => Ok (st, [])
  | (col, value) :: cells' =>
      let '(self, detections_log) := st in
      let cell := default [] value in
      r <- _deidentify_text_enhanced self cell row_context ;;
      let '(self, (new_text, dets)) := r in
      let detections_log :=
        detections_log ++ List.map (at_cell (row_index + 1) col) dets in
      r' <- process_row row_index row_context cells' (self, detections_log) ;;
      let '(st', new_row) := r' in
      Ok (st', new_text :: new_row)
  end.

Fixpoint process_rows (header : list text) (r_i : Z)
    (rows : list (list (option text)))
    (st : Processor * list EnhancedDetection)
  : result (Processor * list EnhancedDetection * list (list text)) :=
  match rows with
  | [] => Ok (st, [])
  | row :: rows' =>
      let row_context := join (txt " ") (omap id row) in
      r <- process_row r_i row_context (zip header row) st ;;
      let '(st, new_row) := r in
      r' <- process_rows header (r_i + 1) rows' st ;;
      let '(st', new_rows) := r' in
      Ok (st', new_row :: new_rows)
  end.

Definition _process_tabular (self : Processor) (header : list text)
    (rows : list (list (option text)))
  : result (Processor * Processed (list (list text))) :=
  r <- process_rows header 0 rows (self, []) ;;
  let '((self, detections_log), new_df) := r in
  Ok (self, {| output := new_df;
               summary := _generate_summary self detections_log;
               detections_log := detections_log |}).

End Adapters.

(** ** CSV cleaning *)

Section CleanCsv.
Context {U : Unicode}.

(** [s.strip()]: the characters that [str.isspace] accepts are removed at
    both ends *)
Fixpoint str_lstrip (s : text) : text :=
  match s with
  | [] => []
  | c :: s' => if isspace c then str_lstrip s' else s
  end.

Definition str_strip (s : text) : text := rev (str_lstrip (rev (str_lstrip s))).

(** the condition of the comprehension of [_clean_csv]:
    [line.strip() and not line.strip().startswith('```')] *)
Definition kept_line (line : text) : bool :=
  match str_strip line with
  | [] => false
  | _ :: _ => negb (starts_with (txt "```") (str_strip line))
  end.

(** [cleaned_lines] of [_clean_csv], from the lines that [readlines]
    returned, and the content that is written to the cleaned file *)
Definition cleaned_lines (lines : list text) : list text :=
  List.map str_strip (List.filter kept_line lines).

Definition _clean_csv (lines : list text) : text :=
  join [10] (cleaned_lines lines).

End CleanCsv.

(** ** Vocabulary of the properties

    What the theorems below talk about: the specification's own wording of
    some checks, the words of a pattern, and the engine's candidates,
    replacements and counters. *)

Section Vocabulary.
Context {U : Unicode} {L : Library}.

(** the contribution of the digit [d] at position [i] counted from the
    right, the rightmost digit being at position 0: every second digit is
    doubled, and 9 is subtracted from a doubled digit greater than 9 *)
Definition luhn_term (i : nat) (d : Z) : Z :=
  if Nat.odd i then (if 2 * d >? 9 then 2 * d - 9 else 2 * d)%Z else d.

Fixpoint luhn_sum (i : nat) (from_right : list Z) : Z :=
  match from_right with
  | [] => 0
  | d :: ds => luhn_term i d + luhn_sum (S i) ds
  end%Z.

(** the digits of a string, read as numbers *)
Definition digit_values (s : text) : list Z :=
  List.map (fun c => Z.of_nat (decimal_value c)) (strip_non_digits s).

(** the number that a string of decimal digits denotes *)
Definition decimal_number (s : text) : Z :=
  fold_left (fun acc c => 10 * acc + Z.of_nat (decimal_value c))%Z s 0%Z.

(** an octet as the specification words it: a number between 0 and 255 *)
Definition is_octet (p : text) : bool :=
  negb (length p =? 0)%nat && forallb isdecimal p
  && (decimal_number p <=? 255)%Z.

(** exactly four dot-separated octets *)
Definition is_dotted_quad (ip : text) : bool :=
  let parts := split_on 46 ip in
  (length parts =? 4)%nat && forallb is_octet parts.

(** [n] words of [P] in a row, and at most [n] of them *)
Fixpoint pow (P : text -> Prop) (n : nat) (w : text) : Prop :=
  match n with
  | O => w = []
  | S n' => exists u v, w = u ++ v /\ P u /\ pow P n' v
  end.

Fixpoint upto (P : text -> Prop) (n : nat) (w : text) : Prop :=
  match n with
  | O => w = []
  | S n' => w = [] \/ exists u v, w = u ++ v /\ P u /\ upto P n' v
  end.

(** the characters a pattern can consume *)
Fixpoint alphabet (r : regex) : cset :=
  match r with
  | REps | RBound | RStart | REnd => []
  | RSet cs => cs
  | RSeq a b | RAlt a b => alphabet a ++ alphabet b
  | RStar cs _ => cs
  | RRep a _ _ => alphabet a
  end.

(** a class item made of ASCII characters, [\d] or [\s] *)
Definition ascii_item (i : citem) : bool :=
  match i with
  | CLit a => a <? 128
  | CRange lo hi => hi <? 128
  | CDigit | CSpace => true
  end.

(** The words of a pattern, the anchors and [\b] read as the empty word:
    every match of the pattern is one of them. *)
Fixpoint lang (r : regex) (w : text) : Prop :=
  match r with
  | REps | RBound | RStart | REnd => w = []
  | RSet cs => exists c, w = [c] /\ in_cset cs c = true
  | RSeq a b => exists u v, w = u ++ v /\ lang a u /\ lang b v
  | RAlt a b => lang a w \/ lang b w
  | RStar cs _ => forallb (in_cset cs) w = true
  | RRep a lo extra =>
      exists u v, w = u ++ v /\ pow (lang a) lo u /\ upto (lang a) extra v
  end.

(** a matcher only succeeds by consuming a word of [P] and then letting
    its continuation succeed on the rest *)
Definition sound (m : matcher) (P : text -> Prop) : Prop :=
  forall prev s k res, m prev s k = Some res ->
    exists w s' p', s = w ++ s' /\ P w /\ k p' s' = Some res.

Definition count_digits (s : text) : nat := length (List.filter isdigit s).

(** the score and the mask of a match, where the scorer and the mask return *)
Definition conf_of (t : PiiType) (raw ctx : text) : Q :=
  match _calculate_confidence t raw ctx with
  | Ok q => q
  | Raise _ => 0
  end.

Definition mask_of (t : PiiType) (raw : text) : text :=
  match ENHANCED_DEIDENTIFY t raw with
  | Ok masked => masked
  | Raise _ => []
  end.

(** every match of every pattern with its score, in the order of the
    registry: the candidates before the threshold is applied *)
Definition candidates_of (s ctx : text) (t : PiiType) : list candidate :=
  List.map (fun m => (t, m, conf_of t (group0 m) ctx)) (finditer (pattern_of t) s).

Definition all_candidates (s ctx : text) : list candidate :=
  flat_map (candidates_of s ctx) pii_types.

Definition accepted (threshold : Q) (x : candidate) : bool :=
  Qle_bool threshold (snd x).

(** the matches the engine rewrites, in the order it applies them *)
Definition applied_matches (threshold : Q) (s ctx : text) : list candidate :=
  sort_by_start_desc (List.filter (accepted threshold) (all_candidates s ctx)).

Definition detection_of (ctx : text) (x : candidate) : EnhancedDetection :=
  let '(t, m, conf) := x in
  {| row_index := -1; column_name := []; pii_type := t;
     raw_value := group0 m; masked_value := mask_of t (group0 m);
     start := m_start m; end_ := m_end m; confidence := conf;
     context := take 100 ctx |}.

Definition apply_mask (new_text : text) (x : candidate) : text :=
  let '(t, m, _) := x in
  splice new_text (m_start m) (m_end m) (mask_of t (group0 m)).

Definition count_one (self : Processor) (x : candidate) : Processor :=
  let '(t, _, conf) := x in record_detection self t conf.

(** a candidate whose text is a word of the pattern of its type *)
Definition well_formed (x : candidate) : Prop :=
  let '(t, m, _) := x in lang (pattern_of t) (group0 m).

Definition start_ge (a b : candidate) : Prop := (cand_start b <= cand_start a)%nat.

(** the replacement that a detection records, applied to the working copy *)
Definition apply_detection (new_text : text) (d : EnhancedDetection) : text :=
  splice new_text (start d) (end_ d) (masked_value d).

(** the detections and the text that a call of the engine returned *)
Definition detections_of
    (r : result (Processor * (text * list EnhancedDetection)))
  : list EnhancedDetection :=
  match r with
  | Ok (_, (_, dets)) => dets
  | Raise _ => []
  end.

Definition text_of (r : result (Processor * (text * list EnhancedDetection)))
  : text :=
  match r with
  | Ok (_, (new_text, _)) => new_text
  | Raise _ => []
  end.

Definition span_of (d : EnhancedDetection) : PiiType * nat * nat :=
  (pii_type d, start d, end_ d).

(** [self.det_counts[t]], 0 for a type that is not a key *)
Definition counter (self : Processor) (t : PiiType) : nat :=
  default 0%nat (det_counts self !! t).

(** the counters exceed what a log holds by [base], type by type *)
Definition balanced (base : PiiType -> nat) (self : Processor)
    (log : list EnhancedDetection) : Prop :=
  forall t, counter self t = (base t + count_type t log)%nat.

(** the check of [process_json_enhanced] *)
Definition is_list_of_dicts (data : json) : bool :=
  match data with
  | JList items => forallb is_dict items
  | _ => false
  end.

(** a flat record: a dictionary whose values are scalars, not nested *)
Definition is_scalar (v : json) : bool :=
  match v with
  | JList _ | JDict _ => false
  | _ => true
  end.

Definition is_flat_record (v : json) : bool :=
  match v with
  | JDict items => forallb (fun kv => is_scalar (snd kv)) items
  | _ => false
  end.

Definition is_flat_records (data : json) : bool :=
  match data with
  | JList items => forallb is_flat_record items
  | _ => false
  end.

(** what the summary of a run reports for a type: the counter the
    processor had before the run plus the detections of the run *)
Definition counts_accumulate {Doc} (self : Processor)
    (r : result (Processor * Processed Doc)) : Prop :=
  exists self' out,
    r = Ok (self', out) /\
    total_detections (summary out) = length (detections_log out) /\
    forall t, default 0%nat (counts_by_type (summary out) !! t) =
              (counter self t + count_type t (detections_log out))%nat.

(** what a position of the masked value may hold: the character of the
    original if that was not a digit; a digit or the filler if it was *)
Definition slot (c m : char) : Prop :=
  if isdigit c then m = X \/ isdigit m = true else m = c.

Definition format_preserved (raw masked : text) : Prop := Forall2 slot raw masked.

(** the processor after a run, and what the summary and the log of a run
    hold for a type *)
Definition processor_after {A} (r : result (Processor * A)) (self : Processor)
  : Processor :=
  match r with
  | Ok (p, _) => p
  | Raise _ => self
  end.

Definition summary_count {Doc} (r : result (Processor * Processed Doc))
    (t : PiiType) : option nat :=
  match r with
  | Ok (_, out) => counts_by_type (summary out) !! t
  | Raise _ => None
  end.

Definition log_count {Doc} (r : result (Processor * Processed Doc))
    (t : PiiType) : nat :=
  match r with
  | Ok (_, out) => count_type t (detections_log out)
  | Raise _ => 0%nat
  end.

End Vocabulary.

(** ** Vocabulary of the further properties

    The checksum of the national ID in closed form, measures of a pattern,
    detections that do not overlap, and what the adapters keep of a
    document. *)

(** [t[i][j]] for indices within the table *)
Definition table_get (t : list (list Z)) (i j : Z) : Z :=
  nth (Z.to_nat j) (nth (Z.to_nat i) t []) 0%Z.

(** [_d[c][_p[k][v]]]: the checksum after the digit [v] at a position [i]
    with [i % 8 = k] *)
Definition verhoeff_next (k c v : Z) : Z :=
  table_get verhoeff_d c (table_get verhoeff_p k v).

(** the checksum after the digits [vs], the first of them at position [i] *)
Fixpoint verhoeff_fold (i : nat) (c : Z) (vs : list Z) : Z :=
  match vs with
  | [] => c
  | v :: vs' => verhoeff_fold (S i) (verhoeff_next (Z.of_nat i mod 8) c v) vs'
  end.

(** the finite checks on the two tables: over every position modulo 8,
    every checksum and every digit *)
Definition digits10 : list Z := [0; 1; 2; 3; 4; 5; 6; 7; 8; 9]%Z.
Definition rows8 : list Z := [0; 1; 2; 3; 4; 5; 6; 7]%Z.

Definition in_digits (z : Z) : bool := (0 <=? z)%Z && (z <=? 9)%Z.

Definition all3 (f : Z -> Z -> Z -> bool) : bool :=
  forallb (fun k => forallb (fun c => forallb (fun v => f k c v) digits10)
                            digits10) rows8.

(** the four subscripts of one step of the loop return the entry of the
    tables, a digit *)
Definition step_ok (k c v : Z) : bool :=
  match (row_d <- index verhoeff_d c ;;
         row_p <- index verhoeff_p k ;;
         j <- index row_p v ;;
         index row_d j) with
  | Ok c' => (c' =? verhoeff_next k c v)%Z && in_digits c'
  | Raise _ => false
  end.

(** the least number of characters of a word of a pattern, and the greatest
    for a pattern without [*] *)
Fixpoint min_len (r : regex) : nat :=
  match r with
  | REps | RBound | RStart | REnd => 0
  | RSet _ => 1
  | RSeq a b => min_len a + min_len b
  | RAlt a b => Nat.min (min_len a) (min_len b)
  | RStar _ _ => 0
  | RRep a lo _ => lo * min_len a
  end.

Fixpoint max_len (r : regex) : nat :=
  match r with
  | REps | RBound | RStart | REnd => 0
  | RSet _ => 1
  | RSeq a b => max_len a + max_len b
  | RAlt a b => Nat.max (max_len a) (max_len b)
  | RStar _ _ => 0
  | RRep a lo extra => (lo + extra) * max_len a
  end.

Fixpoint star_free (r : regex) : bool :=
  match r with
  | RStar _ _ => false
  | RSeq a b | RAlt a b => star_free a && star_free b
  | RRep a _ _ => star_free a
  | _ => true
  end.

(** a class item whose characters are all below [n] *)
Definition item_below (n : char) (i : citem) : bool :=
  match i with
  | CLit a => a <? n
  | CRange _ hi => hi <? n
  | CDigit | CSpace => false
  end.

(** a class item that only holds decimal digits *)
Definition item_is_digit (i : citem) : bool :=
  match i with
  | CLit a => (48 <=? a) && (a <=? 57)
  | CRange lo hi => (48 <=? lo) && (hi <=? 57)
  | CDigit => true
  | CSpace => false
  end.

(** the least number of decimal digits in a word of a pattern *)
Fixpoint min_digits (r : regex) : nat :=
  match r with
  | REps | RBound | RStart | REnd => 0
  | RSet cs => if forallb item_is_digit cs then 1 else 0
  | RSeq a b => min_digits a + min_digits b
  | RAlt a b => Nat.min (min_digits a) (min_digits b)
  | RStar _ _ => 0
  | RRep a lo _ => lo * min_digits a
  end.

(** matches that follow one another from [pos] on without overlap *)
Fixpoint in_sequence (pos : nat) (ms : list Match) : Prop :=
  match ms with
  | [] => True
  | m :: ms' =>
      (pos <= m_start m)%nat /\ (m_start m <= m_end m)%nat /\
      in_sequence (m_end m) ms'
  end.

(** detections that follow one another from [pos] on without overlap *)
Fixpoint separated (pos : nat) (dets : list EnhancedDetection) : Prop :=
  match dets with
  | [] => True
  | d :: dets' =>
      (pos <= start d)%nat /\ (start d <= end_ d)%nat /\ separated (end_ d) dets'
  end.

(** the text from [pos] on with the span of every detection replaced by its
    masked value, from left to right *)
Fixpoint render (pos : nat) (dets : list EnhancedDetection) (s : text) : text :=
  match dets with
  | [] => drop pos s
  | d :: dets' =>
      slice pos (start d) s ++ masked_value d ++ render (end_ d) dets' s
  end.

(** what identifies a detection and a match of the detector: the type, the
    offsets and the score *)
Definition detection_key (d : EnhancedDetection) : PiiType * nat * nat * Q :=
  (pii_type d, start d, end_ d, confidence d).

Definition candidate_key (x : candidate) : PiiType * nat * nat * Q :=
  let '(t, m, q) := x in (t, m_start m, m_end m, q).

(** a detection logged for row [r] whose cells, by column, are [cells]: it
    names the row and a column of it, its offsets cut its raw value out of
    the text of that cell, and its score reaches the threshold *)
Definition logged_in (threshold : Q) (r : Z) (cells : list (text * text))
    (d : EnhancedDetection) : Prop :=
  row_index d = r /\
  (threshold <= confidence d)%Q /\
  exists cell, In (column_name d, cell) cells /\
    (start d <= end_ d <= length cell)%nat /\
    raw_value d = slice (start d) (end_ d) cell.

(** the cells of a row of a table, by column *)
Definition row_cells (header : list text) (row : list (option text))
  : list (text * text) :=
  List.map (fun kv => (fst kv, default [] (snd kv))) (zip header row).

(** the new record has the keys of the old one in their order, and the
    empty string where the value was [None] *)
Definition record_kept (item : json) (new_item : list (text * text)) : Prop :=
  Forall2 (fun kv new => fst new = fst kv /\ (snd kv = JNone -> snd new = []))
          (dict_items item) new_item.


(** what a summary says of each type agrees with a log: the types that
    have a count are those that have a number of unique values, which is at
    most the number of detections of the type in the log, which is at most
    the count; a type without a count has no detection in the log *)
Definition summary_bounded (sm : Summary) (log : list EnhancedDetection) : Prop :=
  forall t,
    match unique_values_by_type sm !! t, counts_by_type sm !! t with
    | Some u, Some c => (u <= count_type t log <= c)%nat
    | None, None => count_type t log = 0%nat
    | _, _ => False
    end.

(** a run returns, and its summary agrees with its log *)
Definition summary_consistent {Doc} (r : result (Processor * Processed Doc))
  : Prop :=
  exists self' out,
    r = Ok (self', out) /\ summary_bounded (summary out) (detections_log out).

Section FurtherVocabulary.
Context {U : Unicode} {L : Library}.

(** the values of the characters of a string of decimal digits *)
Definition decimal_values (s : text) : list Z :=
  List.map (fun c => Z.of_nat (decimal_value c)) s.

(** a character that [str.isdigit] accepts and [\d] does not *)
Definition odd_digit (c : char) : bool := isdigit c && negb (isdecimal c).

(** whether one of the bank keywords occurs in the lowered context *)
Definition mentions_bank (ctx : text) : bool :=
  existsb (fun keyword => contains keyword (str_lower ctx))
          [txt "account"; txt "bank"; txt "acc"; txt "a/c"].

(** the text of a JSON value that the record adapter scans, and the cells
    of a record, by key *)
Definition cell_text (value : json) : text :=
  match value with JNone => [] | _ => py_str value end.

Definition record_cells (item : json) : list (text * text) :=
  List.map (fun kv => (fst kv, cell_text (snd kv))) (dict_items item).

(** a string that does not start with white space *)
Definition starts_clean (s : text) : Prop :=
  match s with
  | [] => True
  | c :: _ => isspace c = false
  end.

End FurtherVocabulary.

(** ** A concrete platform

    The Unicode database restricted to U+0000..U+00FF (every code point
    above is treated as an unclassified symbol), used to run the code on
    concrete inputs of that range. *)

Module Latin1.

Definition isdecimal (c : char) : bool := ascii_digit c.

(** the superscripts two, three and one are digits but not decimals *)
Definition isdigit (c : char) : bool :=
  ascii_digit c || (c =? 178) || (c =? 179) || (c =? 185).

Definition isalpha (c : char) : bool :=
  ascii_upper c || ascii_lower c || (c =? 170) || (c =? 181) || (c =? 186)
  || in_range 192 214 c || in_range 216 246 c || in_range 248 255 c.

Definition isalnum (c : char) : bool :=
  isalpha c || isdigit c || in_range 188 190 c.

Definition isspace (c : char) : bool :=
  ascii_space c || (c =? 133) || (c =? 160).

Definition upper_char (c : char) : text :=
  if ascii_lower c || in_range 224 246 c || in_range 248 254 c then [c - 32]
  else if c =? 181 then [924]
  else if c =? 223 then [83; 83]
  else if c =? 255 then [376]
  else [c].

Definition lower_char (c : char) : char :=
  if ascii_upper c || in_range 192 214 c || in_range 216 222 c then c + 32
  else c.

Definition decimal_value (c : char) : nat := N.to_nat (c - 48).

(** [strptime(s, '%d/%m/%Y')]: a day [3[0-1]|[1-2]\d|0[1-9]|[1-9]| [1-9]], a
    month [1[0-2]|0[1-9]|[1-9]] and a year of four digits, separated by
    slashes, that form a date of the calendar from year 1 on. *)
Definition digit_val (c : char) : nat := N.to_nat (c - 48).

Definition parse_day (s : text) : option nat :=
  match s with
  | [a; b] =>
      if (a =? 51) && in_range 48 49 b then Some (30 + digit_val b)%nat
      else if in_range 49 50 a && ascii_digit b
      then Some (10 * digit_val a + digit_val b)%nat
      else if ((a =? 48) || (a =? 32)) && in_range 49 57 b then Some (digit_val b)
      else None
  | [a] => if in_range 49 57 a then Some (digit_val a) else None
  | _ => None
  end.

Definition parse_month (s : text) : option nat :=
  match s with
  | [a; b] =>
      if (a =? 49) && in_range 48 50 b then Some (10 + digit_val b)%nat
      else if (a =? 48) && in_range 49 57 b then Some (digit_val b)
      else None
  | [a] => if in_range 49 57 a then Some (digit_val a) else None
  | _ => None
  end.

Definition parse_year (s : text) : option nat :=
  match s with
  | [a; b; c; d] =>
      if forallb ascii_digit s
      then Some (1000 * digit_val a + 100 * digit_val b + 10 * digit_val c
                 + digit_val d)%nat
      else None
  | _ => None
  end.

Definition is_leap (y : nat) : bool :=
  ((y mod 4 =? 0) && negb (y mod 100 =? 0) || (y mod 400 =? 0))%nat.

Definition days_in_month (y m : nat) : nat :=
  match m with
  | 2 => if is_leap y then 29 else 28
  | 4 | 6 | 9 | 11 => 30
  | _ => 31
  end%nat.

Definition strptime_dmY (s : text) : option (nat * nat * nat) :=
  match split_on 47 s with
  | [d; m; y] =>
      match parse_day d, parse_month m, parse_year y with
      | Some d, Some m, Some y =>
          if ((1 <=? y) && (d <=? days_in_month y m))%nat
          then Some (d, m, y) else None
      | _, _, _ => None
      end
  | _ => None
  end.

(** [str] and [repr] of decoded JSON values; the [repr] of a string inside
    a container is written with single quotes and no escapes. *)
Definition str_of_Z (z : Z) : text :=
  txt (DecimalString.NilZero.string_of_int (Z.to_int z)).

Fixpoint py_repr (quoted : bool) (v : json) : text :=
  match v with
  | JNone => txt "None"
  | JBool b => if b then txt "True" else txt "False"
  | JInt z => str_of_Z z
  | JFloat r => r
  | JStr s => if quoted then [39] ++ s ++ [39] else s
  | JList items =>
      txt "[" ++ join (txt ", ") (List.map (py_repr true) items) ++ txt "]"
  | JDict items =>
      txt "{" ++
      join (txt ", ")
        (List.map (fun kv => [39] ++ fst kv ++ [39] ++ txt ": " ++ py_repr true (snd kv))
                  items) ++
      txt "}"
  end.

(** The digests are placeholders of the right length: the runs below accept
    no match of a tokenised type. *)
Definition sha256_hexdigest (s : text) : text := replicate 64 48.
Definition md5_hexdigest (s : text) : text := replicate 32 48.

End Latin1.

Ltac bool_props :=
  rewrite ?orb_true_iff, ?andb_true_iff, ?N.leb_le, ?N.ltb_lt, ?N.eqb_eq in *.

Ltac bool_lia :=
  match goal with
  | |- _ = true => idtac
  | |- _ = false => apply not_true_iff_false; intro
  | |- @eq bool _ _ => apply eq_true_iff_eq
  | _ => idtac
  end; bool_props; lia.

Ltac unfold_latin1 :=
  unfold Latin1.isalnum, Latin1.isalpha, Latin1.isdigit, Latin1.isdecimal,
    Latin1.isspace, Latin1.upper_char, Latin1.decimal_value, ascii_alnum,
    ascii_space, ascii_to_upper, ascii_digit, ascii_upper, ascii_lower,
    in_range in *.

Definition latin1 : Unicode.
Proof.
  refine {|
    isdecimal := Latin1.isdecimal;
    decimal_value := Latin1.decimal_value;
    isdigit := Latin1.isdigit;
    isalnum := Latin1.isalnum;
    isspace := Latin1.isspace;
    upper_char := Latin1.upper_char;
    str_lower := List.map Latin1.lower_char
  |}.
  - reflexivity.
  - intros c Hc. unfold_latin1. bool_lia.
  - intros c Hc. unfold_latin1. bool_lia.
  - intros c Hc. unfold_latin1. bool_lia.
  - intros c Hc. unfold_latin1.
    destruct (N.leb_spec 97 c); destruct (N.leb_spec c 122); cbn [andb orb];
    repeat match goal with
    | |- context [N.leb ?a ?b] => destruct (N.leb_spec a b); try lia
    end;
    repeat match goal with
    | |- context [N.eqb ?a ?b] => destruct (N.eqb_spec a b); try lia
    end; cbn [andb orb]; reflexivity.
  - reflexivity.
  - intros c Hc. unfold_latin1. bool_props. lia.
  - intros c Hc. unfold_latin1. bool_lia.
  - intros c Hc. unfold_latin1. bool_lia.
  - intros c Hc. unfold_latin1. bool_lia.
Defined.

Definition latin1_library : Library.
Proof.
  refine {|
    sha256_hexdigest := Latin1.sha256_hexdigest;
    md5_hexdigest := Latin1.md5_hexdigest;
    strptime_dmY := Latin1.strptime_dmY;
    py_str := Latin1.py_repr false
  |}.
  reflexivity.
Defined.

(** * Properties *)

(** ** Strings and [int] *)

Section StringFacts.
Context {U : Unicode}.

Lemma isdecimal_not_space c : isdecimal c = true -> isspace c = false.
Proof.
  intros Hd. destruct (isspace c) eqn:Hs; [|reflexivity].
  apply isspace_not_alnum in Hs.
  apply isdecimal_isdigit, isdigit_isalnum in Hd. congruence.
Qed.

Lemma isdigit_not_space c : isdigit c = true -> isspace c = false.
Proof.
  intros Hd. destruct (isspace c) eqn:Hs; [|reflexivity].
  apply isspace_not_alnum in Hs. apply isdigit_isalnum in Hd. congruence.
Qed.

(** an ASCII character that is not a digit is not a digit for Unicode *)
Lemma isdecimal_ascii_false c :
  c < 128 -> ascii_digit c = false -> isdecimal c = false.
Proof. intros Hc Hd. rewrite isdecimal_ascii; assumption. Qed.

Lemma isdigit_ascii_false c :
  c < 128 -> ascii_digit c = false -> isdigit c = false.
Proof. intros Hc Hd. rewrite isdigit_ascii; assumption. Qed.

Lemma isdecimal_neq c (a : char) :
  isdecimal c = true -> a < 128 -> ascii_digit a = false -> (c =? a) = false.
Proof.
  intros Hc Ha Hd. destruct (N.eqb_spec c a) as [->|]; [|reflexivity].
  rewrite (isdecimal_ascii_false a) in Hc by assumption. discriminate.
Qed.

Lemma isdigit_neq c (a : char) :
  isdigit c = true -> a < 128 -> ascii_digit a = false -> (c =? a) = false.
Proof.
  intros Hc Ha Hd. destruct (N.eqb_spec c a) as [->|]; [|reflexivity].
  rewrite (isdigit_ascii_false a) in Hc by assumption. discriminate.
Qed.

Lemma isdecimal_not_blank c : isdecimal c = true -> int_blank c = false.
Proof.
  intros Hd. unfold int_blank. destruct (N.ltb_spec c 127) as [Hc|Hc].
  - rewrite isdecimal_ascii in Hd by lia.
    unfold ascii_digit, in_range in *. bool_lia.
  - apply isdecimal_not_space; assumption.
Qed.

Lemma lstrip_decimal c s : isdecimal c = true -> lstrip (c :: s) = c :: s.
Proof. intros Hd. simpl. rewrite isdecimal_not_blank; auto. Qed.

Lemma strip_decimals s :
  forallb isdecimal s = true -> strip s = s.
Proof.
  intros Hs. unfold strip. destruct s as [|c s]; [reflexivity|].
  simpl in Hs. apply andb_true_iff in Hs as [Hc Hs].
  rewrite lstrip_decimal by assumption.
  destruct (rev (c :: s)) as [|d t] eqn:Hr.
  - apply (f_equal length) in Hr. rewrite length_rev in Hr. discriminate.
  - assert (Hd : isdecimal d = true).
    { assert (Hin : In d (rev (c :: s))) by (rewrite Hr; left; reflexivity).
      apply in_rev in Hin. destruct Hin as [<-|Hin]; [assumption|].
      rewrite forallb_forall in Hs. auto. }
    rewrite lstrip_decimal by assumption. rewrite <- Hr.
    apply rev_involutive.
Qed.

Lemma int_digits_decimals acc s :
  forallb isdecimal s = true ->
  int_digits acc s =
  Ok (fold_left (fun acc c => 10 * acc + Z.of_nat (decimal_value c))%Z s acc).
Proof.
  revert acc. induction s as [|c s IH]; intros acc Hs; simpl.
  - reflexivity.
  - simpl in Hs. apply andb_true_iff in Hs as [Hc Hs]. rewrite Hc.
    apply IH; assumption.
Qed.

(** [int] of a non-empty string of decimal digits *)
Lemma py_int_decimals s :
  s <> [] -> forallb isdecimal s = true -> py_int s = Ok (decimal_number s).
Proof.
  intros Hne Hs. unfold py_int. rewrite strip_decimals by assumption.
  destruct s as [|c s]; [congruence|].
  simpl in Hs. apply andb_true_iff in Hs as [Hc Hs].
  rewrite (isdecimal_neq c 45), (isdecimal_neq c 43) by (auto; lia).
  unfold int_unsigned. rewrite Hc.
  rewrite int_digits_decimals by assumption. reflexivity.
Qed.

Lemma decimal_number_nonneg s : (0 <= decimal_number s)%Z.
Proof.
  unfold decimal_number.
  assert (H : forall acc, (0 <= acc)%Z ->
    (0 <= fold_left (fun acc c => 10 * acc + Z.of_nat (decimal_value c)) s acc)%Z).
  { induction s as [|c s IH]; intros acc Hacc; simpl; [assumption|].
    apply IH. lia. }
  apply H. lia.
Qed.

(** [int] of one character: its value if it is a decimal digit, an
    exception otherwise *)
Lemma py_int_char c :
  py_int [c] =
  if isdecimal c then Ok (Z.of_nat (decimal_value c)) else Raise ValueError.
Proof.
  destruct (isdecimal c) eqn:Hc.
  - unfold py_int. rewrite strip_decimals by (simpl; rewrite Hc; reflexivity).
    rewrite (isdecimal_neq c 45), (isdecimal_neq c 43) by (auto; lia).
    simpl. rewrite Hc. reflexivity.
  - unfold py_int, strip. simpl. destruct (int_blank c) eqn:Hb; simpl.
    + reflexivity.
    + rewrite Hb. simpl.
      destruct (c =? 45); [reflexivity|].
      destruct (c =? 43); [reflexivity|].
      simpl. rewrite Hc. reflexivity.
Qed.

Lemma mapM_int_digits s :
  mapM (fun ch => py_int [ch]) (strip_non_digits s) = Ok (digit_values s).
Proof.
  unfold digit_values, strip_non_digits.
  induction s as [|c s IH]; simpl; [reflexivity|].
  destruct (isdecimal c) eqn:Hc; [|assumption].
  simpl. rewrite py_int_char, Hc. simpl. rewrite IH. reflexivity.
Qed.

End StringFacts.

(** ** Validators *)

Section ValidatorFacts.
Context {U : Unicode} {L : Library}.

Lemma luhn_fold (ds : list Z) (acc : Z) (i : nat) :
  fold_left luhn_step ds (acc, Nat.odd i) =
  ((acc + luhn_sum i ds)%Z, Nat.odd (i + length ds)).
Proof.
  revert acc i. induction ds as [|d ds IH]; intros acc i; simpl.
  - rewrite Z.add_0_r, Nat.add_0_r. reflexivity.
  - replace (negb (Nat.odd i)) with (Nat.odd (S i))
      by (rewrite Nat.odd_succ, <- Nat.negb_odd; reflexivity).
    unfold luhn_term at 1.
    replace (d * 2)%Z with (2 * d)%Z by lia.
    rewrite IH. f_equal; [lia|]. f_equal. lia.
Qed.

(** what [luhn_check] computes, in closed form *)
Lemma luhn_check_eq (number : text) :
  luhn_check number =
  Ok (let ds := digit_values number in
      negb ((length ds <? 13)%nat || (19 <? length ds)%nat)
      && (luhn_sum 0 (rev ds) mod 10 =? 0)%Z).
Proof.
  unfold luhn_check. rewrite mapM_int_digits. simpl.
  destruct ((length (digit_values number) <? 13)%nat
            || (19 <? length (digit_values number))%nat); [reflexivity|].
  change (0%Z, false) with (0%Z, Nat.odd 0). rewrite luhn_fold.
  reflexivity.
Qed.

(** C6. For every input string, the payment-card validator returns, and it
    returns true if and only if the string, once everything but its digits
    is stripped, has between 13 and 19 digits and the Luhn total of the
    digits (every second digit from the right doubled, 9 subtracted from a
    doubled digit above 9) is divisible by 10. *)
Theorem luhn_check_correct (number : text) :
  exists b, luhn_check number = Ok b /\
    (b = true <->
     (13 <= length (digit_values number) <= 19)%nat /\
     (luhn_sum 0 (rev (digit_values number)) mod 10 = 0)%Z).
Proof.
  eexists. split; [apply luhn_check_eq|]. cbv zeta.
  rewrite andb_true_iff, negb_true_iff, orb_false_iff.
  rewrite !Nat.ltb_ge, Z.eqb_eq. tauto.
Qed.

(** The validators other than [validate_ip] return a boolean on every
    input. *)
Lemma verhoeff_validate_returns num : exists b, verhoeff_validate num = Ok b.
Proof.
  unfold verhoeff_validate, try_except.
  destruct (bind _ _); eauto.
Qed.

Lemma luhn_check_returns number : exists b, luhn_check number = Ok b.
Proof. rewrite luhn_check_eq. eauto. Qed.

Lemma validate_indian_phone_returns x : exists b, validate_indian_phone x = Ok b.
Proof.
  unfold validate_indian_phone.
  destruct (strip_non_digits x) as [|c digits]; simpl; eauto.
  destruct (length digits =? 9)%nat; eauto.
Qed.

Lemma pure_validators_return x :
  (exists b, validate_ifsc x = Ok b) /\
  (exists b, validate_voter_id x = Ok b) /\
  (exists b, validate_driving_license x = Ok b) /\
  (exists b, validate_dob x = Ok b) /\
  (exists b, validate_medical_id x = Ok b).
Proof.
  unfold validate_ifsc, validate_voter_id, validate_driving_license,
    validate_dob, validate_medical_id.
  destruct (strptime_dmY x); eauto 10.
Qed.

(** ** The IP validator *)

Lemma forallb_decimal_digit p :
  forallb isdecimal p = true -> forallb isdigit p = true.
Proof.
  rewrite !forallb_forall. intros H c Hc. apply isdecimal_isdigit. auto.
Qed.

Lemma all_octets_true parts :
  forallb is_octet parts = true -> all_octets parts = Ok true.
Proof.
  induction parts as [|p ps IH]; simpl; [reflexivity|].
  intros H. apply andb_true_iff in H as [Hp Hps].
  unfold is_octet in Hp. rewrite !andb_true_iff in Hp.
  destruct Hp as [[Hne Hdec] Hle].
  unfold str_isdigit. rewrite forallb_decimal_digit by assumption.
  assert (Hp : p <> []) by (intros ->; discriminate).
  destruct p as [|c p]; [congruence|]. cbn [length Nat.eqb negb andb].
  rewrite py_int_decimals by assumption. cbn [bind].
  pose proof (decimal_number_nonneg (c :: p)).
  replace (0 <=? decimal_number (c :: p))%Z with true by (symmetry; lia).
  rewrite Hle. simpl. auto.
Qed.

(** One direction of the specification holds: four octets in range are
    accepted. *)
Lemma validate_ip_accepts ip :
  is_dotted_quad ip = true -> validate_ip ip = Ok true.
Proof.
  unfold is_dotted_quad, validate_ip. intros H.
  apply andb_true_iff in H as [Hlen Hparts].
  rewrite Hlen. apply all_octets_true. assumption.
Qed.

(** A first part that is a digit for [str.isdigit] but not a decimal digit
    reaches [int] and makes the validator raise. *)
Lemma validate_ip_raises_on_digit c :
  isdigit c = true -> isdecimal c = false ->
  validate_ip (c :: txt ".0.0.0") = Raise ValueError.
Proof.
  intros Hd Hn. unfold validate_ip.
  change (txt ".0.0.0") with [46; 48; 46; 48; 46; 48].
  assert (Hs : split_on 46 (c :: [46; 48; 46; 48; 46; 48])
               = [[c]; [48]; [48]; [48]]).
  { cbn [split_on]. rewrite (isdigit_neq c 46) by (auto; lia). reflexivity. }
  rewrite Hs. cbn [length Nat.eqb all_octets str_isdigit forallb negb andb].
  rewrite Hd, py_int_char, Hn. reflexivity.
Qed.

(** C8. The IP validator returns true on ["a.b.c.d"], a string of four
    dot-separated parts none of which is a number: the parts that are not
    all digits are skipped by the filter of the generator instead of being
    rejected, so the validator does not decide "four octets between 0 and
    255". *)
Theorem validate_ip_accepts_non_numeric :
  validate_ip (txt "a.b.c.d") = Ok true /\
  is_dotted_quad (txt "a.b.c.d") = false.
Proof.
  assert (Hd : forall c, In c [97; 98; 99; 100] -> isdigit c = false).
  { intros c Hc. apply isdigit_ascii_false.
    - simpl in Hc. intuition lia.
    - simpl in Hc. intuition (subst; reflexivity). }
  split.
  - unfold validate_ip.
    change (split_on 46 (txt "a.b.c.d")) with [[97]; [98]; [99]; [100]].
    cbn [length Nat.eqb all_octets str_isdigit forallb negb andb].
    rewrite !Hd by (simpl; tauto). reflexivity.
  - unfold is_dotted_quad.
    change (split_on 46 (txt "a.b.c.d")) with [[97]; [98]; [99]; [100]].
    unfold is_octet. cbn [length Nat.eqb forallb negb andb].
    rewrite (isdecimal_ascii_false 97) by (lia || reflexivity). reflexivity.
Qed.

End ValidatorFacts.

(** ** What a match of a pattern looks like *)

Section RegexFacts.
Context {U : Unicode}.

Lemma orelse_Some {A} (a b : option A) x :
  orelse a b = Some x -> a = Some x \/ b = Some x.
Proof. destruct a; simpl; auto. Qed.

Lemma m_star_sound p g :
  sound (m_star p g) (fun w => forallb p w = true).
Proof.
  intros prev s. revert prev.
  induction s as [|c s IH]; intros prev k res H; simpl in H.
  - exists [], [], prev. auto.
  - destruct (p c) eqn:Hc.
    + assert (Hor : m_star p g (Some c) s k = Some res \/ k prev (c :: s) = Some res).
      { destruct g; apply orelse_Some in H; tauto. }
      destruct Hor as [Hm|Hk].
      * apply IH in Hm as (w & s' & p' & -> & Hw & Hk).
        exists (c :: w), s', p'. simpl. rewrite Hc. auto.
      * exists [], (c :: s), prev. auto.
    + exists [], (c :: s), prev. auto.
Qed.

Lemma m_upto_sound m P n : sound m P -> sound (m_upto m n) (upto P n).
Proof.
  intros Hm. induction n as [|n IH]; intros prev s k res H; simpl in H.
  - exists [], s, prev. simpl. auto.
  - apply orelse_Some in H as [H|H].
    + apply Hm in H as (u & s1 & p1 & -> & Hu & H).
      apply IH in H as (v & s2 & p2 & -> & Hv & H).
      exists (u ++ v), s2, p2. rewrite <- app_assoc.
      split; [reflexivity|]. split; [|assumption].
      right. exists u, v. auto.
    + exists [], s, prev. simpl. auto.
Qed.

Lemma m_times_sound m P tl Q n :
  sound m P -> sound tl Q ->
  sound (m_times m n tl) (fun w => exists u v, w = u ++ v /\ pow P n u /\ Q v).
Proof.
  intros Hm Htl. induction n as [|n IH]; intros prev s k res H; simpl in H.
  - apply Htl in H as (v & s' & p' & -> & Hv & H).
    exists v, s', p'. split; [reflexivity|]. split; [|assumption].
    exists [], v. simpl. auto.
  - apply Hm in H as (u & s1 & p1 & -> & Hu & H).
    apply IH in H as (w & s2 & p2 & -> & (u' & v & -> & Hu' & Hv) & H).
    exists (u ++ u' ++ v), s2, p2.
    split; [rewrite <- !app_assoc; reflexivity|]. split; [|assumption].
    exists (u ++ u'), v. split; [rewrite <- !app_assoc; reflexivity|].
    split; [|assumption]. exists u, u'. auto.
Qed.

Lemma rmatch_sound r : sound (rmatch r) (lang r).
Proof.
  induction r as [| cs | | | | a IHa b IHb | a IHa b IHb | cs g | a IHa lo extra];
    intros prev s k res H; cbn [rmatch] in H.
  - exists [], s, prev. simpl. auto.
  - destruct s as [|c s]; [discriminate|].
    destruct (in_cset cs c) eqn:Hc; [|discriminate].
    exists [c], s, (Some c). simpl. eauto.
  - destruct (xorb _ _); [|discriminate]. exists [], s, prev. simpl. auto.
  - destruct prev; [discriminate|]. exists [], s, None. simpl. auto.
  - exists [], s, prev. simpl.
    destruct s as [|c [|d s]]; [auto| |discriminate].
    destruct (c =? 10); [auto|discriminate].
  - apply IHa in H as (u & s1 & p1 & -> & Hu & H).
    apply IHb in H as (v & s2 & p2 & -> & Hv & H).
    exists (u ++ v), s2, p2. rewrite <- app_assoc. simpl. eauto 10.
  - apply orelse_Some in H as [H|H].
    + apply IHa in H as (w & s' & p' & -> & Hw & H).
      exists w, s', p'. simpl. auto.
    + apply IHb in H as (w & s' & p' & -> & Hw & H).
      exists w, s', p'. simpl. auto.
  - apply m_star_sound in H. exact H.
  - apply (m_times_sound _ (lang a) _ (upto (lang a) extra)) in H.
    + exact H.
    + exact IHa.
    + apply m_upto_sound. exact IHa.
Qed.

(** A successful match at a position consumes a word of the pattern. *)
Lemma rmatch_end r prev s rest :
  rmatch r prev s k_end = Some rest ->
  exists w, s = w ++ rest /\ lang r w.
Proof.
  intros H. apply rmatch_sound in H as (w & s' & p' & -> & Hw & H).
  unfold k_end in H. injection H as ->. eauto.
Qed.

(** What [finditer] reports: the matched word is a word of the pattern, it
    sits in the text at [m_start], and [m_end] is where it ends. *)
Lemma scan_spec r prev pos s skip m :
  In m (scan r prev pos s skip) ->
  exists pre post,
    s = pre ++ group0 m ++ post /\ m_start m = (pos + length pre)%nat /\
    m_end m = (m_start m + length (group0 m))%nat /\ lang r (group0 m).
Proof.
  revert prev pos skip.
  assert (Hshift : forall c s' pos m',
    (exists pre post, s' = pre ++ group0 m' ++ post /\
       m_start m' = (S pos + length pre)%nat /\
       m_end m' = (m_start m' + length (group0 m'))%nat /\ lang r (group0 m')) ->
    exists pre post, c :: s' = pre ++ group0 m' ++ post /\
       m_start m' = (pos + length pre)%nat /\
       m_end m' = (m_start m' + length (group0 m'))%nat /\ lang r (group0 m')).
  { intros c s' pos m' (pre & post & -> & Hs & He & Hl).
    exists (c :: pre), post. simpl. repeat split; auto. lia. }
  induction s as [|c s IH]; intros prev pos skip Hin.
  - destruct skip; cbn [scan] in Hin; [|contradiction].
    destruct (rmatch r prev [] k_end) as [rest|] eqn:Hm; [|contradiction].
    destruct Hin as [<-|[]]. simpl.
    apply rmatch_end in Hm as (w & Hw & Hl).
    symmetry in Hw. apply app_eq_nil in Hw as [-> ->].
    exists [], []. simpl. repeat split; auto; lia.
  - destruct skip as [|j]; cbn [scan] in Hin.
    + destruct (rmatch r prev (c :: s) k_end) as [rest|] eqn:Hm.
      * destruct Hin as [<-|Hin]; [|apply Hshift, (IH _ _ _ Hin)].
        apply rmatch_end in Hm as (w & Hw & Hl).
        assert (Hn : (length (c :: s) - length rest)%nat = length w).
        { rewrite Hw, length_app. lia. }
        cbn [m_start m_end group0]. rewrite Hn.
        assert (Ht : take (length w) (c :: s) = w).
        { rewrite Hw. apply take_app_length. }
        rewrite Ht. exists [], rest. simpl. repeat split; auto; lia.
      * apply Hshift, (IH _ _ _ Hin).
    + apply Hshift, (IH _ _ _ Hin).
Qed.

Lemma finditer_spec r s m :
  In m (finditer r s) ->
  exists pre post,
    s = pre ++ group0 m ++ post /\ m_start m = length pre /\
    m_end m = (length pre + length (group0 m))%nat /\ lang r (group0 m).
Proof.
  intros H. apply scan_spec in H as (pre & post & Hs & Hst & He & Hl).
  exists pre, post. simpl in Hst. rewrite Hst in He. auto.
Qed.

Lemma in_cset_app cs1 cs2 c :
  in_cset (cs1 ++ cs2) c = in_cset cs1 c || in_cset cs2 c.
Proof. unfold in_cset. apply existsb_app. Qed.

Lemma forallb_weaken {A} (p q : A -> bool) l :
  (forall x, p x = true -> q x = true) ->
  forallb p l = true -> forallb q l = true.
Proof. rewrite !forallb_forall. auto. Qed.

Lemma pow_alphabet P cs n w :
  (forall u, P u -> forallb (in_cset cs) u = true) ->
  pow P n w -> forallb (in_cset cs) w = true.
Proof.
  intros HP. revert w. induction n as [|n IH]; simpl; intros w H.
  - subst. reflexivity.
  - destruct H as (u & v & -> & Hu & Hv).
    rewrite forallb_app, (HP u Hu), (IH v Hv). reflexivity.
Qed.

Lemma upto_alphabet P cs n w :
  (forall u, P u -> forallb (in_cset cs) u = true) ->
  upto P n w -> forallb (in_cset cs) w = true.
Proof.
  intros HP. revert w. induction n as [|n IH]; simpl; intros w H.
  - subst. reflexivity.
  - destruct H as [->|(u & v & -> & Hu & Hv)]; [reflexivity|].
    rewrite forallb_app, (HP u Hu), (IH v Hv). reflexivity.
Qed.

(** every character of a word of a pattern is in the pattern's alphabet *)
Lemma lang_alphabet r w :
  lang r w -> forallb (in_cset (alphabet r)) w = true.
Proof.
  revert w.
  induction r as [| cs | | | | a IHa b IHb | a IHa b IHb | cs g | a IHa lo extra];
    simpl; intros w H; subst; try reflexivity.
  - destruct H as (c & -> & Hc). simpl. rewrite Hc. reflexivity.
  - destruct H as (u & v & -> & Hu & Hv). rewrite forallb_app.
    apply andb_true_iff. split.
    + apply (forallb_weaken (in_cset (alphabet a))); auto.
      intros x Hx. rewrite in_cset_app, Hx. reflexivity.
    + apply (forallb_weaken (in_cset (alphabet b))); auto.
      intros x Hx. rewrite in_cset_app, Hx. apply orb_true_r.
  - destruct H as [H|H].
    + apply (forallb_weaken (in_cset (alphabet a))); auto.
      intros x Hx. rewrite in_cset_app, Hx. reflexivity.
    + apply (forallb_weaken (in_cset (alphabet b))); auto.
      intros x Hx. rewrite in_cset_app, Hx. apply orb_true_r.
  - assumption.
  - destruct H as (u & v & -> & Hu & Hv). rewrite forallb_app.
    rewrite (pow_alphabet _ _ _ _ IHa Hu), (upto_alphabet _ _ _ _ IHa Hv).
    reflexivity.
Qed.

End RegexFacts.

(** ** The scorer and the masks return on every match *)

Section MatchFacts.
Context {U : Unicode} {L : Library}.

(** On a character of such a class [str.isdigit] and [\d] agree. *)
Lemma ascii_item_digit i c :
  ascii_item i = true -> in_citem i c = true -> isdigit c = isdecimal c.
Proof.
  destruct i as [a|lo hi| |]; simpl; intros Hi Hc.
  - apply N.ltb_lt in Hi. apply N.eqb_eq in Hc. subst.
    rewrite isdigit_ascii, isdecimal_ascii by assumption. reflexivity.
  - apply N.ltb_lt in Hi. unfold in_range in Hc.
    apply andb_true_iff in Hc as [_ Hc]. apply N.leb_le in Hc.
    rewrite isdigit_ascii, isdecimal_ascii by lia. reflexivity.
  - rewrite Hc. apply isdecimal_isdigit. assumption.
  - destruct (isdigit c) eqn:Hd.
    + apply isdigit_not_space in Hd. congruence.
    + destruct (isdecimal c) eqn:Hd'; [|reflexivity].
      apply isdecimal_isdigit in Hd'. congruence.
Qed.

Lemma ascii_cset_digit cs c :
  forallb ascii_item cs = true -> in_cset cs c = true ->
  isdigit c = isdecimal c.
Proof.
  unfold in_cset. rewrite forallb_forall, existsb_exists.
  intros Hcs (i & Hi & Hc). eapply ascii_item_digit; eauto.
Qed.

Lemma patterns_ascii t : forallb ascii_item (alphabet (pattern_of t)) = true.
Proof. destruct t; vm_compute; reflexivity. Qed.

(** In a match of any pattern of the registry, the characters that
    [str.isdigit] accepts are the decimal digits. *)
Lemma matched_digits t raw :
  lang (pattern_of t) raw ->
  forallb (fun c => Bool.eqb (isdigit c) (isdecimal c)) raw = true.
Proof.
  intros H. apply lang_alphabet in H.
  eapply forallb_weaken; [|exact H].
  intros c Hc. cbv beta.
  rewrite (ascii_cset_digit _ c (patterns_ascii t) Hc).
  apply eqb_reflx.
Qed.

Lemma split_on_parts (p : char -> bool) sep w :
  forallb (fun c => p c || (c =? sep)) w = true ->
  forallb (forallb p) (split_on sep w) = true.
Proof.
  induction w as [|c w IH]; simpl; intros H; [reflexivity|].
  apply andb_true_iff in H as [Hc Hw]. specialize (IH Hw).
  destruct (c =? sep); simpl; [assumption|].
  rewrite orb_false_r in Hc.
  destruct (split_on sep w) as [|q qs]; simpl in *.
  - rewrite Hc. reflexivity.
  - rewrite Hc. assumption.
Qed.

Lemma split_on_nonempty sep w : split_on sep w <> [].
Proof.
  destruct w as [|c w]; simpl; [discriminate|].
  destruct (c =? sep); [discriminate|].
  destruct (split_on sep w); discriminate.
Qed.

Lemma all_octets_returns parts :
  forallb (forallb isdecimal) parts = true -> exists b, all_octets parts = Ok b.
Proof.
  induction parts as [|p ps IH]; simpl; intros H; [eauto|].
  apply andb_true_iff in H as [Hp Hps].
  destruct (str_isdigit p) eqn:Hd; [|auto].
  assert (Hne : p <> []) by (intros ->; discriminate).
  rewrite py_int_decimals by assumption. cbn [bind].
  destruct (_ && _); eauto.
Qed.

Lemma validate_ip_returns raw :
  lang (pattern_of ip_address) raw -> exists b, validate_ip raw = Ok b.
Proof.
  intros H. apply lang_alphabet in H.
  unfold validate_ip. destruct (_ =? 4)%nat; [|eauto].
  apply all_octets_returns, split_on_parts.
  eapply forallb_weaken; [|exact H].
  intros c. vm_compute alphabet. unfold in_cset. cbn [existsb in_citem].
  intros Hc. repeat (apply orb_true_iff in Hc as [Hc|Hc]);
    rewrite ?Hc, ?orb_true_r; try reflexivity; discriminate.
Qed.

(** The scorer returns a score for every match of the registry. *)
Lemma calculate_confidence_returns t raw ctx :
  lang (pattern_of t) raw -> exists q, _calculate_confidence t raw ctx = Ok q.
Proof.
  intros H. destruct t; cbn [_calculate_confidence].
  - destruct (_ =? 12)%nat; [|eauto].
    destruct (verhoeff_validate_returns (strip_non_digits raw)) as [b ->].
    simpl. eauto.
  - eauto.
  - destruct (luhn_check_returns raw) as [b ->]. simpl. eauto.
  - eauto.
  - destruct (validate_indian_phone_returns raw) as [b ->]. simpl. eauto.
  - simpl. eauto.
  - destruct (_ && _); [|eauto]. destruct (existsb _ _); eauto.
  - simpl. eauto.
  - simpl. eauto.
  - destruct (validate_ip_returns raw H) as [b ->]. simpl. eauto.
  - unfold validate_dob. destruct (strptime_dmY raw); simpl; eauto.
  - simpl. eauto.
Qed.

(** *** The digit-filling loop *)

Lemma index_nat {A} (l : list A) (i : nat) a :
  l !! i = Some a -> index l (Z.of_nat i) = Ok a.
Proof.
  intros H. unfold index.
  destruct (Z.ltb_spec (Z.of_nat i) 0); [lia|].
  destruct (Z.ltb_spec (Z.of_nat i) 0); [lia|].
  rewrite Nat2Z.id, H. reflexivity.
Qed.

(** If [masked] has a character for every digit of [s] from [digit_idx] on,
    the loop returns a string that keeps the characters of [s] that are not
    digits and has a character of [masked] where [s] has a digit. *)
Lemma fill_digits_spec masked digit_idx s :
  (digit_idx + count_digits s <= length masked)%nat ->
  exists out, fill_digits masked digit_idx s = Ok out /\
    Forall2 (fun c m => if isdigit c then In m masked else m = c) s out.
Proof.
  revert digit_idx. unfold count_digits.
  induction s as [|c s IH]; intros i Hlen; simpl.
  - eauto.
  - simpl in Hlen. destruct (isdigit c) eqn:Hc.
    + simpl in Hlen.
      destruct (lookup_lt_is_Some_2 masked i) as [m Hm]; [lia|].
      rewrite (index_nat _ _ _ Hm). cbn [bind].
      destruct (IH (S i)) as (out & -> & Hout); [lia|]. cbn [bind].
      eexists. split; [reflexivity|]. constructor; [|assumption].
      rewrite Hc. apply list_elem_of_In. eapply list_elem_of_lookup_2; eauto.
    + destruct (IH i) as (out & -> & Hout); [lia|]. cbn [bind].
      eexists. split; [reflexivity|]. constructor; [|assumption].
      rewrite Hc. reflexivity.
Qed.

Lemma count_digits_decimals s :
  forallb (fun c => Bool.eqb (isdigit c) (isdecimal c)) s = true ->
  count_digits s = length (strip_non_digits s).
Proof.
  unfold count_digits, strip_non_digits.
  induction s as [|c s IH]; simpl; intros H; [reflexivity|].
  apply andb_true_iff in H as [Hc Hs]. apply eqb_prop in Hc. rewrite Hc.
  destruct (isdecimal c); simpl; rewrite IH; auto.
Qed.

Lemma masked_digits_length (digits : text) :
  (4 <= length digits)%nat ->
  length (replicate (length digits - 4) X ++ last_n 4 digits) = length digits.
Proof.
  intros H. unfold last_n.
  rewrite length_app, length_replicate, length_drop. lia.
Qed.

(** every mask of the registry returns on a match of its pattern *)
Lemma deidentify_returns t raw :
  lang (pattern_of t) raw -> exists masked, ENHANCED_DEIDENTIFY t raw = Ok masked.
Proof.
  intros H. pose proof (matched_digits t raw H) as Hd.
  destruct t; cbn [ENHANCED_DEIDENTIFY]; eauto.
  - unfold mask_credit_card_enhanced.
    destruct (Nat.ltb_spec (length (strip_non_digits raw)) 13); [eauto|].
    destruct (fill_digits_spec
      (replicate (length (strip_non_digits raw) - 4) X
       ++ last_n 4 (strip_non_digits raw)) 0 raw) as (out & -> & _); [|eauto].
    rewrite masked_digits_length, count_digits_decimals by (auto; lia). lia.
  - unfold mask_phone_enhanced.
    destruct (Nat.ltb_spec (length (strip_non_digits raw)) 10); [eauto|].
    destruct (fill_digits_spec
      (replicate (length (strip_non_digits raw) - 4) X
       ++ last_n 4 (strip_non_digits raw)) 0 raw) as (out & -> & _); [|eauto].
    rewrite masked_digits_length, count_digits_decimals by (auto; lia). lia.
  - unfold mask_driving_license.
    destruct (split_on 47 raw) as [|p0 [|p1 [|p2 [|p3 ps]]]]; simpl; eauto.
  - unfold mask_dob. pose proof (split_on_nonempty 47 raw) as Hne.
    destruct (split_on 47 raw) as [|p ps] eqn:Hs; [congruence|].
    destruct (lookup_lt_is_Some_2 (p :: ps) (length ps)) as [y Hy];
      [simpl; lia|].
    unfold index.
    replace (-1 <? 0)%Z with true by reflexivity.
    replace (Z.of_nat (length (p :: ps)) + -1)%Z with (Z.of_nat (length ps))
      by (simpl length; lia).
    destruct (Z.ltb_spec (Z.of_nat (length ps)) 0); [lia|].
    rewrite Nat2Z.id, Hy. simpl. eauto.
Qed.

End MatchFacts.

(** ** The redaction engine in closed form *)

Section EngineFacts.
Context {U : Unicode} {L : Library}.

Lemma candidates_of_spec s ctx t x :
  In x (candidates_of s ctx t) ->
  exists m, x = (t, m, conf_of t (group0 m) ctx) /\ In m (finditer (pattern_of t) s).
Proof.
  unfold candidates_of. rewrite in_map_iff.
  intros (m & <- & Hm). eauto.
Qed.

Lemma all_candidates_spec s ctx x :
  In x (all_candidates s ctx) ->
  exists t m, x = (t, m, conf_of t (group0 m) ctx) /\
              In m (finditer (pattern_of t) s).
Proof.
  unfold all_candidates. rewrite in_flat_map.
  intros (t & _ & Hx). apply candidates_of_spec in Hx as (m & -> & Hm). eauto.
Qed.

Lemma all_candidates_well_formed s ctx x :
  In x (all_candidates s ctx) -> well_formed x.
Proof.
  intros H. apply all_candidates_spec in H as (t & m & -> & Hm).
  apply finditer_spec in Hm as (pre & post & _ & _ & _ & Hl). exact Hl.
Qed.

Lemma score_matches_eq threshold t ctx ms :
  (forall m, In m ms -> lang (pattern_of t) (group0 m)) ->
  score_matches threshold t ctx ms =
  Ok (List.filter (accepted threshold)
        (List.map (fun m => (t, m, conf_of t (group0 m) ctx)) ms)).
Proof.
  induction ms as [|m ms IH]; intros H; simpl; [reflexivity|].
  destruct (calculate_confidence_returns t (group0 m) ctx) as [q Hq];
    [apply H; left; reflexivity|].
  unfold conf_of at 1 2. rewrite Hq. cbn [bind].
  rewrite IH by (intros; apply H; right; assumption). cbn [bind].
  unfold accepted at 1. cbn [snd]. reflexivity.
Qed.

Lemma find_in_patterns_eq threshold ts s ctx :
  find_in_patterns threshold (List.map (fun t => (t, pattern_of t)) ts) s ctx =
  Ok (List.filter (accepted threshold) (flat_map (candidates_of s ctx) ts)).
Proof.
  induction ts as [|t ts IH]; simpl; [reflexivity|].
  rewrite score_matches_eq.
  - cbn [bind]. rewrite IH. cbn [bind]. rewrite List.filter_app. reflexivity.
  - intros m Hm. apply finditer_spec in Hm as (? & ? & _ & _ & _ & Hl). exact Hl.
Qed.

(** The detector returns on every input: the candidates that meet the
    threshold, in the order of the registry. *)
Lemma find_all_enhanced_eq threshold s ctx :
  find_all_enhanced threshold s ctx =
  Ok (List.filter (accepted threshold) (all_candidates s ctx)).
Proof. apply find_in_patterns_eq. Qed.

Lemma redact_loop_eq ctx ms self new_text dets :
  (forall x, In x ms -> well_formed x) ->
  redact_loop ctx ms (self, new_text, dets) =
  Ok (fold_left count_one ms self, fold_left apply_mask ms new_text,
      dets ++ List.map (detection_of ctx) ms).
Proof.
  revert self new_text dets.
  induction ms as [|[[t m] conf] ms IH]; intros self new_text dets H.
  - simpl. rewrite app_nil_r. reflexivity.
  - cbn [redact_loop].
    destruct (deidentify_returns t (group0 m)) as [masked Hmask];
      [apply (H (t, m, conf)); left; reflexivity|].
    rewrite Hmask. cbn [bind].
    rewrite IH by (intros; apply H; right; assumption).
    cbn [fold_left List.map count_one apply_mask detection_of].
    unfold mask_of. rewrite Hmask. rewrite <- app_assoc. reflexivity.
Qed.

(** *** The stable sort *)

Lemma insert_desc_perm x l : Permutation (insert_desc x l) (x :: l).
Proof.
  induction l as [|y l IH]; simpl; [reflexivity|].
  destruct (cand_start x <? cand_start y)%nat; [|reflexivity].
  rewrite IH. apply perm_swap.
Qed.

Lemma sort_by_start_desc_perm l : Permutation (sort_by_start_desc l) l.
Proof.
  induction l as [|x l IH]; simpl; [reflexivity|].
  rewrite insert_desc_perm, IH. reflexivity.
Qed.

Lemma sort_by_start_desc_In l x : In x (sort_by_start_desc l) <-> In x l.
Proof.
  split; apply Permutation_in;
    [|symmetry]; apply sort_by_start_desc_perm.
Qed.

Lemma insert_desc_sorted x l :
  StronglySorted start_ge l -> StronglySorted start_ge (insert_desc x l).
Proof.
  induction 1 as [|y l Hl IH Hy]; simpl.
  - repeat constructor.
  - destruct (Nat.ltb_spec (cand_start x) (cand_start y)).
    + constructor; [assumption|].
      apply List.Forall_forall. intros z Hz.
      apply (Permutation_in _ (insert_desc_perm x l)) in Hz.
      destruct Hz as [<-|Hz]; [unfold start_ge; lia|].
      rewrite List.Forall_forall in Hy. apply Hy, Hz.
    + constructor; [constructor; assumption|].
      constructor; [unfold start_ge; lia|].
      rewrite List.Forall_forall in Hy |- *. intros z Hz.
      specialize (Hy z Hz). unfold start_ge in *. lia.
Qed.

Lemma sort_by_start_desc_sorted l :
  StronglySorted start_ge (sort_by_start_desc l).
Proof.
  induction l as [|x l IH]; simpl; [constructor|].
  apply insert_desc_sorted, IH.
Qed.

(** The engine returns on every input, and what it returns. *)
Lemma deidentify_eq self s ctx :
  let ms := applied_matches (confidence_threshold self) s ctx in
  _deidentify_text_enhanced self s ctx =
  Ok (fold_left count_one ms self,
      (fold_left apply_mask ms s, rev (List.map (detection_of ctx) ms))).
Proof.
  intros ms. unfold _deidentify_text_enhanced.
  rewrite find_all_enhanced_eq. cbn [bind]. subst ms. unfold applied_matches.
  destruct (List.filter _ _) as [|x l] eqn:Hf; [reflexivity|].
  rewrite redact_loop_eq.
  - reflexivity.
  - intros y Hy. apply (proj1 (sort_by_start_desc_In _ _)) in Hy.
    rewrite <- Hf in Hy.
    apply filter_In in Hy as [Hy _].
    eapply all_candidates_well_formed; eauto.
Qed.

End EngineFacts.

(** ** The detector and the engine *)

Section ListFacts.
Context {A B : Type}.

Lemma StronglySorted_map (R1 : A -> A -> Prop) (R2 : B -> B -> Prop)
    (f : A -> B) l :
  (forall x y, R1 x y -> R2 (f x) (f y)) ->
  StronglySorted R1 l -> StronglySorted R2 (List.map f l).
Proof.
  intros Hf. induction 1 as [|x l Hl IH Hx]; simpl; constructor; auto.
  rewrite List.Forall_forall in Hx |- *. intros y Hy.
  apply in_map_iff in Hy as (z & <- & Hz). auto.
Qed.

Lemma StronglySorted_rev (R : A -> A -> Prop) l :
  StronglySorted R l -> StronglySorted (fun a b => R b a) (rev l).
Proof.
  induction 1 as [|x l Hl IH Hx]; simpl; [constructor|].
  apply StronglySorted_app_2; [|assumption|repeat constructor].
  intros a b Ha Hb. apply list_elem_of_In in Ha, Hb.
  destruct Hb as [<-|[]]. apply in_rev in Ha.
  rewrite List.Forall_forall in Hx. auto.
Qed.

Lemma filter_length_le (p q : A -> bool) l :
  (forall x, p x = true -> q x = true) ->
  (length (List.filter p l) <= length (List.filter q l))%nat.
Proof.
  intros H. induction l as [|x l IH]; simpl; [lia|].
  destruct (p x) eqn:Hp.
  - rewrite (H x Hp). simpl. lia.
  - destruct (q x); simpl; lia.
Qed.

End ListFacts.

Lemma fold_left_map {A B C} (f : A -> B -> A) (g : C -> B) l a :
  fold_left f (List.map g l) a = fold_left (fun a x => f a (g x)) l a.
Proof. revert a. induction l; simpl; auto. Qed.

Lemma slice_middle {A} (pre w post : list A) :
  slice (length pre) (length pre + length w) (pre ++ w ++ post) = w.
Proof.
  unfold slice. rewrite drop_app_length.
  replace (length pre + length w - length pre)%nat with (length w) by lia.
  apply take_app_length.
Qed.

Section EngineProperties.
Context {U : Unicode} {L : Library}.

(** C4. For every text and context and every pair of thresholds
    [t1 <= t2], the detector returns at both thresholds and the number of
    matches it returns at [t2] is at most the number it returns at [t1]. *)
Theorem threshold_monotone (t1 t2 : Q) (s ctx : text) :
  (t1 <= t2)%Q ->
  exists l1 l2,
    find_all_enhanced t1 s ctx = Ok l1 /\
    find_all_enhanced t2 s ctx = Ok l2 /\
    (length l2 <= length l1)%nat.
Proof.
  intros Hle. do 2 eexists.
  split; [apply find_all_enhanced_eq|].
  split; [apply find_all_enhanced_eq|].
  apply filter_length_le. intros x. unfold accepted.
  rewrite !Qle_bool_iff. intros H. eapply Qle_trans; eauto.
Qed.

(** the same for the detections the engine logs *)
Lemma detections_monotone (p1 p2 : Processor) (s ctx : text) :
  (confidence_threshold p1 <= confidence_threshold p2)%Q ->
  (length (detections_of (_deidentify_text_enhanced p2 s ctx))
   <= length (detections_of (_deidentify_text_enhanced p1 s ctx)))%nat.
Proof.
  intros Hle. rewrite !deidentify_eq. cbn [detections_of].
  rewrite !length_rev, !length_map. unfold applied_matches.
  rewrite !(Permutation_length (sort_by_start_desc_perm _)).
  apply filter_length_le. intros x. unfold accepted.
  rewrite !Qle_bool_iff. intros H. eapply Qle_trans; eauto.
Qed.

Lemma apply_mask_detection ctx ms w :
  fold_left apply_mask ms w =
  fold_left apply_detection (List.map (detection_of ctx) ms) w.
Proof.
  rewrite fold_left_map. revert w.
  induction ms as [|[[t m] q] ms IH]; intros w; simpl; [reflexivity|].
  apply IH.
Qed.

Lemma applied_matches_In thr s ctx x :
  In x (applied_matches thr s ctx) ->
  In x (all_candidates s ctx) /\ accepted thr x = true.
Proof.
  unfold applied_matches. rewrite sort_by_start_desc_In, filter_In. tauto.
Qed.

Lemma In_applied_matches thr s ctx x :
  In x (all_candidates s ctx) -> accepted thr x = true ->
  In x (applied_matches thr s ctx).
Proof.
  unfold applied_matches. rewrite sort_by_start_desc_In, filter_In. tauto.
Qed.

(** where a match sits in the text it was found in *)
Lemma finditer_span r s m :
  In m (finditer r s) ->
  (m_start m <= m_end m <= length s)%nat /\
  group0 m = slice (m_start m) (m_end m) s.
Proof.
  intros H. apply finditer_spec in H as (pre & post & -> & -> & -> & _).
  rewrite slice_middle, !length_app. split; [lia|reflexivity].
Qed.

(** C1, as the code has it. For every text, context and threshold the
    engine returns; it applies the replacements to a working copy of the
    text in the order of non-increasing start offset (matches of different
    types that start at the same offset are applied one after the other);
    every detection records the offsets of its match in the original text;
    and the detections are returned in the order of non-decreasing start
    offset. *)
Theorem redaction_order (self : Processor) (s ctx : text) :
  exists self' new_text dets,
    _deidentify_text_enhanced self s ctx = Ok (self', (new_text, dets)) /\
    StronglySorted (fun a b => (start b <= start a)%nat) (rev dets) /\
    new_text = fold_left apply_detection (rev dets) s /\
    Forall (fun d =>
              (exists m, In m (finditer (pattern_of (pii_type d)) s) /\
                         start d = m_start m /\ end_ d = m_end m) /\
              (start d <= end_ d <= length s)%nat /\
              raw_value d = slice (start d) (end_ d) s) dets /\
    StronglySorted (fun a b => (start a <= start b)%nat) dets.
Proof.
  do 3 eexists. split; [apply deidentify_eq|].
  set (ms := applied_matches (confidence_threshold self) s ctx).
  assert (Hsorted : StronglySorted (fun a b => (start b <= start a)%nat)
                      (List.map (detection_of ctx) ms)).
  { apply (StronglySorted_map start_ge); [|apply sort_by_start_desc_sorted].
    intros [[? ?] ?] [[? ?] ?]. unfold start_ge, cand_start. simpl. auto. }
  rewrite rev_involutive. split; [exact Hsorted|].
  split; [apply apply_mask_detection|]. split.
  - apply List.Forall_forall. intros d Hd.
    apply in_rev, in_map_iff in Hd as (x & <- & Hx).
    apply applied_matches_In in Hx as [Hx _].
    apply all_candidates_spec in Hx as (t & m & -> & Hm).
    split; [exists m; simpl; auto|].
    apply finditer_span in Hm. exact Hm.
  - apply StronglySorted_rev in Hsorted. exact Hsorted.
Qed.

(** the registry has a pattern for every type *)
Lemma pii_types_complete t : In t pii_types.
Proof. destruct t; simpl; tauto. Qed.

Lemma In_all_candidates s ctx t m :
  In m (finditer (pattern_of t) s) ->
  In (t, m, conf_of t (group0 m) ctx) (all_candidates s ctx).
Proof.
  intros Hm. unfold all_candidates. apply in_flat_map.
  exists t. split; [apply pii_types_complete|].
  unfold candidates_of. apply in_map_iff. eauto.
Qed.

(** C10. For the tax-ID ([pan]) and e-mail types the scorer returns
    exactly 1 for every matched text and context; so for a threshold of at
    most 1 every match of these two patterns is returned by the detector,
    logged as a detection with its offsets and its masked value, and the
    replacement of every logged detection is applied to the text. *)
Theorem pan_email_always_detected (self : Processor) (s ctx : text)
    (t : PiiType) (m : Match) :
  t = pan \/ t = email ->
  (confidence_threshold self <= 1)%Q ->
  In m (finditer (pattern_of t) s) ->
  (forall raw ctx', _calculate_confidence t raw ctx' = Ok 1%Q) /\
  exists found self' new_text dets,
    find_all_enhanced (confidence_threshold self) s ctx = Ok found /\
    In (t, m, 1%Q) found /\
    _deidentify_text_enhanced self s ctx = Ok (self', (new_text, dets)) /\
    In {| row_index := -1; column_name := []; pii_type := t;
          raw_value := group0 m;
          masked_value := match t with
                          | pan => anonymize_pan (group0 m)
                          | _ => pseudo_email (group0 m)
                          end;
          start := m_start m; end_ := m_end m; confidence := 1%Q;
          context := take 100 ctx |} dets /\
    new_text = fold_left apply_detection (rev dets) s.
Proof.
  intros Ht Hthr Hm.
  assert (Hconf : forall raw ctx', _calculate_confidence t raw ctx' = Ok 1%Q)
    by (destruct Ht as [-> | ->]; reflexivity).
  split; [exact Hconf|].
  pose proof (In_all_candidates s ctx t m Hm) as Hin.
  unfold conf_of in Hin. rewrite Hconf in Hin.
  assert (Hacc : accepted (confidence_threshold self) (t, m, 1%Q) = true)
    by (apply Qle_bool_iff; exact Hthr).
  do 4 eexists. split; [apply find_all_enhanced_eq|].
  split; [apply filter_In; split; assumption|].
  split; [apply deidentify_eq|]. split.
  - rewrite <- in_rev. apply in_map_iff. exists (t, m, 1%Q).
    split; [|apply In_applied_matches; assumption].
    destruct Ht as [-> | ->]; reflexivity.
  - rewrite rev_involutive. apply apply_mask_detection.
Qed.

End EngineProperties.

(** ** Counters *)

Lemma count_type_app t l1 l2 :
  count_type t (l1 ++ l2) = (count_type t l1 + count_type t l2)%nat.
Proof. unfold count_type. rewrite List.filter_app, length_app. reflexivity. Qed.

Lemma count_type_rev t l : count_type t (rev l) = count_type t l.
Proof.
  induction l as [|d l IH]; simpl; [reflexivity|].
  rewrite count_type_app, IH. unfold count_type. simpl.
  destruct (bool_decide _); simpl; lia.
Qed.

Lemma count_type_at_cell t r c l :
  count_type t (List.map (at_cell r c) l) = count_type t l.
Proof.
  unfold count_type. induction l as [|d l IH]; simpl; [reflexivity|].
  destruct (bool_decide (pii_type d = t)); simpl; rewrite IH; reflexivity.
Qed.

Lemma counter_record_detection self t q t' :
  counter (record_detection self t q) t' =
  (counter self t' + if bool_decide (t = t') then 1 else 0)%nat.
Proof.
  unfold counter, record_detection. cbn [det_counts].
  destruct (bool_decide_reflect (t = t')) as [->|Hne].
  - rewrite lookup_insert_eq. simpl. lia.
  - rewrite lookup_insert_ne by assumption. lia.
Qed.

Lemma threshold_record_detection self t q :
  confidence_threshold (record_detection self t q) = confidence_threshold self.
Proof. reflexivity. Qed.

Section CounterFacts.
Context {U : Unicode} {L : Library}.

Lemma counter_fold ctx ms self t :
  counter (fold_left count_one ms self) t =
  (counter self t + count_type t (List.map (detection_of ctx) ms))%nat.
Proof.
  revert self. induction ms as [|[[t' m] q] ms IH]; intros self; simpl.
  - unfold count_type. simpl. lia.
  - rewrite IH, counter_record_detection. unfold count_type. simpl.
    destruct (bool_decide (t' = t)); simpl; lia.
Qed.

Lemma threshold_fold ms self :
  confidence_threshold (fold_left count_one ms self) = confidence_threshold self.
Proof.
  revert self. induction ms as [|[[t' m] q] ms IH]; intros self; simpl;
    [reflexivity|]. rewrite IH. reflexivity.
Qed.

(** A call of the engine returns, keeps the threshold and adds to the
    counter of each type the number of detections of that type that it
    returns. *)
Lemma deidentify_counts self s ctx :
  exists self' new_text dets,
    _deidentify_text_enhanced self s ctx = Ok (self', (new_text, dets)) /\
    confidence_threshold self' = confidence_threshold self /\
    forall t, counter self' t = (counter self t + count_type t dets)%nat.
Proof.
  do 3 eexists. split; [apply deidentify_eq|].
  split; [apply threshold_fold|].
  intros t. rewrite count_type_rev. apply counter_fold.
Qed.

(** C2, as the code has it. For every text, context and threshold the
    engine returns and every detection it creates has a confidence of at
    least the threshold; a match whose score is below the threshold is not
    logged, the counters count the logged detections only, and the output is
    the text with the replacements of the logged detections only. (Its span
    can still be rewritten by the replacement of an accepted match that
    overlaps it.) *)
Theorem threshold_gate (self : Processor) (s ctx : text) :
  exists self' new_text dets,
    _deidentify_text_enhanced self s ctx = Ok (self', (new_text, dets)) /\
    Forall (fun d => (confidence_threshold self <= confidence d)%Q) dets /\
    (forall t m q,
        In m (finditer (pattern_of t) s) ->
        _calculate_confidence t (group0 m) ctx = Ok q ->
        (q < confidence_threshold self)%Q ->
        forall d, In d dets -> span_of d <> (t, m_start m, m_end m)) /\
    (forall t, counter self' t = (counter self t + count_type t dets)%nat) /\
    new_text = fold_left apply_detection (rev dets) s.
Proof.
  do 3 eexists. split; [apply deidentify_eq|].
  set (ms := applied_matches (confidence_threshold self) s ctx).
  assert (Hdets : forall d, In d (rev (List.map (detection_of ctx) ms)) ->
    exists t m, In m (finditer (pattern_of t) s) /\
      d = detection_of ctx (t, m, conf_of t (group0 m) ctx) /\
      (confidence_threshold self <= conf_of t (group0 m) ctx)%Q).
  { intros d Hd. apply in_rev, in_map_iff in Hd as (x & <- & Hx).
    apply applied_matches_In in Hx as [Hx Hacc].
    apply all_candidates_spec in Hx as (t & m & -> & Hm).
    exists t, m. repeat split; auto. apply Qle_bool_iff. exact Hacc. }
  split; [|split; [|split]].
  - apply List.Forall_forall. intros d Hd.
    apply Hdets in Hd as (t & m & _ & -> & Hle). exact Hle.
  - intros t m q Hm Hq Hlt d Hd Hspan.
    apply Hdets in Hd as (t' & m' & Hm' & -> & Hle).
    unfold span_of in Hspan. cbn in Hspan.
    injection Hspan as -> Hs He.
    apply finditer_span in Hm as [_ Hg], Hm' as [_ Hg'].
    rewrite Hs, He, <- Hg in Hg'. rewrite Hg' in Hle.
    unfold conf_of in Hle. rewrite Hq in Hle.
    apply Qlt_not_le in Hlt. contradiction.
  - intros t. rewrite count_type_rev. apply counter_fold.
  - rewrite rev_involutive. apply apply_mask_detection.
Qed.

End CounterFacts.

(** ** Adapters and the summary *)

Section AdapterFacts.
Context {U : Unicode} {L : Library}.

Lemma engine_step base self log s ctx r c :
  balanced base self log ->
  exists self' new_text dets,
    _deidentify_text_enhanced self s ctx = Ok (self', (new_text, dets)) /\
    balanced base self' (log ++ List.map (at_cell r c) dets).
Proof.
  intros Hb. destruct (deidentify_counts self s ctx)
    as (self' & new_text & dets & Hrun & _ & Hcount).
  exists self', new_text, dets. split; [exact Hrun|].
  intros t. rewrite Hcount, Hb, count_type_app, count_type_at_cell. lia.
Qed.

Lemma process_item_spec base r_i ictx items self log :
  balanced base self log ->
  exists self' log' new_item,
    process_item r_i ictx items (self, log) = Ok (self', log', new_item) /\
    balanced base self' log'.
Proof.
  revert self log. induction items as [|[key value] items IH];
    intros self log Hb; cbn [process_item].
  - eauto.
  - match goal with
    | |- context [_deidentify_text_enhanced self ?cell ictx] =>
        destruct (engine_step base self log cell ictx r_i key Hb)
          as (self1 & new_text & dets & -> & Hb1)
    end.
    cbn [bind].
    destruct (IH _ _ Hb1) as (self' & log' & new_item & -> & Hb').
    cbn [bind]. eauto.
Qed.

Lemma process_records_spec base r_i data self log :
  balanced base self log ->
  exists self' log' new_data,
    process_records r_i data (self, log) = Ok (self', log', new_data) /\
    balanced base self' log'.
Proof.
  revert r_i self log. induction data as [|item data IH];
    intros r_i self log Hb; cbn [process_records].
  - eauto.
  - match goal with
    | |- context [process_item r_i ?ictx (dict_items item) (self, log)] =>
        destruct (process_item_spec base r_i ictx (dict_items item) self log Hb)
          as (self1 & log1 & new_item & -> & Hb1)
    end.
    cbn [bind].
    destruct (IH (r_i + 1)%Z _ _ Hb1) as (self' & log' & new_data & -> & Hb').
    cbn [bind]. eauto.
Qed.

Lemma process_row_spec base r_i rctx cells self log :
  balanced base self log ->
  exists self' log' new_row,
    process_row r_i rctx cells (self, log) = Ok (self', log', new_row) /\
    balanced base self' log'.
Proof.
  revert self log. induction cells as [|[col value] cells IH];
    intros self log Hb; cbn [process_row].
  - eauto.
  - destruct (engine_step base self log (default [] value) rctx
                (r_i + 1)%Z col Hb)
      as (self1 & new_text & dets & -> & Hb1).
    cbn [bind].
    destruct (IH _ _ Hb1) as (self' & log' & new_row & -> & Hb').
    cbn [bind]. eauto.
Qed.

Lemma process_rows_spec base header r_i rows self log :
  balanced base self log ->
  exists self' log' new_rows,
    process_rows header r_i rows (self, log) = Ok (self', log', new_rows) /\
    balanced base self' log'.
Proof.
  revert r_i self log. induction rows as [|row rows IH];
    intros r_i self log Hb; cbn [process_rows].
  - eauto.
  - destruct (process_row_spec base r_i (join (txt " ") (omap id row))
                (zip header row) self log Hb)
      as (self1 & log1 & new_row & -> & Hb1).
    cbn [bind].
    destruct (IH (r_i + 1)%Z _ _ Hb1) as (self' & log' & new_rows & -> & Hb').
    cbn [bind]. eauto.
Qed.

Lemma balanced_start self : balanced (counter self) self [].
Proof. intros t. unfold count_type. simpl. lia. Qed.

Lemma process_txt_counts self s :
  counts_accumulate self (process_txt_enhanced self s).
Proof.
  unfold process_txt_enhanced.
  destruct (engine_step (counter self) self [] s s 1%Z (txt "text")
              (balanced_start self)) as (self' & new_text & dets & -> & Hb).
  cbn [bind]. do 2 eexists. split; [reflexivity|].
  split; [reflexivity|]. intros t. apply Hb.
Qed.

Lemma process_pdf_counts self pages :
  counts_accumulate self (process_pdf_enhanced self pages).
Proof.
  unfold process_pdf_enhanced.
  match goal with |- context [flat_map ?f pages] => set (s := flat_map f pages) end.
  destruct (engine_step (counter self) self [] s s 1%Z (txt "pdf_text")
              (balanced_start self)) as (self' & new_text & dets & -> & Hb).
  cbn [bind]. do 2 eexists. split; [reflexivity|].
  split; [reflexivity|]. intros t. apply Hb.
Qed.

Lemma process_json_counts self data :
  is_list_of_dicts data = true ->
  counts_accumulate self (process_json_enhanced self data).
Proof.
  intros Hd. unfold process_json_enhanced.
  destruct data as [| | | | |items|]; try discriminate.
  simpl in Hd. rewrite Hd.
  destruct (process_records_spec (counter self) 1 items self []
              (balanced_start self)) as (self' & log' & new_data & -> & Hb).
  cbn [bind]. do 2 eexists. split; [reflexivity|].
  split; [reflexivity|]. intros t. apply Hb.
Qed.

Lemma process_tabular_counts self header rows :
  counts_accumulate self (_process_tabular self header rows).
Proof.
  unfold _process_tabular.
  destruct (process_rows_spec (counter self) header 0 rows self []
              (balanced_start self)) as (self' & log' & new_df & -> & Hb).
  cbn [bind]. do 2 eexists. split; [reflexivity|].
  split; [reflexivity|]. intros t. apply Hb.
Qed.

(** On a processor that has not been used, the counts of the summary are
    those of the log of the run. *)
Lemma fresh_counter threshold t : counter (new_processor threshold) t = 0%nat.
Proof. reflexivity. Qed.

(** C7, as the code has it. The record-list adapter raises its ValueError
    exactly when the decoded document is not a list whose items are all
    dictionaries; on a list of dictionaries it processes the records and
    returns, whatever their values are: a nested value is not rejected but
    turned into text with [str]. *)
Theorem process_json_error (self : Processor) (data : json) :
  (process_json_enhanced self data = Raise ValueError <->
   is_list_of_dicts data = false) /\
  ((exists r, process_json_enhanced self data = Ok r) <->
   is_list_of_dicts data = true).
Proof.
  destruct (is_list_of_dicts data) eqn:Hd.
  - destruct (process_json_counts self data Hd) as (self' & out & Hr & _).
    rewrite Hr. split; split; try discriminate; eauto.
  - assert (Hr : process_json_enhanced self data = Raise ValueError).
    { unfold process_json_enhanced.
      destruct data as [| | | | |items|]; try reflexivity.
      simpl in Hd. rewrite Hd. reflexivity. }
    rewrite Hr. split; split; auto; try discriminate.
    intros [r Hr']. discriminate.
Qed.

End AdapterFacts.

(** ** Format preservation of the digit masks *)

Section MaskFacts.
Context {U : Unicode} {L : Library}.

Lemma in_cset_one i c : in_cset [i] c = in_citem i c.
Proof. unfold in_cset. simpl. apply orb_false_r. Qed.

Lemma range_ascii_not_digit lo hi c :
  in_range lo hi c = true -> hi < 128 -> (57 < lo \/ hi < 48) ->
  isdigit c = false /\ isdecimal c = false.
Proof.
  unfold in_range. rewrite andb_true_iff, !N.leb_le. intros [Hlo Hhi] H128 Hd.
  rewrite isdigit_ascii, isdecimal_ascii by lia.
  unfold ascii_digit, in_range. split; bool_lia.
Qed.

Lemma space_not_digit c :
  isspace c = true -> isdigit c = false /\ isdecimal c = false.
Proof.
  intros Hs. destruct (isdigit c) eqn:Hd.
  - apply isdigit_not_space in Hd. congruence.
  - split; [reflexivity|]. destruct (isdecimal c) eqn:Hd'; [|reflexivity].
    apply isdecimal_isdigit in Hd'. congruence.
Qed.

Lemma digit_not_char c a :
  isdecimal c = true -> a < 128 -> ascii_digit a = false ->
  (c =? a) = false /\ (a =? c) = false.
Proof.
  intros. rewrite (N.eqb_sym a c). split; apply isdecimal_neq; auto.
Qed.

Lemma range_not_char lo hi c a :
  in_range lo hi c = true -> (a < lo \/ hi < a) ->
  (c =? a) = false /\ (a =? c) = false.
Proof.
  unfold in_range. rewrite andb_true_iff, !N.leb_le. intros [Hlo Hhi] Ha.
  split; apply N.eqb_neq; lia.
Qed.

Ltac invert_lang H :=
  vm_compute pattern_of in H; cbn [lang pow upto] in H;
  repeat match goal with
  | H : exists _, _ |- _ => destruct H as [? H]
  | H : _ /\ _ |- _ => destruct H as [? ?]
  | H : _ \/ _ |- _ => destruct H as [H|H]
  end; subst; cbn [app] in *;
  rewrite ?in_cset_one in *; cbn [in_citem] in *;
  repeat match goal with
  | H : (?c =? ?a) = true |- _ => apply N.eqb_eq in H; subst c
  end.

Ltac char_facts a :=
  repeat match goal with
  | H : isdecimal ?c = true |- _ =>
      lazymatch goal with
      | _ : isdigit c = true |- _ => fail
      | _ =>
        pose proof (isdecimal_isdigit c H);
        let H1 := fresh in let H2 := fresh in
        destruct (digit_not_char c a H) as [H1 H2]; [lia|reflexivity|]
      end
  | H : in_range 65 90 ?c = true |- _ =>
      lazymatch goal with
      | _ : isdigit c = false |- _ => fail
      | _ =>
        let H1 := fresh in let H2 := fresh in
        destruct (range_ascii_not_digit _ _ c H) as [H1 H2]; [lia|lia|];
        let H3 := fresh in let H4 := fresh in
        destruct (range_not_char _ _ c a H) as [H3 H4]; [lia|]
      end
  end.

Ltac rw_facts :=
  repeat match goal with
  | H : ?b = true |- context [?b] => rewrite H
  | H : ?b = false |- context [?b] => rewrite H
  end.

Lemma filter_cons_true {A} (p : A -> bool) x l :
  p x = true -> List.filter p (x :: l) = x :: List.filter p l.
Proof. intros H. simpl. rewrite H. reflexivity. Qed.

Lemma filter_cons_false {A} (p : A -> bool) x l :
  p x = false -> List.filter p (x :: l) = List.filter p l.
Proof. intros H. simpl. rewrite H. reflexivity. Qed.

Lemma char_in_cons_ne c x l : (c =? x) = false -> char_in c (x :: l) = char_in c l.
Proof. intros H. unfold char_in. simpl. rewrite H. reflexivity. Qed.

Lemma char_in_cons_eq c l : char_in c (c :: l) = true.
Proof. unfold char_in. simpl. rewrite N.eqb_refl. reflexivity. Qed.

Lemma split_on_cons_eq sep s : split_on sep (sep :: s) = [] :: split_on sep s.
Proof. simpl. rewrite N.eqb_refl. reflexivity. Qed.

Lemma split_on_cons_ne sep c s :
  (c =? sep) = false ->
  split_on sep (c :: s) =
  match split_on sep s with
  | p :: ps => (c :: p) :: ps
  | [] => [[c]]
  end.
Proof. intros H. simpl. rewrite H. reflexivity. Qed.

Ltac step_lists :=
  repeat first
    [ rewrite filter_cons_true by assumption
    | rewrite filter_cons_false by assumption
    | rewrite char_in_cons_eq
    | rewrite char_in_cons_ne by assumption
    | rewrite split_on_cons_eq
    | rewrite split_on_cons_ne by assumption ].

Ltac slots :=
  unfold format_preserved; repeat constructor; unfold slot; rw_facts; auto.

Lemma mask_voter_id_format raw : lang (pattern_of voter_id) raw -> format_preserved raw (mask_voter_id raw).
Proof.
  intros H. invert_lang H. char_facts 47.
  unfold mask_voter_id, last_n. cbn. slots.
Qed.

Lemma mask_aadhaar_format raw : lang (pattern_of aadhaar) raw ->
  (forall c, In c raw -> isspace c = true -> c = 32) ->
  format_preserved raw (mask_aadhaar raw).
Proof.
  intros H Hsp. invert_lang H.
  - repeat match goal with
    | H : isspace ?c = true |- _ =>
        let E := fresh in
        assert (E : c = 32) by (apply Hsp; [simpl; tauto|exact H]);
        subst c; clear H
    end.
    clear Hsp. char_facts 32.
    assert (Hsp32 : isdigit 32 = false) by (rewrite isdigit_ascii by lia; reflexivity).
    assert (Hsp32' : isdecimal 32 = false) by (rewrite isdecimal_ascii by lia; reflexivity).
    unfold mask_aadhaar, strip_non_digits. step_lists.
    cbn. slots.
  - clear Hsp. char_facts 32.
    unfold mask_aadhaar, strip_non_digits. step_lists.
    cbn. slots.
Qed.

Lemma mask_driving_license_format raw : lang (pattern_of driving_license) raw ->
  exists m, mask_driving_license raw = Ok m /\ format_preserved raw m.
Proof.
  intros H. invert_lang H. char_facts 47.
  unfold mask_driving_license. step_lists. cbn.
  eexists. split; [reflexivity|].
  assert (isdigit 47 = false) by (rewrite isdigit_ascii by lia; reflexivity).
  slots.
Qed.

Lemma mask_dob_format raw : lang (pattern_of dob) raw ->
  exists m, mask_dob raw = Ok m /\ format_preserved raw m.
Proof.
  intros H. invert_lang H. char_facts 47.
  unfold mask_dob. step_lists. cbn.
  eexists. split; [reflexivity|].
  assert (isdigit 47 = false) by (rewrite isdigit_ascii by lia; reflexivity).
  slots.
Qed.

Lemma slot_refl c : slot c c.
Proof. unfold slot. destruct (isdigit c) eqn:H; auto. Qed.

Lemma slot_refl_all raw : format_preserved raw raw.
Proof.
  unfold format_preserved. induction raw as [|c raw IH].
  - apply Forall2_nil.
  - apply Forall2_cons; [apply slot_refl|exact IH].
Qed.

Lemma filled_format (masked raw out : text) :
  (forall m, In m masked -> m = X \/ isdigit m = true) ->
  Forall2 (fun c m => if isdigit c then In m masked else m = c) raw out ->
  format_preserved raw out.
Proof.
  intros Hmasked Hf. unfold format_preserved.
  induction Hf as [|c m raw out Hcm Hf IH]; constructor; [|exact IH].
  unfold slot. destruct (isdigit c); auto.
Qed.

(** the two masks that keep the last four digits *)
Lemma fill_digits_format raw :
  forallb (fun c => Bool.eqb (isdigit c) (isdecimal c)) raw = true ->
  (4 <= length (strip_non_digits raw))%nat ->
  exists out,
    fill_digits (replicate (length (strip_non_digits raw) - 4) X
                 ++ last_n 4 (strip_non_digits raw)) 0 raw = Ok out /\
    format_preserved raw out.
Proof.
  intros Hd Hlen.
  destruct (fill_digits_spec
    (replicate (length (strip_non_digits raw) - 4) X
     ++ last_n 4 (strip_non_digits raw)) 0 raw) as (out & Hout & Hf).
  { rewrite masked_digits_length, count_digits_decimals by auto. lia. }
  exists out. split; [exact Hout|].
  eapply filled_format; [|exact Hf].
  intros m Hm. apply in_app_or in Hm as [Hm|Hm].
  - left. apply list_elem_of_In, elem_of_replicate in Hm as [Hm _]. exact Hm.
  - right. unfold last_n in Hm.
    apply list_elem_of_In, subseteq_drop, list_elem_of_In in Hm.
    apply filter_In in Hm as [_ Hm]. apply isdecimal_isdigit. exact Hm.
Qed.

Lemma mask_credit_card_format raw :
  lang (pattern_of credit_card) raw ->
  exists m, mask_credit_card_enhanced raw = Ok m /\ format_preserved raw m.
Proof.
  intros H. apply matched_digits in H. unfold mask_credit_card_enhanced.
  destruct (Nat.ltb_spec (length (strip_non_digits raw)) 13).
  - exists raw. split; [reflexivity|apply slot_refl_all].
  - apply fill_digits_format; [assumption|lia].
Qed.

Lemma mask_phone_format raw :
  lang (pattern_of phone) raw ->
  exists m, mask_phone_enhanced raw = Ok m /\ format_preserved raw m.
Proof.
  intros H. apply matched_digits in H. unfold mask_phone_enhanced.
  destruct (Nat.ltb_spec (length (strip_non_digits raw)) 10).
  - exists raw. split; [reflexivity|apply slot_refl_all].
  - apply fill_digits_format; [assumption|lia].
Qed.

(** C3, as the code has it. For the card, phone, voter ID, driving licence
    and date of birth types, and for a national ID written without
    separators or with plain spaces, the mask of every matched value
    returns a value of the same length that keeps every character of the
    original that is not a digit at its position and holds a digit or the
    filler X at every position that held a digit. (The IP mask is not of
    this kind: it keeps the first two octets and writes one X for each of
    the other two.) *)
Theorem digit_masks_preserve_format (t : PiiType) (s : text) (m : Match) :
  In t [credit_card; phone; voter_id; driving_license; dob] \/
  (t = aadhaar /\ forall c, In c (group0 m) -> isspace c = true -> c = 32) ->
  In m (finditer (pattern_of t) s) ->
  exists masked,
    ENHANCED_DEIDENTIFY t (group0 m) = Ok masked /\
    format_preserved (group0 m) masked.
Proof.
  intros Ht Hm.
  apply finditer_spec in Hm as (_ & _ & _ & _ & _ & Hl).
  destruct Ht as [Ht|[-> Hsp]].
  - simpl in Ht.
    destruct Ht as [<-|[<-|[<-|[<-|[<-|[]]]]]]; cbn [ENHANCED_DEIDENTIFY].
    + apply mask_credit_card_format, Hl.
    + apply mask_phone_format, Hl.
    + eexists. split; [reflexivity|]. apply mask_voter_id_format, Hl.
    + apply mask_driving_license_format, Hl.
    + apply mask_dob_format, Hl.
  - eexists. split; [reflexivity|]. apply mask_aadhaar_format; assumption.
Qed.

Lemma format_preserved_length raw masked :
  format_preserved raw masked -> length masked = length raw.
Proof. intros H. symmetry. eapply Forall2_length, H. Qed.

Lemma format_preserved_non_digit raw masked i c :
  format_preserved raw masked -> raw !! i = Some c -> isdigit c = false ->
  masked !! i = Some c.
Proof.
  intros H Hi Hc.
  destruct (Forall2_lookup_l _ _ _ _ _ H Hi) as (m & Hm & Hs).
  unfold slot in Hs. rewrite Hc in Hs. subst. exact Hm.
Qed.

End MaskFacts.

(** ** The checksums detect errors *)

Lemma all3_spec f : all3 f = true ->
  forall k c v, (0 <= k <= 7)%Z -> (0 <= c <= 9)%Z -> (0 <= v <= 9)%Z -> f k c v = true.
Proof.
  unfold all3. rewrite forallb_forall. intros H k c v Hk Hc Hv.
  assert (Hk' : In k rows8) by (unfold rows8; simpl; lia).
  assert (Hc' : In c digits10) by (unfold digits10; simpl; lia).
  assert (Hv' : In v digits10) by (unfold digits10; simpl; lia).
  specialize (H k Hk'). rewrite forallb_forall in H. specialize (H c Hc').
  rewrite forallb_forall in H. exact (H v Hv').
Qed.

Lemma step_ok_all : all3 step_ok = true.
Proof. vm_compute. reflexivity. Qed.

Lemma verhoeff_next_inj_digit_all :
  all3 (fun k c v => forallb (fun v' =>
     negb (verhoeff_next k c v =? verhoeff_next k c v')%Z || (v =? v')%Z) digits10) = true.
Proof. vm_compute. reflexivity. Qed.

Lemma verhoeff_next_inj_check_all :
  all3 (fun k c v => forallb (fun c' =>
     negb (verhoeff_next k c v =? verhoeff_next k c' v)%Z || (c =? c')%Z) digits10) = true.
Proof. vm_compute. reflexivity. Qed.

Lemma verhoeff_next_swap_all :
  all3 (fun k c x => forallb (fun y =>
     (x =? y)%Z ||
     negb (verhoeff_next ((k + 1) mod 8) (verhoeff_next k c y) x
           =? verhoeff_next ((k + 1) mod 8) (verhoeff_next k c x) y)%Z) digits10) = true.
Proof. vm_compute. reflexivity. Qed.

Lemma step_ok_elim k c v :
  step_ok k c v = true ->
  exists row_d row_p j,
    index verhoeff_d c = Ok row_d /\ index verhoeff_p k = Ok row_p /\
    index row_p v = Ok j /\ index row_d j = Ok (verhoeff_next k c v) /\
    (0 <= verhoeff_next k c v <= 9)%Z.
Proof.
  unfold step_ok.
  destruct (index verhoeff_d c) as [row_d|] eqn:Hd; [|discriminate].
  destruct (index verhoeff_p k) as [row_p|] eqn:Hp; [|discriminate]. cbn [bind].
  destruct (index row_p v) as [j|] eqn:Hj; [|discriminate]. cbn [bind].
  destruct (index row_d j) as [c'|] eqn:Hc'; [|discriminate].
  rewrite andb_true_iff, Z.eqb_eq. unfold in_digits.
  rewrite andb_true_iff, !Z.leb_le. intros [-> Hr].
  exists row_d, row_p, j. auto.
Qed.

Lemma position_mod8_range i : (0 <= Z.of_nat i mod 8 <= 7)%Z.
Proof. pose proof (Z.mod_pos_bound (Z.of_nat i) 8). lia. Qed.

Section ChecksumFacts.
Context {U : Unicode}.

Lemma decimal_value_range c : isdecimal c = true -> (0 <= Z.of_nat (decimal_value c) <= 9)%Z.
Proof. intros H. apply decimal_value_bound in H. lia. Qed.

Lemma verhoeff_loop_digits i c items :
  (0 <= c <= 9)%Z -> forallb isdecimal items = true ->
  verhoeff_loop i c items = Ok (verhoeff_fold i c (decimal_values items)) /\
  (0 <= verhoeff_fold i c (decimal_values items) <= 9)%Z.
Proof.
  revert i c. induction items as [|item items IH]; intros i c Hc Hall.
  - simpl. auto.
  - simpl in Hall. apply andb_true_iff in Hall as [Hitem Hall].
    destruct (step_ok_elim _ _ _
      (all3_spec _ step_ok_all (Z.of_nat i mod 8)%Z c
         (Z.of_nat (decimal_value item)) (position_mod8_range i) Hc (decimal_value_range _ Hitem)))
      as (row_d & row_p & j & Hd & Hp & Hj & Hc' & Hr).
    cbn [verhoeff_loop decimal_values List.map verhoeff_fold].
    rewrite Hd, Hp. cbn [bind]. rewrite py_int_char, Hitem. cbn [bind].
    rewrite Hj. cbn [bind]. rewrite Hc'. cbn [bind].
    apply IH; assumption.
Qed.

Lemma verhoeff_loop_raises i c items :
  (0 <= c <= 9)%Z -> forallb isdecimal items = false ->
  exists e, verhoeff_loop i c items = Raise e.
Proof.
  revert i c. induction items as [|item items IH]; intros i c Hc Hall.
  - discriminate.
  - simpl in Hall.
    assert (H0 : (0 <= 0 <= 9)%Z) by lia.
    destruct (isdecimal item) eqn:Hitem.
    + destruct (step_ok_elim _ _ _
        (all3_spec _ step_ok_all (Z.of_nat i mod 8)%Z c
           (Z.of_nat (decimal_value item)) (position_mod8_range i) Hc (decimal_value_range _ Hitem)))
        as (row_d & row_p & j & Hd & Hp & Hj & Hc' & Hr).
      cbn [verhoeff_loop]. rewrite Hd, Hp. cbn [bind].
      rewrite py_int_char, Hitem. cbn [bind]. rewrite Hj. cbn [bind].
      rewrite Hc'. cbn [bind]. apply IH; assumption.
    + destruct (step_ok_elim _ _ _
        (all3_spec _ step_ok_all (Z.of_nat i mod 8)%Z c 0%Z (position_mod8_range i) Hc H0))
        as (row_d & row_p & j & Hd & Hp & _).
      cbn [verhoeff_loop]. rewrite Hd, Hp. cbn [bind].
      rewrite py_int_char, Hitem. cbn [bind]. eauto.
Qed.

Lemma forallb_rev {A} (p : A -> bool) l : forallb p (rev l) = forallb p l.
Proof.
  induction l as [|x l IH]; simpl; [reflexivity|].
  rewrite forallb_app, IH. simpl. rewrite andb_true_r. apply andb_comm.
Qed.

(** what [verhoeff_validate] computes *)
Lemma verhoeff_validate_eq (num : text) :
  verhoeff_validate num =
  Ok (forallb isdecimal num && (verhoeff_fold 0 0 (decimal_values (rev num)) =? 0)%Z).
Proof.
  unfold verhoeff_validate.
  destruct (forallb isdecimal num) eqn:Hall.
  - destruct (verhoeff_loop_digits 0 0 (rev num)) as [-> _];
      [lia|rewrite forallb_rev; exact Hall|]. reflexivity.
  - destruct (verhoeff_loop_raises 0 0 (rev num)) as [e ->];
      [lia|rewrite forallb_rev; exact Hall|]. reflexivity.
Qed.

Lemma verhoeff_fold_range i c vs :
  (0 <= c <= 9)%Z -> Forall (fun v => 0 <= v <= 9)%Z vs ->
  (0 <= verhoeff_fold i c vs <= 9)%Z.
Proof.
  revert i c. induction vs as [|v vs IH]; intros i c Hc Hvs; simpl; [exact Hc|].
  inversion Hvs as [|? ? Hv Hvs']; subst. apply IH; [|assumption].
  destruct (step_ok_elim _ _ _
    (all3_spec _ step_ok_all _ c v (position_mod8_range i) Hc Hv)) as (? & ? & ? & _ & _ & _ & _ & Hr).
  exact Hr.
Qed.

Lemma verhoeff_next_range k c v :
  (0 <= k <= 7)%Z -> (0 <= c <= 9)%Z -> (0 <= v <= 9)%Z ->
  (0 <= verhoeff_next k c v <= 9)%Z.
Proof.
  intros Hk Hc Hv.
  destruct (step_ok_elim _ _ _ (all3_spec _ step_ok_all k c v Hk Hc Hv))
    as (? & ? & ? & _ & _ & _ & _ & Hr). exact Hr.
Qed.

Lemma In_digits10 v : (0 <= v <= 9)%Z -> In v digits10.
Proof. unfold digits10. simpl. lia. Qed.

Lemma verhoeff_next_inj_digit k c v v' :
  (0 <= k <= 7)%Z -> (0 <= c <= 9)%Z -> (0 <= v <= 9)%Z -> (0 <= v' <= 9)%Z ->
  verhoeff_next k c v = verhoeff_next k c v' -> v = v'.
Proof.
  intros Hk Hc Hv Hv' He.
  pose proof (all3_spec _ verhoeff_next_inj_digit_all k c v Hk Hc Hv) as H.
  rewrite forallb_forall in H. specialize (H v' (In_digits10 _ Hv')).
  rewrite He, Z.eqb_refl in H. simpl in H. apply Z.eqb_eq. exact H.
Qed.

Lemma verhoeff_next_inj_check k c c' v :
  (0 <= k <= 7)%Z -> (0 <= c <= 9)%Z -> (0 <= c' <= 9)%Z -> (0 <= v <= 9)%Z ->
  verhoeff_next k c v = verhoeff_next k c' v -> c = c'.
Proof.
  intros Hk Hc Hc' Hv He.
  pose proof (all3_spec _ verhoeff_next_inj_check_all k c v Hk Hc Hv) as H.
  rewrite forallb_forall in H. specialize (H c' (In_digits10 _ Hc')).
  rewrite He, Z.eqb_refl in H. simpl in H. apply Z.eqb_eq. exact H.
Qed.

Lemma verhoeff_next_swap k c x y :
  (0 <= k <= 7)%Z -> (0 <= c <= 9)%Z -> (0 <= x <= 9)%Z -> (0 <= y <= 9)%Z ->
  x <> y ->
  verhoeff_next ((k + 1) mod 8) (verhoeff_next k c y) x
  <> verhoeff_next ((k + 1) mod 8) (verhoeff_next k c x) y.
Proof.
  intros Hk Hc Hx Hy Hne He.
  pose proof (all3_spec _ verhoeff_next_swap_all k c x Hk Hc Hx) as H.
  rewrite forallb_forall in H. specialize (H y (In_digits10 _ Hy)).
  rewrite He, Z.eqb_refl in H. simpl in H. rewrite orb_false_r in H.
  apply Z.eqb_eq in H. contradiction.
Qed.

Lemma verhoeff_fold_inj i c c' vs :
  (0 <= c <= 9)%Z -> (0 <= c' <= 9)%Z -> Forall (fun v => 0 <= v <= 9)%Z vs ->
  verhoeff_fold i c vs = verhoeff_fold i c' vs -> c = c'.
Proof.
  revert i c c'. induction vs as [|v vs IH]; intros i c c' Hc Hc' Hvs He;
    simpl in He; [exact He|].
  inversion Hvs as [|? ? Hv Hvs']; subst.
  apply IH in He; [|apply verhoeff_next_range; auto using position_mod8_range ..|assumption].
  eapply verhoeff_next_inj_check; eauto using position_mod8_range.
Qed.

Lemma verhoeff_fold_app i c vs ws :
  verhoeff_fold i c (vs ++ ws) =
  verhoeff_fold (i + length vs) (verhoeff_fold i c vs) ws.
Proof.
  revert i c. induction vs as [|v vs IH]; intros i c; simpl.
  - rewrite Nat.add_0_r. reflexivity.
  - rewrite IH. f_equal. lia.
Qed.

Lemma decimal_values_range s : forallb isdecimal s = true ->
  Forall (fun v => 0 <= v <= 9)%Z (decimal_values s).
Proof.
  induction s as [|c s IH]; simpl; intros H; constructor.
  - apply andb_true_iff in H as [H _]. apply decimal_value_range, H.
  - apply andb_true_iff in H as [_ H]. auto.
Qed.

Lemma decimal_values_app s1 s2 : decimal_values (s1 ++ s2) = decimal_values s1 ++ decimal_values s2.
Proof. unfold decimal_values. apply map_app. Qed.

(** X1. [verhoeff_validate] returns on every string: true exactly when
    every character is a decimal digit and the checksum of the digits, read
    from the right through the two tables, is 0; a character that is no
    decimal digit makes [int] raise, and the handler returns false. *)
Theorem verhoeff_validate_correct (num : text) :
  exists ok,
    verhoeff_validate num = Ok ok /\
    (ok = true <->
     forallb isdecimal num = true /\
     verhoeff_fold 0 0 (decimal_values (rev num)) = 0%Z).
Proof.
  eexists. split; [apply verhoeff_validate_eq|].
  rewrite andb_true_iff, Z.eqb_eq. reflexivity.
Qed.

Lemma verhoeff_true_inv num :
  verhoeff_validate num = Ok true ->
  forallb isdecimal num = true /\ verhoeff_fold 0 0 (decimal_values (rev num)) = 0%Z.
Proof.
  rewrite verhoeff_validate_eq. intros H. injection H as H.
  apply andb_true_iff in H as [H1 H2]. apply Z.eqb_eq in H2. auto.
Qed.

(** X2. The Verhoeff check detects every single-digit error: if a string
    passes, the string with one digit replaced by a different character
    does not. *)
Theorem verhoeff_detects_substitution (a b : text) (x y : char) :
  decimal_value x <> decimal_value y ->
  verhoeff_validate (a ++ x :: b) = Ok true ->
  verhoeff_validate (a ++ y :: b) = Ok false.
Proof.
  intros Hne H. apply verhoeff_true_inv in H as [Hall H0].
  rewrite verhoeff_validate_eq.
  rewrite forallb_app in Hall. cbn [forallb] in Hall.
  apply andb_true_iff in Hall as [Ha Hxb]. apply andb_true_iff in Hxb as [Hx Hb].
  rewrite forallb_app. cbn [forallb]. rewrite Ha, Hb.
  destruct (isdecimal y) eqn:Hy; [|reflexivity]. cbn [andb].
  f_equal. apply Z.eqb_neq. intros H0'.
  revert H0 H0'. rewrite !rev_app_distr. cbn [rev].
  rewrite <- !app_assoc, !decimal_values_app, !verhoeff_fold_app. cbn [decimal_values List.map verhoeff_fold app].
  intros H0 H0'. pose proof (eq_trans H0 (eq_sym H0')) as He. clear H0 H0'.
  rename He into H0.
  assert (Hc1 : (0 <= verhoeff_fold 0 0 (decimal_values (rev b)) <= 9)%Z).
  { apply verhoeff_fold_range; [lia|]. apply decimal_values_range. rewrite forallb_rev. exact Hb. }
  apply verhoeff_fold_inj in H0.
  - apply verhoeff_next_inj_digit in H0; auto using position_mod8_range, decimal_value_range. lia.
  - apply verhoeff_next_range; auto using position_mod8_range, decimal_value_range.
  - apply verhoeff_next_range; auto using position_mod8_range, decimal_value_range.
  - apply decimal_values_range. rewrite forallb_rev. exact Ha.
Qed.

Lemma position_mod8_succ n : (Z.of_nat (S n) mod 8 = (Z.of_nat n mod 8 + 1) mod 8)%Z.
Proof. rewrite Nat2Z.inj_succ, Zplus_mod_idemp_l. reflexivity. Qed.

(** X3. The Verhoeff check detects every transposition of two adjacent
    digits that differ. *)
Theorem verhoeff_detects_transposition (a b : text) (x y : char) :
  decimal_value x <> decimal_value y ->
  verhoeff_validate (a ++ x :: y :: b) = Ok true ->
  verhoeff_validate (a ++ y :: x :: b) = Ok false.
Proof.
  intros Hne H. apply verhoeff_true_inv in H as [Hall H0].
  rewrite verhoeff_validate_eq.
  rewrite forallb_app in Hall. cbn [forallb] in Hall.
  apply andb_true_iff in Hall as [Ha Hxb]. apply andb_true_iff in Hxb as [Hx Hyb].
  apply andb_true_iff in Hyb as [Hy Hb].
  rewrite forallb_app. cbn [forallb]. rewrite Ha, Hb, Hx, Hy. cbn [andb].
  f_equal. apply Z.eqb_neq. intros H0'.
  assert (Hrev : forall u v, rev (a ++ u :: v :: b) = rev b ++ v :: u :: rev a).
  { intros u v. rewrite rev_app_distr. cbn [rev]. rewrite <- !app_assoc.
    reflexivity. }
  rewrite Hrev, decimal_values_app, verhoeff_fold_app in H0, H0'.
  cbn [decimal_values List.map verhoeff_fold] in H0, H0'.
  pose proof (eq_trans H0 (eq_sym H0')) as He. clear H0 H0'.
  assert (Hc1 : (0 <= verhoeff_fold 0 0 (decimal_values (rev b)) <= 9)%Z).
  { apply verhoeff_fold_range; [lia|]. apply decimal_values_range. rewrite forallb_rev. exact Hb. }
  pose proof (decimal_value_range _ Hx) as Hvx. pose proof (decimal_value_range _ Hy) as Hvy.
  apply verhoeff_fold_inj in He.
  - revert He. rewrite position_mod8_succ.
    apply verhoeff_next_swap; auto using position_mod8_range. lia.
  - repeat apply verhoeff_next_range; auto using position_mod8_range.
  - repeat apply verhoeff_next_range; auto using position_mod8_range.
  - apply decimal_values_range. rewrite forallb_rev. exact Ha.
Qed.

(** the Luhn total *)

Lemma luhn_sum_app i l1 l2 :
  luhn_sum i (l1 ++ l2) = (luhn_sum i l1 + luhn_sum (i + length l1) l2)%Z.
Proof.
  revert i. induction l1 as [|d l1 IH]; intros i; simpl.
  - rewrite Nat.add_0_r. reflexivity.
  - rewrite IH. replace (S i + length l1)%nat with (i + S (length l1))%nat by lia.
    lia.
Qed.

Lemma luhn_term_range i d : (0 <= d <= 9)%Z -> (0 <= luhn_term i d <= 9)%Z.
Proof.
  intros H. unfold luhn_term. destruct (Nat.odd i); [|exact H].
  destruct (Z.gtb_spec (2 * d) 9); lia.
Qed.

Lemma luhn_term_inj i d d' :
  (0 <= d <= 9)%Z -> (0 <= d' <= 9)%Z -> luhn_term i d = luhn_term i d' -> d = d'.
Proof.
  intros H H'. unfold luhn_term. destruct (Nat.odd i); [|auto].
  destruct (Z.gtb_spec (2 * d) 9); destruct (Z.gtb_spec (2 * d') 9); lia.
Qed.

Lemma digit_values_app s1 s2 :
  digit_values (s1 ++ s2) = digit_values s1 ++ digit_values s2.
Proof.
  unfold digit_values, strip_non_digits. rewrite List.filter_app, map_app.
  reflexivity.
Qed.

Lemma digit_values_cons c s :
  isdecimal c = true ->
  digit_values (c :: s) = Z.of_nat (decimal_value c) :: digit_values s.
Proof.
  intros H. unfold digit_values, strip_non_digits. simpl. rewrite H. reflexivity.
Qed.

(** X4. The Luhn check detects every single-digit error: if a number
    passes, the number with one of its digits replaced by a different
    digit does not. *)
Theorem luhn_detects_substitution (a b : text) (x y : char) :
  isdecimal x = true -> isdecimal y = true ->
  decimal_value x <> decimal_value y ->
  luhn_check (a ++ x :: b) = Ok true ->
  luhn_check (a ++ y :: b) = Ok false.
Proof.
  intros Hx Hy Hne. rewrite !luhn_check_eq. cbv zeta.
  rewrite !digit_values_app, !digit_values_cons by assumption.
  rewrite !length_app. cbn [length].
  intros H. injection H as H. apply andb_true_iff in H as [Hlen Hsum].
  rewrite Hlen. cbn [andb]. f_equal. apply Z.eqb_neq. intros Hsum'.
  apply Z.eqb_eq in Hsum. revert Hsum Hsum'.
  rewrite !rev_app_distr. cbn [rev]. rewrite <- !app_assoc. cbn [app].
  rewrite !luhn_sum_app. cbn [luhn_sum].
  set (n := (0 + length (rev (digit_values b)))%nat).
  set (A := luhn_sum 0 (rev (digit_values b))).
  set (B := luhn_sum (S n) (rev (digit_values a))).
  pose proof (luhn_term_range n _ (decimal_value_range _ Hx)) as Rx.
  pose proof (luhn_term_range n _ (decimal_value_range _ Hy)) as Ry.
  assert (Hd : luhn_term n (Z.of_nat (decimal_value x))
               <> luhn_term n (Z.of_nat (decimal_value y))).
  { intros He. apply luhn_term_inj in He; auto using decimal_value_range. lia. }
  intros H1 H2.
  apply Z.mod_divide in H1, H2; try lia.
  destruct H1 as [q1 H1], H2 as [q2 H2]. lia.
Qed.

End ChecksumFacts.

(** ** The scores of the matches of the registry *)

Section ScoreFacts.
Context {U : Unicode} {L : Library}.

Ltac invert_lang H :=
  vm_compute pattern_of in H; cbn [lang pow upto] in H;
  repeat match goal with
  | H : exists _, _ |- _ => destruct H as [? H]
  | H : _ /\ _ |- _ => destruct H as [? ?]
  | H : _ \/ _ |- _ => destruct H as [H|H]
  end; subst; cbn [app] in *;
  rewrite ?in_cset_one in *; cbn [in_citem] in *;
  repeat match goal with
  | H : (?c =? ?a) = true |- _ => apply N.eqb_eq in H; subst c
  end.

Ltac char_facts a :=
  repeat match goal with
  | H : isdecimal ?c = true |- _ =>
      lazymatch goal with
      | _ : isdigit c = true |- _ => fail
      | _ =>
        pose proof (isdecimal_isdigit c H);
        let H1 := fresh in let H2 := fresh in
        destruct (digit_not_char c a H) as [H1 H2]; [lia|reflexivity|]
      end
  | H : in_range 65 90 ?c = true |- _ =>
      lazymatch goal with
      | _ : isdigit c = false |- _ => fail
      | _ =>
        let H1 := fresh in let H2 := fresh in
        destruct (range_ascii_not_digit _ _ c H) as [H1 H2]; [lia|lia|];
        let H3 := fresh in let H4 := fresh in
        destruct (range_not_char _ _ c a H) as [H3 H4]; [lia|]
      end
  end.

Ltac space_facts :=
  repeat match goal with
  | H : isspace ?c = true |- _ =>
      lazymatch goal with
      | _ : isdecimal c = false |- _ => fail
      | _ => let H1 := fresh in let H2 := fresh in
             destruct (space_not_digit c H) as [H1 H2]
      end
  end.

Ltac rw_facts :=
  repeat match goal with
  | H : ?b = true |- context [?b] => rewrite H
  | H : ?b = false |- context [?b] => rewrite H
  end.

Ltac step_lists :=
  repeat first
    [ rewrite filter_cons_true by assumption
    | rewrite filter_cons_false by assumption
    | rewrite char_in_cons_eq
    | rewrite char_in_cons_ne by assumption
    | rewrite split_on_cons_eq
    | rewrite split_on_cons_ne by assumption ].

Ltac run_match :=
  repeat (cbn [rmatch m_times m_upto k_end]; rewrite ?in_cset_one;
          cbn [in_citem]; rw_facts).

Lemma pow_min_len P k n w :
  (forall u, P u -> (k <= length u)%nat) -> pow P n w -> (n * k <= length w)%nat.
Proof.
  intros HP. revert w. induction n as [|n IH]; simpl; intros w H; [lia|].
  destruct H as (u & v & -> & Hu & Hv). rewrite length_app.
  specialize (HP u Hu). specialize (IH v Hv). lia.
Qed.

Lemma lang_min_len r w : lang r w -> (min_len r <= length w)%nat.
Proof.
  revert w.
  induction r as [| cs | | | | a IHa b IHb | a IHa b IHb | cs g | a IHa lo extra];
    simpl; intros w H; subst; simpl; try lia.
  - destruct H as (c & -> & _). simpl. lia.
  - destruct H as (u & v & -> & Hu & Hv). rewrite length_app.
    specialize (IHa u Hu). specialize (IHb v Hv). lia.
  - destruct H as [H|H]; [specialize (IHa w H)|specialize (IHb w H)]; lia.
  - destruct H as (u & v & -> & Hu & Hv). rewrite length_app.
    pose proof (pow_min_len _ _ _ _ IHa Hu). lia.
Qed.

Lemma confidence_range t raw ctx q :
  _calculate_confidence t raw ctx = Ok q -> (0.3 <= q <= 1)%Q.
Proof.
  assert (Hq : forall (b : bool) (x y : Q),
    (0.3 <= x <= 1)%Q -> (0.3 <= y <= 1)%Q -> (0.3 <= (if b then x else y) <= 1)%Q)
    by (intros []; auto).
  assert (Hv : forall (r : result bool) (x y : Q),
    (0.3 <= x <= 1)%Q -> (0.3 <= y <= 1)%Q ->
    (ok <- r ;; Ok (if ok then x else y)) = Ok q -> (0.3 <= q <= 1)%Q).
  { intros [b|e] x y Hx Hy H; simpl in H; [|discriminate].
    injection H as <-. auto. }
  destruct t; cbn [_calculate_confidence]; intros H;
    try (eapply Hv; [| |exact H]; unfold Qle; simpl; lia).
  - destruct (_ =? 12)%nat.
    + eapply Hv; [| |exact H]; unfold Qle; simpl; lia.
    + injection H as <-. unfold Qle; simpl; lia.
  - injection H as <-. unfold Qle; simpl; lia.
  - injection H as <-. unfold Qle; simpl; lia.
  - destruct (_ && _); [destruct (existsb _ _)|]; injection H as <-;
      unfold Qle; simpl; lia.
Qed.

Lemma item_below_spec n cs c :
  forallb (item_below n) cs = true -> in_cset cs c = true -> c < n.
Proof.
  unfold in_cset. rewrite forallb_forall, existsb_exists.
  intros Hcs (i & Hi & Hc). specialize (Hcs i Hi).
  destruct i as [a|lo hi| |]; simpl in *; try discriminate.
  - apply N.eqb_eq in Hc. apply N.ltb_lt in Hcs. lia.
  - unfold in_range in Hc. apply andb_true_iff in Hc as [_ Hc].
    apply N.leb_le in Hc. apply N.ltb_lt in Hcs. lia.
Qed.

Lemma upper_char_fixed c : c < 97 -> upper_char c = [c].
Proof.
  intros Hc. rewrite upper_ascii by lia. unfold ascii_to_upper, ascii_lower, in_range.
  destruct (N.leb_spec 97 c); [lia|]. reflexivity.
Qed.

Lemma str_upper_fixed s :
  forallb (fun c => c <? 97) s = true -> str_upper s = s.
Proof.
  unfold str_upper. induction s as [|c s IH]; simpl; intros H; [reflexivity|].
  apply andb_true_iff in H as [Hc Hs]. apply N.ltb_lt in Hc.
  rewrite upper_char_fixed, IH by assumption. reflexivity.
Qed.

Lemma upper_of_match t raw :
  forallb (item_below 97) (alphabet (pattern_of t)) = true ->
  lang (pattern_of t) raw -> str_upper raw = raw.
Proof.
  intros Ht H. apply str_upper_fixed. apply lang_alphabet in H.
  eapply forallb_weaken; [|exact H]. intros c Hc.
  apply N.ltb_lt. eapply item_below_spec; eauto.
Qed.

Lemma ifsc_match_validates raw :
  lang (pattern_of ifsc) raw -> validate_ifsc raw = Ok true.
Proof.
  intros H. unfold validate_ifsc.
  rewrite (upper_of_match ifsc raw) by (auto; reflexivity).
  invert_lang H. f_equal. unfold re_match.
  let r := eval vm_compute in ifsc_re in change ifsc_re with r.
  assert (Hzero : in_cset [CLit 48] 48 = true) by reflexivity.
  run_match. reflexivity.
Qed.

Lemma medical_id_match_validates raw :
  lang (pattern_of medical_id) raw -> validate_medical_id raw = Ok true.
Proof.
  intros H. unfold validate_medical_id.
  rewrite (upper_of_match medical_id raw) by (auto; reflexivity).
  invert_lang H. f_equal. unfold re_match.
  let r := eval vm_compute in medical_id_re in change medical_id_re with r.
  run_match. reflexivity.
Qed.

Lemma aadhaar_match_digits raw :
  lang (pattern_of aadhaar) raw -> length (strip_non_digits raw) = 12%nat.
Proof.
  intros H. invert_lang H; space_facts; unfold strip_non_digits;
    step_lists; reflexivity.
Qed.

(** the score of a match of the national-ID pattern *)
Lemma aadhaar_match_confidence raw ctx :
  lang (pattern_of aadhaar) raw ->
  exists ok, verhoeff_validate (strip_non_digits raw) = Ok ok /\
    _calculate_confidence aadhaar raw ctx = Ok (if ok then 0.95 else 0.7)%Q.
Proof.
  intros H. cbn [_calculate_confidence].
  rewrite (aadhaar_match_digits raw H). cbn [Nat.eqb].
  destruct (verhoeff_validate_returns (strip_non_digits raw)) as [ok Hok].
  exists ok. rewrite Hok. auto.
Qed.

Lemma pow_max_len P k n w :
  (forall u, P u -> (length u <= k)%nat) -> pow P n w -> (length w <= n * k)%nat.
Proof.
  intros HP. revert w. induction n as [|n IH]; simpl; intros w H; [subst; simpl; lia|].
  destruct H as (u & v & -> & Hu & Hv). rewrite length_app.
  specialize (HP u Hu). specialize (IH v Hv). lia.
Qed.

Lemma upto_max_len P k n w :
  (forall u, P u -> (length u <= k)%nat) -> upto P n w -> (length w <= n * k)%nat.
Proof.
  intros HP. revert w. induction n as [|n IH]; simpl; intros w H; [subst; simpl; lia|].
  destruct H as [->|(u & v & -> & Hu & Hv)]; [simpl; lia|]. rewrite length_app.
  specialize (HP u Hu). specialize (IH v Hv). lia.
Qed.

Lemma lang_max_len r w :
  star_free r = true -> lang r w -> (length w <= max_len r)%nat.
Proof.
  revert w.
  induction r as [| cs | | | | a IHa b IHb | a IHa b IHb | cs g | a IHa lo extra];
    simpl; intros w Hs H; subst; simpl; try lia; try discriminate.
  - destruct H as (c & -> & _). simpl. lia.
  - apply andb_true_iff in Hs as [Ha Hb].
    destruct H as (u & v & -> & Hu & Hv). rewrite length_app.
    specialize (IHa u Ha Hu). specialize (IHb v Hb Hv). lia.
  - apply andb_true_iff in Hs as [Ha Hb].
    destruct H as [H|H]; [specialize (IHa w Ha H)|specialize (IHb w Hb H)]; lia.
  - destruct H as (u & v & -> & Hu & Hv). rewrite length_app.
    pose proof (pow_max_len _ _ _ _ (fun u => IHa u Hs) Hu).
    pose proof (upto_max_len _ _ _ _ (fun u => IHa u Hs) Hv). lia.
Qed.

Lemma filter_all {A} (p : A -> bool) l :
  forallb p l = true -> List.filter p l = l.
Proof.
  induction l as [|x l IH]; simpl; intros H; [reflexivity|].
  apply andb_true_iff in H as [Hx Hl]. rewrite Hx, IH by assumption. reflexivity.
Qed.

Lemma bank_account_match_digits raw :
  lang (pattern_of bank_account) raw ->
  strip_non_digits raw = raw /\ (9 <= length raw <= 18)%nat.
Proof.
  intros H. split.
  - apply filter_all. apply lang_alphabet in H.
    eapply forallb_weaken; [|exact H]. intros c.
    vm_compute alphabet. rewrite in_cset_one. auto.
  - pose proof (lang_min_len _ _ H) as Hmin.
    pose proof (lang_max_len (pattern_of bank_account) raw eq_refl H) as Hmax.
    vm_compute min_len in Hmin. vm_compute max_len in Hmax. lia.
Qed.

Lemma bank_account_match_confidence raw ctx :
  lang (pattern_of bank_account) raw ->
  _calculate_confidence bank_account raw ctx =
  Ok (if mentions_bank ctx then 0.8 else 0.6)%Q.
Proof.
  intros H. apply bank_account_match_digits in H as [Hd [Hlo Hhi]].
  cbn [_calculate_confidence]. rewrite Hd.
  destruct (Nat.leb_spec 9 (length raw)); [|lia].
  destruct (Nat.leb_spec (length raw) 18); [|lia].
  cbn [andb]. unfold mentions_bank. destruct (existsb _ _); reflexivity.
Qed.

Lemma six_to_nine c :
  in_range 54 57 c = true -> char_in c (txt "6789") = true /\ isdecimal c = true.
Proof.
  unfold in_range. rewrite andb_true_iff, !N.leb_le. intros [Hlo Hhi].
  assert (Hc : c = 54 \/ c = 55 \/ c = 56 \/ c = 57) by lia.
  split.
  - destruct Hc as [-> | [-> | [-> | ->]]]; reflexivity.
  - rewrite isdecimal_ascii by lia. unfold ascii_digit, in_range. bool_lia.
Qed.

Lemma sep_or_space_not_digit c :
  in_cset sep_or_space c = true -> isdecimal c = false.
Proof.
  unfold sep_or_space, in_cset. cbn [existsb in_citem].
  rewrite orb_false_r. intros H. apply orb_true_iff in H as [H|H].
  - apply N.eqb_eq in H. subst. apply isdecimal_ascii_false; [|reflexivity].
    vm_compute. reflexivity.
  - apply space_not_digit in H. tauto.
Qed.

Ltac phone_facts :=
  repeat match goal with
  | H : in_range 54 57 ?c = true |- _ =>
      let H1 := fresh in let H2 := fresh in
      destruct (six_to_nine c H) as [H1 H2]; clear H
  | H : in_cset sep_or_space ?c = true |- _ =>
      apply sep_or_space_not_digit in H
  end.

Lemma phone_match_valid raw :
  lang (pattern_of phone) raw ->
  validate_indian_phone raw = Ok (negb (starts_with [43] raw)).
Proof.
  intros H.
  assert (H43 : isdecimal 43 = false) by (apply isdecimal_ascii_false; [lia|reflexivity]).
  assert (H57 : isdecimal 57 = true) by (rewrite isdecimal_ascii by lia; reflexivity).
  assert (H49 : isdecimal 49 = true) by (rewrite isdecimal_ascii by lia; reflexivity).
  vm_compute pattern_of in H.
  change [CLit 45; CSpace] with sep_or_space in H.
  cbn [lang pow upto] in H.
  repeat match goal with
  | H : exists _, _ |- _ => destruct H as [? H]
  | H : _ /\ _ |- _ => destruct H as [? ?]
  | H : _ \/ _ |- _ => destruct H as [H|H]
  end; subst; cbn [app] in *;
  rewrite ?in_cset_one in *; cbn [in_citem] in *;
  repeat match goal with
  | H : (?c =? ?a) = true |- _ => apply N.eqb_eq in H; subst c
  end;
  phone_facts; unfold validate_indian_phone, strip_non_digits;
  step_lists; cbn [List.filter length Nat.eqb]; try reflexivity.
  all: unfold index; cbn [Z.ltb Z.compare starts_with];
       change (Z.to_nat 0) with 0%nat; cbn [lookup list_lookup bind].
  all: match goal with
       | H : char_in ?c _ = true, Hd : isdecimal ?c = true |- _ =>
           rewrite H;
           assert (Hne : (43 =? c) = false)
             by (apply N.eqb_neq; intros <-; congruence);
           rewrite Hne
       end; reflexivity.
Qed.

Lemma phone_match_confidence raw ctx :
  lang (pattern_of phone) raw ->
  _calculate_confidence phone raw ctx =
  Ok (if starts_with [43] raw then 0.4%Q else 0.9%Q).
Proof.
  intros H. cbn [_calculate_confidence]. rewrite (phone_match_valid raw H).
  destruct (starts_with [43] raw); reflexivity.
Qed.

(** X5. A national ID that the detector matched has twelve digits, so it
    never takes the score 0.3 of the length test: it scores 0.95 when its
    digits pass the Verhoeff check and 0.7 when they do not. *)
Theorem aadhaar_match_scores (s ctx : text) (m : Match) :
  In m (finditer (pattern_of aadhaar) s) ->
  exists ok,
    verhoeff_validate (strip_non_digits (group0 m)) = Ok ok /\
    _calculate_confidence aadhaar (group0 m) ctx =
    Ok (if ok then 0.95 else 0.7)%Q.
Proof.
  intros Hm. apply finditer_spec in Hm as (_ & _ & _ & _ & _ & H).
  apply aadhaar_match_confidence, H.
Qed.

(** X6. A bank account number that the detector matched has 9 to 18
    digits, so its score only depends on the context: 0.8 when the lowered
    context holds one of the keywords account, bank, acc and a/c, and 0.6
    when it holds none. *)
Theorem bank_account_score_by_context (s ctx : text) (m : Match) :
  In m (finditer (pattern_of bank_account) s) ->
  _calculate_confidence bank_account (group0 m) ctx =
  Ok (if mentions_bank ctx then 0.8 else 0.6)%Q.
Proof.
  intros Hm. apply finditer_spec in Hm as (_ & _ & _ & _ & _ & H).
  apply bank_account_match_confidence, H.
Qed.

(** X7. The validators of the bank branch code and of the medical ID test
    the pattern that the detector matched with, so they accept every match:
    a matched branch code always scores 0.95 and a matched medical ID
    always scores 0.7. *)
Theorem ifsc_medical_scores_fixed (t : PiiType) (s ctx : text) (m : Match) :
  t = ifsc \/ t = medical_id ->
  In m (finditer (pattern_of t) s) ->
  _calculate_confidence t (group0 m) ctx =
  Ok (match t with ifsc => 0.95 | _ => 0.7 end)%Q.
Proof.
  intros Ht Hm. apply finditer_spec in Hm as (_ & _ & _ & _ & _ & H).
  destruct Ht as [-> | ->]; cbn [_calculate_confidence].
  - rewrite (ifsc_match_validates _ H). reflexivity.
  - rewrite (medical_id_match_validates _ H). reflexivity.
Qed.

(** X8. A phone number that the detector matched scores 0.9 when the match
    has no country code and 0.4 when the match starts with +91: the
    validator counts the two digits of the code and wants ten digits. (The
    pattern starts at a word boundary, so it takes the code into the match
    only where a word character stands before the plus sign.) *)
Theorem phone_score_by_prefix (s ctx : text) (m : Match) :
  In m (finditer (pattern_of phone) s) ->
  _calculate_confidence phone (group0 m) ctx =
  Ok (if starts_with [43] (group0 m) then 0.4%Q else 0.9%Q).
Proof.
  intros Hm. apply finditer_spec in Hm as (_ & _ & _ & _ & _ & H).
  apply phone_match_confidence, H.
Qed.

End ScoreFacts.

(** ** The engine on one field *)

Section FieldFacts.
Context {U : Unicode} {L : Library}.

Lemma in_sequence_weaken p p' ms :
  (p' <= p)%nat -> in_sequence p ms -> in_sequence p' ms.
Proof. destruct ms as [|m ms]; simpl; [auto|]. intros ? (? & ? & ?). repeat split; auto; lia. Qed.

Lemma scan_in_sequence r prev pos s skip :
  in_sequence (pos + skip) (scan r prev pos s skip).
Proof.
  revert prev pos skip. induction s as [|c s IH]; intros prev pos skip.
  - destruct skip; cbn [scan]; [|exact I].
    destruct (rmatch r prev [] k_end) as [rest|]; [|exact I].
    cbn [in_sequence m_start m_end]. repeat split; lia.
  - destruct skip as [|j]; cbn [scan].
    + destruct (rmatch r prev (c :: s) k_end) as [rest|].
      * set (n := (length (c :: s) - length rest)%nat).
        cbn [in_sequence m_start m_end]. split; [lia|]. split; [lia|].
        eapply in_sequence_weaken; [|apply IH]. lia.
      * eapply in_sequence_weaken; [|apply IH]. lia.
    + eapply in_sequence_weaken; [|apply IH]. lia.
Qed.

Lemma pattern_min_len t : (1 <= min_len (pattern_of t))%nat.
Proof. destruct t; vm_compute; lia. Qed.

(** X9. The matches that [finditer] reports for a pattern of the registry
    come from left to right, do not overlap one another, and none is
    empty. *)
Theorem registry_matches_in_sequence (t : PiiType) (s : text) :
  in_sequence 0 (finditer (pattern_of t) s) /\
  forall m, In m (finditer (pattern_of t) s) -> (m_start m < m_end m)%nat.
Proof.
  split; [apply (scan_in_sequence _ None 0 s 0)|].
  intros m Hm. apply finditer_spec in Hm as (pre & post & _ & -> & -> & Hl).
  apply lang_min_len in Hl. pose proof (pattern_min_len t). lia.
Qed.

Lemma splice_render (s : text) dets p :
  separated p dets ->
  (forall d, In d dets -> (end_ d <= length s)%nat) ->
  fold_left apply_detection (rev dets) s = take p s ++ render p dets s.
Proof.
  revert p. induction dets as [|d dets IH]; intros p Hsep Hb.
  - simpl. symmetry. apply take_drop.
  - destruct Hsep as (Hp & Hse & Hsep).
    cbn [rev render]. rewrite fold_left_app. cbn [fold_left].
    rewrite (IH (end_ d)) by (auto; intros; apply Hb; right; assumption).
    assert (He : (end_ d <= length s)%nat) by (apply Hb; left; reflexivity).
    unfold apply_detection, splice.
    rewrite take_app_le by (rewrite length_take; lia).
    rewrite take_take. replace (start d `min` end_ d)%nat with (start d) by lia.
    rewrite drop_app_length' by (rewrite length_take; lia).
    unfold slice. rewrite (app_assoc (take p s)). f_equal.
    rewrite <- (take_drop p (take (start d) s)) at 1.
    rewrite take_take. replace (p `min` start d)%nat with p by lia.
    f_equal. rewrite skipn_firstn_comm. reflexivity.
Qed.

Lemma engine_run self s ctx :
  exists self' new_text dets,
    _deidentify_text_enhanced self s ctx = Ok (self', (new_text, dets)) /\
    new_text = fold_left apply_detection (rev dets) s /\
    (forall d, In d dets ->
       exists m, In m (finditer (pattern_of (pii_type d)) s) /\
         start d = m_start m /\ end_ d = m_end m /\ raw_value d = group0 m /\
         _calculate_confidence (pii_type d) (group0 m) ctx = Ok (confidence d) /\
         ENHANCED_DEIDENTIFY (pii_type d) (group0 m) = Ok (masked_value d) /\
         (confidence_threshold self <= confidence d)%Q).
Proof.
  do 3 eexists. split; [apply deidentify_eq|].
  rewrite rev_involutive. split; [apply apply_mask_detection|].
  intros d Hd. apply in_rev, in_map_iff in Hd as (x & <- & Hx).
  apply applied_matches_In in Hx as [Hx Hacc].
  apply all_candidates_spec in Hx as (t & m & -> & Hm).
  exists m. cbn [detection_of pii_type start end_ raw_value confidence masked_value].
  repeat split; auto.
  - pose proof Hm as Hl. apply finditer_spec in Hl as (? & ? & _ & _ & _ & Hl).
    unfold conf_of. destruct (calculate_confidence_returns t (group0 m) ctx Hl) as [q ->].
    reflexivity.
  - pose proof Hm as Hl. apply finditer_spec in Hl as (? & ? & _ & _ & _ & Hl).
    unfold mask_of. destruct (deidentify_returns t (group0 m) Hl) as [q ->].
    reflexivity.
  - apply Qle_bool_iff. exact Hacc.
Qed.

(** X11. When the detections that the engine returns for a field do not
    overlap, the output is the field with the span of each detection
    replaced by its masked value and every other character kept. *)
Theorem disjoint_detections_rendered (self : Processor) (s ctx : text) :
  let r := _deidentify_text_enhanced self s ctx in
  separated 0 (detections_of r) ->
  exists self',
    r = Ok (self', (render 0 (detections_of r) s, detections_of r)).
Proof.
  intros r. subst r.
  destruct (engine_run self s ctx) as (self' & new_text & dets & -> & Hnew & Hd).
  cbn [detections_of]. intros Hsep. exists self'.
  rewrite Hnew, (splice_render s dets 0 Hsep).
  - reflexivity.
  - intros d Hin. destruct (Hd d Hin) as (m & Hm & _ & -> & _).
    apply finditer_span in Hm. lia.
Qed.

Lemma fold_prefix n l w :
  (forall d, In d l -> (n <= start d)%nat) -> (n <= length w)%nat ->
  take n (fold_left apply_detection l w) = take n w.
Proof.
  revert w. induction l as [|d l IH]; intros w Hl Hn; simpl; [reflexivity|].
  assert (Hd : (n <= start d)%nat) by (apply Hl; left; reflexivity).
  rewrite IH.
  - unfold apply_detection, splice.
    rewrite take_app_le by (rewrite length_take; lia).
    rewrite take_take. f_equal. lia.
  - intros; apply Hl; right; assumption.
  - unfold apply_detection, splice. rewrite length_app, length_take. lia.
Qed.

(** X12. The text before the first detection is not touched: if every
    detection that the engine returns starts at the offset [n] or later, the
    first [n] characters of the output are those of the field. *)
Theorem prefix_untouched (self : Processor) (s ctx : text) (n : nat) :
  let r := _deidentify_text_enhanced self s ctx in
  Forall (fun d => (n <= start d)%nat) (detections_of r) ->
  exists self' new_text,
    r = Ok (self', (new_text, detections_of r)) /\
    take n new_text = take n s.
Proof.
  intros r. subst r.
  destruct (engine_run self s ctx) as (self' & new_text & dets & -> & Hnew & Hd).
  cbn [detections_of]. intros Hn. exists self', new_text.
  split; [reflexivity|]. rewrite Hnew.
  destruct dets as [|d dets]; [reflexivity|].
  rewrite List.Forall_forall in Hn. apply fold_prefix.
  - intros d' Hd'. apply in_rev in Hd'. auto.
  - destruct (Hd d (or_introl eq_refl)) as (m & Hm & Hs & _).
    apply finditer_span in Hm. specialize (Hn d (or_introl eq_refl)). lia.
Qed.

Lemma detection_key_of ctx x : detection_key (detection_of ctx x) = candidate_key x.
Proof. destruct x as [[t m] q]. reflexivity. Qed.

(** X10. The engine creates one detection for every match that the detector
    returns, with its type, offsets and score, and no other. *)
Theorem one_detection_per_match (self : Processor) (s ctx : text) :
  exists found self' new_text dets,
    find_all_enhanced (confidence_threshold self) s ctx = Ok found /\
    _deidentify_text_enhanced self s ctx = Ok (self', (new_text, dets)) /\
    Permutation (List.map detection_key dets) (List.map candidate_key found).
Proof.
  do 4 eexists. split; [apply find_all_enhanced_eq|].
  split; [apply deidentify_eq|].
  rewrite map_rev, <- Permutation_rev, map_map.
  rewrite (map_ext _ candidate_key) by (intros; apply detection_key_of).
  apply Permutation_map. unfold applied_matches. apply sort_by_start_desc_perm.
Qed.

Lemma finditer_empty t : finditer (pattern_of t) [] = [].
Proof. destruct t; reflexivity. Qed.

Lemma all_candidates_empty ctx : all_candidates [] ctx = [].
Proof.
  unfold all_candidates, candidates_of.
  induction pii_types as [|t ts IH]; cbn [flat_map]; [reflexivity|].
  rewrite finditer_empty, IH. reflexivity.
Qed.

Lemma filter_none {A} (p : A -> bool) l :
  (forall x, In x l -> p x = false) -> List.filter p l = [].
Proof.
  induction l as [|x l IH]; simpl; intros H; [reflexivity|].
  rewrite (H x) by auto. apply IH. auto.
Qed.

Lemma conf_of_le_1 t raw ctx : (conf_of t raw ctx <= 1)%Q.
Proof.
  unfold conf_of. destruct (_calculate_confidence t raw ctx) as [q|] eqn:H.
  - apply confidence_range in H. tauto.
  - unfold Qle; simpl; lia.
Qed.

(** X13. Every score is at most 1, so with a threshold above 1 the engine
    returns the field unchanged with no detection and leaves the counters
    as they are. *)
Theorem nothing_above_one (self : Processor) (s ctx : text) :
  (1 < confidence_threshold self)%Q ->
  _deidentify_text_enhanced self s ctx = Ok (self, (s, [])).
Proof.
  intros Hthr. rewrite deidentify_eq. unfold applied_matches.
  rewrite filter_none; [reflexivity|].
  intros x Hx. apply all_candidates_spec in Hx as (t & m & -> & _).
  unfold accepted. cbn [snd].
  destruct (Qle_bool _ _) eqn:Hle; [|reflexivity].
  apply Qle_bool_iff in Hle. pose proof (conf_of_le_1 t (group0 m) ctx).
  exfalso. apply (Qlt_not_le _ _ Hthr). eapply Qle_trans; eauto.
Qed.

(** X14. Every score is at least 0.3, so with a threshold of at most 0.3
    the detector returns every match of every pattern. *)
Theorem everything_at_low_threshold (threshold : Q) (s ctx : text)
    (t : PiiType) (m : Match) :
  (threshold <= 0.3)%Q ->
  In m (finditer (pattern_of t) s) ->
  exists found q,
    find_all_enhanced threshold s ctx = Ok found /\
    _calculate_confidence t (group0 m) ctx = Ok q /\
    In (t, m, q) found.
Proof.
  intros Hthr Hm.
  pose proof Hm as Hl. apply finditer_spec in Hl as (? & ? & _ & _ & _ & Hl).
  destruct (calculate_confidence_returns t (group0 m) ctx Hl) as [q Hq].
  exists (List.filter (accepted threshold) (all_candidates s ctx)), q.
  split; [apply find_all_enhanced_eq|]. split; [exact Hq|].
  apply filter_In. split.
  - pose proof (In_all_candidates s ctx t m Hm) as Hin.
    unfold conf_of in Hin. rewrite Hq in Hin. exact Hin.
  - unfold accepted. cbn [snd]. apply Qle_bool_iff.
    apply confidence_range in Hq. eapply Qle_trans; [exact Hthr|tauto].
Qed.

(** X15. An empty field has no match of any pattern: the engine returns it
    unchanged with no detection and leaves the processor as it is, whatever
    the context and the threshold. *)
Theorem empty_field (self : Processor) (ctx : text) :
  _deidentify_text_enhanced self [] ctx = Ok (self, ([], [])).
Proof.
  rewrite deidentify_eq. unfold applied_matches.
  rewrite all_candidates_empty. reflexivity.
Qed.

End FieldFacts.

(** ** What the masks show *)

Section MaskContents.
Context {U : Unicode} {L : Library}.

Ltac invert_lang H :=
  vm_compute pattern_of in H; cbn [lang pow upto] in H;
  repeat match goal with
  | H : exists _, _ |- _ => destruct H as [? H]
  | H : _ /\ _ |- _ => destruct H as [? ?]
  | H : _ \/ _ |- _ => destruct H as [H|H]
  end; subst; cbn [app] in *;
  rewrite ?in_cset_one in *; cbn [in_citem] in *;
  repeat match goal with
  | H : (?c =? ?a) = true |- _ => apply N.eqb_eq in H; subst c
  end.

Ltac char_facts a :=
  repeat match goal with
  | H : isdecimal ?c = true |- _ =>
      lazymatch goal with
      | _ : isdigit c = true |- _ => fail
      | _ =>
        pose proof (isdecimal_isdigit c H);
        let H1 := fresh in let H2 := fresh in
        destruct (digit_not_char c a H) as [H1 H2]; [lia|reflexivity|]
      end
  | H : in_range 65 90 ?c = true |- _ =>
      lazymatch goal with
      | _ : isdigit c = false |- _ => fail
      | _ =>
        let H1 := fresh in let H2 := fresh in
        destruct (range_ascii_not_digit _ _ c H) as [H1 H2]; [lia|lia|];
        let H3 := fresh in let H4 := fresh in
        destruct (range_not_char _ _ c a H) as [H3 H4]; [lia|]
      end
  end.

Ltac space_facts :=
  repeat match goal with
  | H : isspace ?c = true |- _ =>
      lazymatch goal with
      | _ : isdecimal c = false |- _ => fail
      | _ => let H1 := fresh in let H2 := fresh in
             destruct (space_not_digit c H) as [H1 H2]
      end
  end.

Ltac rw_facts :=
  repeat match goal with
  | H : ?b = true |- context [?b] => rewrite H
  | H : ?b = false |- context [?b] => rewrite H
  end.

Ltac step_lists :=
  repeat first
    [ rewrite filter_cons_true by assumption
    | rewrite filter_cons_false by assumption
    | rewrite char_in_cons_eq
    | rewrite char_in_cons_ne by assumption
    | rewrite split_on_cons_eq
    | rewrite split_on_cons_ne by assumption ].

Lemma item_is_digit_spec cs c :
  forallb item_is_digit cs = true -> in_cset cs c = true -> isdecimal c = true.
Proof.
  unfold in_cset. rewrite forallb_forall, existsb_exists.
  intros Hcs (i & Hi & Hc). specialize (Hcs i Hi).
  destruct i as [a|lo hi| |]; simpl in *; try discriminate; auto.
  - apply N.eqb_eq in Hc. subst. apply andb_true_iff in Hcs as [Hlo Hhi].
    apply N.leb_le in Hlo, Hhi. rewrite isdecimal_ascii by lia.
    unfold ascii_digit, in_range. bool_lia.
  - unfold in_range in Hc. apply andb_true_iff in Hc as [Hc1 Hc2].
    apply andb_true_iff in Hcs as [Hlo Hhi].
    apply N.leb_le in Hlo, Hhi, Hc1, Hc2. rewrite isdecimal_ascii by lia.
    unfold ascii_digit, in_range. bool_lia.
Qed.

Lemma strip_app a b :
  strip_non_digits (a ++ b) = strip_non_digits a ++ strip_non_digits b.
Proof. unfold strip_non_digits. induction a as [|c a IH]; simpl; [reflexivity|].
  destruct (isdecimal c); simpl; rewrite IH; reflexivity. Qed.

Lemma pow_min_digits P k n w :
  (forall u, P u -> (k <= length (strip_non_digits u))%nat) -> pow P n w ->
  (n * k <= length (strip_non_digits w))%nat.
Proof.
  intros HP. revert w. induction n as [|n IH]; simpl; intros w H; [lia|].
  destruct H as (u & v & -> & Hu & Hv). rewrite strip_app, length_app.
  specialize (HP u Hu). specialize (IH v Hv). lia.
Qed.

Lemma lang_min_digits r w :
  lang r w -> (min_digits r <= length (strip_non_digits w))%nat.
Proof.
  revert w.
  induction r as [| cs | | | | a IHa b IHb | a IHa b IHb | cs g | a IHa lo extra];
    simpl; intros w H; subst; simpl; try lia.
  - destruct H as (c & -> & Hc). destruct (forallb item_is_digit cs) eqn:Hcs; [|lia].
    unfold strip_non_digits. simpl.
    rewrite (item_is_digit_spec cs c Hcs Hc). simpl. lia.
  - destruct H as (u & v & -> & Hu & Hv). rewrite strip_app, length_app.
    specialize (IHa u Hu). specialize (IHb v Hv). lia.
  - destruct H as [H|H]; [specialize (IHa w H)|specialize (IHb w H)]; lia.
  - destruct H as (u & v & -> & Hu & Hv). rewrite strip_app, length_app.
    pose proof (pow_min_digits _ _ _ _ IHa Hu). lia.
Qed.

Lemma fill_digits_digits masked i s :
  forallb (fun c => Bool.eqb (isdigit c) (isdecimal c)) s = true ->
  (i + count_digits s <= length masked)%nat ->
  exists out, fill_digits masked i s = Ok out /\
    strip_non_digits out =
    strip_non_digits (take (count_digits s) (drop i masked)).
Proof.
  revert i. unfold count_digits.
  induction s as [|c s IH]; intros i Hs Hlen; simpl.
  - eauto.
  - simpl in Hs, Hlen. apply andb_true_iff in Hs as [Hc Hs]. apply eqb_prop in Hc.
    destruct (isdigit c) eqn:Hd.
    + simpl in Hlen.
      destruct (lookup_lt_is_Some_2 masked i) as [m Hm]; [lia|].
      rewrite (index_nat _ _ _ Hm). cbn [bind].
      destruct (IH (S i) Hs) as (out & -> & Hout); [lia|]. cbn [bind].
      eexists. split; [reflexivity|].
      rewrite (drop_S _ _ _ Hm). cbn [length take].
      change (m :: out) with ([m] ++ out).
      change (m :: take (length (List.filter isdigit s)) (drop (S i) masked))
        with ([m] ++ take (length (List.filter isdigit s)) (drop (S i) masked)).
      rewrite !strip_app, Hout. reflexivity.
    + destruct (IH i Hs) as (out & -> & Hout); [lia|]. cbn [bind].
      eexists. split; [reflexivity|].
      unfold strip_non_digits at 1. simpl. rewrite <- Hc. exact Hout.
Qed.

Lemma strip_fillers k : strip_non_digits (replicate k X) = [].
Proof.
  assert (HX : isdecimal X = false)
    by (apply isdecimal_ascii_false; [unfold X; lia|reflexivity]).
  unfold strip_non_digits. induction k as [|k IH]; simpl; [reflexivity|].
  rewrite HX. exact IH.
Qed.

Lemma strip_last_n n s :
  strip_non_digits (last_n n (strip_non_digits s)) = last_n n (strip_non_digits s).
Proof.
  unfold strip_non_digits at 1. apply filter_all.
  apply forallb_forall. intros c Hc. unfold last_n in Hc.
  apply list_elem_of_In, subseteq_drop, list_elem_of_In in Hc.
  apply filter_In in Hc. tauto.
Qed.

Lemma last_four_shown raw :
  forallb (fun c => Bool.eqb (isdigit c) (isdecimal c)) raw = true ->
  (4 <= length (strip_non_digits raw))%nat ->
  exists out,
    fill_digits (replicate (length (strip_non_digits raw) - 4) X
                 ++ last_n 4 (strip_non_digits raw)) 0 raw = Ok out /\
    strip_non_digits out = last_n 4 (strip_non_digits raw).
Proof.
  intros Hd Hlen.
  set (masked := replicate (length (strip_non_digits raw) - 4) X
                 ++ last_n 4 (strip_non_digits raw)).
  assert (Hm : length masked = count_digits raw).
  { unfold masked. rewrite masked_digits_length, count_digits_decimals by auto.
    reflexivity. }
  destruct (fill_digits_digits masked 0 raw Hd) as (out & Hout & Hs); [lia|].
  exists out. split; [exact Hout|].
  rewrite Hs, drop_0, <- Hm, firstn_all. unfold masked.
  rewrite strip_app, strip_fillers, strip_last_n. reflexivity.
Qed.

(** X16. Of a card number or a phone number that the detector matched, the
    masked value shows the last four digits and no other digit. *)
Theorem last_four_digits_shown (t : PiiType) (s : text) (m : Match) :
  t = credit_card \/ t = phone ->
  In m (finditer (pattern_of t) s) ->
  exists masked,
    ENHANCED_DEIDENTIFY t (group0 m) = Ok masked /\
    strip_non_digits masked = last_n 4 (strip_non_digits (group0 m)).
Proof.
  intros Ht Hm. apply finditer_spec in Hm as (_ & _ & _ & _ & _ & Hl).
  pose proof (matched_digits _ _ Hl) as Hd.
  pose proof (lang_min_digits _ _ Hl) as Hn.
  destruct Ht as [-> | ->]; cbn [ENHANCED_DEIDENTIFY].
  - vm_compute min_digits in Hn. unfold mask_credit_card_enhanced.
    destruct (Nat.ltb_spec (length (strip_non_digits (group0 m))) 13); [lia|].
    apply last_four_shown; [assumption|lia].
  - vm_compute min_digits in Hn. unfold mask_phone_enhanced.
    destruct (Nat.ltb_spec (length (strip_non_digits (group0 m))) 10); [lia|].
    apply last_four_shown; [assumption|lia].
Qed.

Lemma index_out_of_range {A} (l : list A) (i : nat) :
  (length l <= i)%nat -> index l (Z.of_nat i) = Raise IndexError.
Proof.
  intros H. unfold index.
  destruct (Z.ltb_spec (Z.of_nat i) 0); [lia|].
  destruct (Z.ltb_spec (Z.of_nat i) 0); [lia|].
  rewrite Nat2Z.id, (lookup_ge_None_2 l i) by lia. reflexivity.
Qed.

Lemma fill_digits_raises masked i s :
  (i <= length masked)%nat ->
  (length masked < i + count_digits s)%nat ->
  fill_digits masked i s = Raise IndexError.
Proof.
  revert i. unfold count_digits.
  induction s as [|c s IH]; intros i Hi0 Hlen; simpl in *; [lia|].
  destruct (isdigit c) eqn:Hd.
  - simpl in Hlen. destruct (Nat.le_gt_cases (length masked) i) as [Hi|Hi].
    + rewrite index_out_of_range by assumption. reflexivity.
    + destruct (lookup_lt_is_Some_2 masked i) as [m Hm]; [lia|].
      rewrite (index_nat _ _ _ Hm). cbn [bind].
      rewrite IH by lia. reflexivity.
  - rewrite IH by lia. reflexivity.
Qed.

Lemma count_digits_split s :
  count_digits s =
  (length (strip_non_digits s) + length (List.filter odd_digit s))%nat.
Proof.
  unfold count_digits, strip_non_digits, odd_digit.
  induction s as [|c s IH]; simpl; [reflexivity|].
  destruct (isdigit c) eqn:Hd, (isdecimal c) eqn:He; simpl; try lia.
  apply isdecimal_isdigit in He. congruence.
Qed.

Lemma fill_raises_iff (raw : text) :
  (4 <= length (strip_non_digits raw))%nat ->
  fill_digits (replicate (length (strip_non_digits raw) - 4) X
                 ++ last_n 4 (strip_non_digits raw)) 0 raw = Raise IndexError <->
  existsb odd_digit raw = true.
Proof.
  intros Hlen.
  set (masked := replicate (length (strip_non_digits raw) - 4) X
                 ++ last_n 4 (strip_non_digits raw)).
  assert (Hm : length masked = length (strip_non_digits raw))
    by (apply masked_digits_length; assumption).
  pose proof (count_digits_split raw) as Hc.
  split.
  - intros Hr. destruct (List.filter odd_digit raw) as [|c l] eqn:Hf.
    + destruct (fill_digits_spec masked 0 raw) as (out & Hout & _).
      { rewrite Hc, Hm. simpl. lia. }
      congruence.
    + apply existsb_exists. exists c.
      apply filter_In. rewrite Hf. left. reflexivity.
  - intros He. apply existsb_exists in He as (c & Hin & Hodd).
    apply fill_digits_raises; [lia|]. rewrite Hc, Hm.
    assert (Hin' : In c (List.filter odd_digit raw)) by (apply filter_In; auto).
    destruct (List.filter odd_digit raw); [destruct Hin'|simpl; lia].
Qed.

(** X17. The card mask and the phone mask raise IndexError exactly on a value
    that has enough decimal digits to be masked (13 and 10) and a character
    that [str.isdigit] accepts although it is no decimal digit; on every
    other value they return. *)
Theorem digit_masks_raise_iff (v : text) :
  (mask_credit_card_enhanced v = Raise IndexError <->
   (13 <= length (strip_non_digits v))%nat /\ existsb odd_digit v = true) /\
  (mask_phone_enhanced v = Raise IndexError <->
   (10 <= length (strip_non_digits v))%nat /\ existsb odd_digit v = true) /\
  (forall e, mask_credit_card_enhanced v = Raise e -> e = IndexError) /\
  (forall e, mask_phone_enhanced v = Raise e -> e = IndexError).
Proof.
  assert (Hindex : forall (l : text) i e, index l i = Raise e -> e = IndexError).
  { intros l i e. unfold index. cbv zeta.
    set (j := if (i <? 0)%Z then (Z.of_nat (length l) + i)%Z else i).
    destruct (j <? 0)%Z; [intros H; inversion H; reflexivity|].
    match goal with
    | |- context [match ?x with Some _ => _ | None => _ end] => destruct x
    end; intros H; inversion H; reflexivity. }
  assert (Hfill : forall masked i s e,
    fill_digits masked i s = Raise e -> e = IndexError).
  { intros masked i s. revert i. induction s as [|c s IH]; intros i e; simpl.
    - discriminate.
    - destruct (isdigit c).
      + destruct (index masked (Z.of_nat i)) as [m|e'] eqn:Hi; cbn [bind].
        * destruct (fill_digits masked (S i) s) eqn:Hf; cbn [bind]; [discriminate|].
          intros [= <-]. eapply IH; eauto.
        * intros [= <-]. eapply Hindex; eauto.
      + destruct (fill_digits masked i s) eqn:Hf; cbn [bind]; [discriminate|].
        intros [= <-]. eapply IH; eauto. }
  unfold mask_credit_card_enhanced, mask_phone_enhanced.
  split; [|split; [|split]].
  - destruct (Nat.ltb_spec (length (strip_non_digits v)) 13).
    + split; [discriminate|lia].
    + rewrite fill_raises_iff by lia. tauto.
  - destruct (Nat.ltb_spec (length (strip_non_digits v)) 10).
    + split; [discriminate|lia].
    + rewrite fill_raises_iff by lia. tauto.
  - intros e. destruct (_ <? 13)%nat; [discriminate|]. apply Hfill.
  - intros e. destruct (_ <? 10)%nat; [discriminate|]. apply Hfill.
Qed.

Lemma mask_aadhaar_digits raw :
  lang (pattern_of aadhaar) raw ->
  strip_non_digits (mask_aadhaar raw) =
  take 4 (strip_non_digits raw) ++ last_n 4 (strip_non_digits raw).
Proof.
  intros H.
  assert (HX : isdecimal X = false)
    by (apply isdecimal_ascii_false; [unfold X; lia|reflexivity]).
  assert (H32 : isdecimal 32 = false)
    by (apply isdecimal_ascii_false; [lia|reflexivity]).
  assert (HXXXX : txt "XXXX" = [X; X; X; X]) by reflexivity.
  assert (Hsp : txt " " = [32]) by reflexivity.
  invert_lang H; space_facts.
  all: match goal with |- context [mask_aadhaar ?r] => set (raw := r) end.
  all: eassert (Hd : strip_non_digits raw = _)
         by (unfold raw, strip_non_digits; step_lists; cbn [List.filter];
             reflexivity).
  all: unfold mask_aadhaar; rewrite !Hd, HXXXX, Hsp.
  all: cbn [length Nat.eqb negb take last_n drop Nat.sub app slice].
  all: destruct (char_in 32 raw); unfold strip_non_digits; step_lists;
       cbn [List.filter]; reflexivity.
Qed.

(** X18. Of a national ID that the detector matched, the masked value shows
    the first four and the last four digits: eight of the twelve. *)
Theorem aadhaar_mask_shows_eight (s : text) (m : Match) :
  In m (finditer (pattern_of aadhaar) s) ->
  strip_non_digits (mask_aadhaar (group0 m)) =
  take 4 (strip_non_digits (group0 m)) ++ last_n 4 (strip_non_digits (group0 m)).
Proof.
  intros Hm. apply finditer_spec in Hm as (_ & _ & _ & _ & _ & H).
  apply mask_aadhaar_digits, H.
Qed.

Lemma mask_dob_match raw :
  lang (pattern_of dob) raw ->
  mask_dob raw = Ok (txt "XX/XX/" ++ last_n 4 raw).
Proof.
  intros H. invert_lang H. char_facts 47.
  unfold mask_dob. step_lists. reflexivity.
Qed.

Lemma mask_driving_license_match raw :
  lang (pattern_of driving_license) raw ->
  mask_driving_license raw = Ok (take 4 raw ++ txt "/XXXXXX/" ++ last_n 4 raw).
Proof.
  intros H. invert_lang H. char_facts 47.
  unfold mask_driving_license. step_lists. reflexivity.
Qed.

(** X19. Of a date of birth that the detector matched, the masked value hides
    the day and the month and shows the year. *)
Theorem dob_mask_shows_year (s : text) (m : Match) :
  In m (finditer (pattern_of dob) s) ->
  ENHANCED_DEIDENTIFY dob (group0 m) = Ok (txt "XX/XX/" ++ last_n 4 (group0 m)).
Proof.
  intros Hm. apply finditer_spec in Hm as (_ & _ & _ & _ & _ & H).
  apply mask_dob_match, H.
Qed.

(** X20. Of a driving licence that the detector matched, the masked value
    hides the six digits in the middle and shows the state and office code
    and the last four digits. *)
Theorem driving_license_mask_shows_ends (s : text) (m : Match) :
  In m (finditer (pattern_of driving_license) s) ->
  ENHANCED_DEIDENTIFY driving_license (group0 m) =
  Ok (take 4 (group0 m) ++ txt "/XXXXXX/" ++ last_n 4 (group0 m)).
Proof.
  intros Hm. apply finditer_spec in Hm as (_ & _ & _ & _ & _ & H).
  apply mask_driving_license_match, H.
Qed.

Lemma split_on_app_sep sep a rest :
  char_in sep a = false ->
  split_on sep (a ++ sep :: rest) = a :: split_on sep rest.
Proof.
  unfold char_in. induction a as [|c a IH]; cbn [app existsb]; intros H.
  - apply split_on_cons_eq.
  - apply orb_false_iff in H as [Hc Ha]. rewrite N.eqb_sym in Hc.
    rewrite split_on_cons_ne, IH by assumption. reflexivity.
Qed.

(** X21. The IP mask keeps the first two dot-separated parts of its argument
    and writes X.X for everything after the second dot. *)
Theorem mask_ip_keeps_two_parts (a b rest : text) :
  char_in 46 a = false -> char_in 46 b = false ->
  mask_ip (a ++ 46 :: b ++ 46 :: rest) = a ++ 46 :: b ++ txt ".X.X".
Proof.
  intros Ha Hb. unfold mask_ip.
  rewrite (split_on_app_sep 46 a) by assumption.
  rewrite (split_on_app_sep 46 b) by assumption.
  cbn [take app join]. reflexivity.
Qed.

Lemma split_once_app_sep sep a rest :
  char_in sep a = false ->
  split_once sep (a ++ sep :: rest) = [a; rest].
Proof.
  unfold char_in. induction a as [|c a IH]; cbn [app existsb]; intros H.
  - simpl. rewrite N.eqb_refl. reflexivity.
  - apply orb_false_iff in H as [Hc Ha]. rewrite N.eqb_sym in Hc.
    simpl. rewrite Hc, IH by assumption. reflexivity.
Qed.

(** X22. The e-mail mask replaces the part before the first at-sign by xxxx
    and keeps the domain as it is. *)
Theorem pseudo_email_keeps_domain (local domain : text) :
  char_in 64 local = false ->
  pseudo_email (local ++ 64 :: domain) = txt "xxxx@" ++ domain.
Proof.
  intros H. unfold pseudo_email. rewrite split_once_app_sep by assumption.
  reflexivity.
Qed.

(** X23. Masking a masked e-mail address changes nothing: the result of
    the e-mail mask is its own mask. *)
Theorem pseudo_email_idempotent (email : text) :
  pseudo_email (pseudo_email email) = pseudo_email email.
Proof.
  assert (H : exists d, pseudo_email email = txt "xxxx" ++ 64 :: d).
  { unfold pseudo_email.
    destruct (split_once 64 email) as [|p [|d [|q ps]]]; eauto; exists []; reflexivity. }
  destruct H as [d ->].
  unfold pseudo_email. rewrite split_once_app_sep by reflexivity. reflexivity.
Qed.

End MaskContents.

(** ** What the adapters keep of a document *)

Section AdapterShapes.
Context {U : Unicode} {L : Library}.

Lemma engine_cell self s ctx r c :
  exists self' new_text dets,
    _deidentify_text_enhanced self s ctx = Ok (self', (new_text, dets)) /\
    confidence_threshold self' = confidence_threshold self /\
    (s = [] -> new_text = []) /\
    Forall (logged_in (confidence_threshold self) r [(c, s)])
           (List.map (at_cell r c) dets).
Proof.
  do 3 eexists. split; [apply deidentify_eq|].
  split; [apply threshold_fold|]. split.
  - intros ->. unfold applied_matches. rewrite all_candidates_empty. reflexivity.
  - apply List.Forall_forall. intros d Hd.
    apply in_map_iff in Hd as (d0 & <- & Hd).
    apply in_rev, in_map_iff in Hd as (x & <- & Hx).
    apply applied_matches_In in Hx as [Hx Hacc].
    apply all_candidates_spec in Hx as (t & m & -> & Hm).
    apply finditer_span in Hm as [Hspan Hraw].
    unfold logged_in. cbn. split; [reflexivity|]. split.
    + apply Qle_bool_iff. exact Hacc.
    + exists s. split; [left; reflexivity|]. split; [exact Hspan|exact Hraw].
Qed.

Lemma logged_in_weaken thr r cells cells' d :
  (forall x, In x cells -> In x cells') ->
  logged_in thr r cells d -> logged_in thr r cells' d.
Proof.
  intros Hsub (Hr & Hq & cell & Hin & Hs). repeat split; auto.
  exists cell. auto.
Qed.

Lemma process_item_shape r ictx items self log :
  exists self' extra new_item,
    process_item r ictx items (self, log) = Ok (self', log ++ extra, new_item) /\
    confidence_threshold self' = confidence_threshold self /\
    record_kept (JDict items) new_item /\
    Forall (logged_in (confidence_threshold self) r (record_cells (JDict items)))
           extra.
Proof.
  unfold record_kept, record_cells. cbn [dict_items].
  revert self log. induction items as [|[key value] items IH];
    intros self log; cbn [process_item].
  - exists self, [], []. rewrite app_nil_r. repeat split; constructor.
  - destruct (engine_cell self (cell_text value) ictx r key)
      as (self1 & new_text & dets & Hrun & Hthr & Hempty & Hlog).
    match goal with
    | |- context [_deidentify_text_enhanced self ?cell ictx] =>
        change cell with (cell_text value)
    end.
    rewrite Hrun. cbn [bind].
    destruct (IH self1 (log ++ List.map (at_cell r key) dets))
      as (self' & extra & new_item & -> & Hthr' & Hkept & Hlog').
    cbn [bind]. exists self', (List.map (at_cell r key) dets ++ extra).
    eexists. split; [rewrite app_assoc; reflexivity|].
    split; [congruence|]. split.
    + constructor; [|exact Hkept]. cbn [fst snd]. split; [reflexivity|].
      intros ->. apply Hempty. reflexivity.
    + apply Forall_app. split.
      * eapply List.Forall_impl; [|exact Hlog]. intros d. apply logged_in_weaken.
        intros x [<-|[]]. left. reflexivity.
      * rewrite Hthr in Hlog'. eapply List.Forall_impl; [|exact Hlog'].
        intros d. apply logged_in_weaken. intros x Hx. right. exact Hx.
Qed.

Lemma process_records_shape r data self log :
  exists self' extra new_data,
    process_records r data (self, log) = Ok (self', log ++ extra, new_data) /\
    confidence_threshold self' = confidence_threshold self /\
    Forall2 (fun item new_item => record_kept (JDict (dict_items item)) new_item)
            data new_data /\
    Forall (fun d => exists i item, data !! i = Some item /\
              logged_in (confidence_threshold self) (r + Z.of_nat i)
                        (record_cells item) d) extra.
Proof.
  revert r self log. induction data as [|item data IH];
    intros r self log; cbn [process_records].
  - exists self, [], []. rewrite app_nil_r. repeat split; constructor.
  - match goal with
    | |- context [process_item r ?ictx (dict_items item) (self, log)] =>
        destruct (process_item_shape r ictx (dict_items item) self log)
          as (self1 & extra1 & new_item & -> & Hthr & Hkept & Hlog)
    end.
    cbn [bind].
    destruct (IH (r + 1)%Z self1 (log ++ extra1))
      as (self' & extra & new_data & -> & Hthr' & Hkept' & Hlog').
    cbn [bind]. exists self', (extra1 ++ extra). eexists.
    split; [rewrite app_assoc; reflexivity|].
    split; [congruence|]. split.
    + constructor; assumption.
    + apply Forall_app. split.
      * eapply List.Forall_impl; [|exact Hlog]. intros d Hd.
        exists 0%nat, item. split; [reflexivity|].
        rewrite Z.add_0_r. exact Hd.
      * rewrite Hthr in Hlog'. eapply List.Forall_impl; [|exact Hlog'].
        intros d (i & it & Hi & Hd). exists (S i), it. split; [exact Hi|].
        replace (r + Z.of_nat (S i))%Z with (r + 1 + Z.of_nat i)%Z by lia.
        exact Hd.
Qed.

(** X24. On a list of dictionaries the record adapter returns a list with one
    record for each input record, with the keys of that record in their
    order; the value of a key whose value was null is the empty string. *)
Theorem json_records_kept (self : Processor) (items : list json) :
  forallb is_dict items = true ->
  exists self' out,
    process_json_enhanced self (JList items) = Ok (self', out) /\
    Forall2 (fun item new_item =>
               List.map fst new_item = List.map fst (dict_items item) /\
               forall i key, dict_items item !! i = Some (key, JNone) ->
                             new_item !! i = Some (key, []))
            items (output out).
Proof.
  intros Hd. unfold process_json_enhanced. rewrite Hd.
  destruct (process_records_shape 1 items self [])
    as (self' & extra & new_data & -> & _ & Hkept & _).
  cbn [bind]. do 2 eexists. split; [reflexivity|]. cbn [output].
  eapply Forall2_impl; [|exact Hkept].
  intros item new_item Hk. unfold record_kept in Hk. cbn [dict_items] in Hk.
  generalize dependent (dict_items item). intros its Hk.
  split.
  - induction Hk as [|kv new l l' [Hf _] _ IH]; cbn [List.map]; [reflexivity|].
    exact (f_equal2 cons Hf IH).
  - intros i key Hi.
    destruct (Forall2_lookup_l _ _ _ _ _ Hk Hi) as ([k v] & Hn & Hf & Hv).
    cbn [fst snd] in *. subst k. rewrite (Hv eq_refl) in Hn. exact Hn.
Qed.

(** X25. Every detection that the record adapter logs names a record of the
    document by its number, counted from 1, and a key of that record; its
    offsets cut its raw value out of the text of that value; and its score
    reaches the threshold of the processor. *)
Theorem json_log_refers_to_cells (self : Processor) (items : list json) :
  forallb is_dict items = true ->
  exists self' out,
    process_json_enhanced self (JList items) = Ok (self', out) /\
    Forall (fun d => exists i item,
              items !! i = Some item /\
              logged_in (confidence_threshold self) (Z.of_nat i + 1)
                        (record_cells item) d)
           (detections_log out).
Proof.
  intros Hd. unfold process_json_enhanced. rewrite Hd.
  destruct (process_records_shape 1 items self [])
    as (self' & extra & new_data & -> & _ & _ & Hlog).
  cbn [bind]. do 2 eexists. split; [reflexivity|]. cbn [detections_log app].
  eapply List.Forall_impl; [|exact Hlog].
  intros d (i & item & Hi & Hl). exists i, item. split; [exact Hi|].
  rewrite Z.add_comm. exact Hl.
Qed.

Lemma process_row_shape r rctx cells self log :
  exists self' extra new_row,
    process_row r rctx cells (self, log) = Ok (self', log ++ extra, new_row) /\
    confidence_threshold self' = confidence_threshold self /\
    Forall2 (fun cell new => snd cell = None -> new = []) cells new_row /\
    Forall (logged_in (confidence_threshold self) (r + 1)
              (List.map (fun kv => (fst kv, default [] (snd kv))) cells))
           extra.
Proof.
  revert self log. induction cells as [|[col value] cells IH];
    intros self log; cbn [process_row].
  - exists self, [], []. rewrite app_nil_r. repeat split; constructor.
  - destruct (engine_cell self (default [] value) rctx (r + 1)%Z col)
      as (self1 & new_text & dets & -> & Hthr & Hempty & Hlog).
    cbn [bind].
    destruct (IH self1 (log ++ List.map (at_cell (r + 1) col) dets))
      as (self' & extra & new_row & -> & Hthr' & Hkept & Hlog').
    cbn [bind]. exists self', (List.map (at_cell (r + 1) col) dets ++ extra).
    eexists. split; [rewrite app_assoc; reflexivity|].
    split; [congruence|]. split.
    + constructor; [|exact Hkept]. cbn [snd]. intros ->. apply Hempty. reflexivity.
    + apply Forall_app. split.
      * eapply List.Forall_impl; [|exact Hlog]. intros d. apply logged_in_weaken.
        intros x [<-|[]]. left. reflexivity.
      * rewrite Hthr in Hlog'. eapply List.Forall_impl; [|exact Hlog'].
        intros d. apply logged_in_weaken. intros x Hx. right. exact Hx.
Qed.

Lemma process_rows_shape header r rows self log :
  exists self' extra new_rows,
    process_rows header r rows (self, log) = Ok (self', log ++ extra, new_rows) /\
    confidence_threshold self' = confidence_threshold self /\
    Forall2 (fun row new_row =>
               Forall2 (fun cell new => snd cell = None -> new = [])
                       (zip header row) new_row) rows new_rows /\
    Forall (fun d => exists i row, rows !! i = Some row /\
              logged_in (confidence_threshold self) (r + Z.of_nat i + 1)
                        (row_cells header row) d) extra.
Proof.
  revert r self log. induction rows as [|row rows IH];
    intros r self log; cbn [process_rows].
  - exists self, [], []. rewrite app_nil_r. repeat split; constructor.
  - destruct (process_row_shape r (join (txt " ") (omap id row))
                (zip header row) self log)
      as (self1 & extra1 & new_row & -> & Hthr & Hkept & Hlog).
    cbn [bind].
    destruct (IH (r + 1)%Z self1 (log ++ extra1))
      as (self' & extra & new_rows & -> & Hthr' & Hkept' & Hlog').
    cbn [bind]. exists self', (extra1 ++ extra). eexists.
    split; [rewrite app_assoc; reflexivity|].
    split; [congruence|]. split.
    + constructor; assumption.
    + apply Forall_app. split.
      * eapply List.Forall_impl; [|exact Hlog]. intros d Hd.
        exists 0%nat, row. split; [reflexivity|].
        rewrite Z.add_0_r. exact Hd.
      * rewrite Hthr in Hlog'. eapply List.Forall_impl; [|exact Hlog'].
        intros d (i & it & Hi & Hd). exists (S i), it. split; [exact Hi|].
        replace (r + Z.of_nat (S i) + 1)%Z with (r + 1 + Z.of_nat i + 1)%Z by lia.
        exact Hd.
Qed.


(** X27. Every detection that the tabular adapter logs names a row of the
    table by its number, counted from 1, and a column of the header; its
    offsets cut its raw value out of the text of that cell; and its score
    reaches the threshold of the processor. *)
Theorem tabular_log_refers_to_cells (self : Processor) (header : list text)
    (rows : list (list (option text))) :
  exists self' out,
    _process_tabular self header rows = Ok (self', out) /\
    Forall (fun d => exists i row,
              rows !! i = Some row /\
              logged_in (confidence_threshold self) (Z.of_nat i + 1)
                        (row_cells header row) d)
           (detections_log out).
Proof.
  unfold _process_tabular.
  destruct (process_rows_shape header 0 rows self [])
    as (self' & extra & new_rows & -> & _ & _ & Hlog).
  cbn [bind]. do 2 eexists. split; [reflexivity|]. cbn [detections_log app].
  exact Hlog.
Qed.

Lemma size_list_to_set_le (l : list text) :
  (size (list_to_set l : gset text) <= length l)%nat.
Proof.
  induction l as [|x l IH]; cbn [length].
  - rewrite list_to_set_nil, size_empty. lia.
  - rewrite list_to_set_cons, size_union_alt, size_singleton.
    assert (Hsub : (size (difference (list_to_set l) (singleton x) : gset text)
                    <= size (list_to_set l : gset text))%nat)
      by (apply subseteq_size, subseteq_difference_l; reflexivity).
    lia.
Qed.

Lemma summary_of_balanced base self log :
  balanced base self log -> summary_bounded (_generate_summary self log) log.
Proof.
  intros Hb t. cbn [_generate_summary unique_values_by_type counts_by_type].
  rewrite map_lookup_imap. specialize (Hb t). unfold counter in Hb.
  destruct (det_counts self !! t) as [c|]; cbn in *.
  - split; [|lia]. unfold raw_values_of, count_type.
    etransitivity; [apply size_list_to_set_le|]. rewrite length_map. lia.
  - lia.
Qed.

(** X28. In the summary of a run of any adapter, the types that have a count
    are those that have a number of unique values; for each of them the
    number of unique values is at most the number of detections of the
    type in the log of the run, which is at most the count; and a type
    without a count has no detection in the log. *)
Theorem summaries_consistent (self : Processor) (s : text) (pages : list text)
    (header : list text) (rows : list (list (option text))) (data : json) :
  is_list_of_dicts data = true ->
  summary_consistent (process_txt_enhanced self s) /\
  summary_consistent (process_pdf_enhanced self pages) /\
  summary_consistent (_process_tabular self header rows) /\
  summary_consistent (process_json_enhanced self data).
Proof.
  intros Hd. unfold summary_consistent. repeat split.
  - unfold process_txt_enhanced.
    destruct (engine_step (counter self) self [] s s 1%Z (txt "text")
                (balanced_start self)) as (self' & new_text & dets & -> & Hb).
    cbn [bind]. do 2 eexists. split; [reflexivity|].
    apply (summary_of_balanced _ _ _ Hb).
  - unfold process_pdf_enhanced.
    match goal with |- context [flat_map ?f pages] => set (p := flat_map f pages) end.
    destruct (engine_step (counter self) self [] p p 1%Z (txt "pdf_text")
                (balanced_start self)) as (self' & new_text & dets & -> & Hb).
    cbn [bind]. do 2 eexists. split; [reflexivity|].
    apply (summary_of_balanced _ _ _ Hb).
  - unfold _process_tabular.
    destruct (process_rows_spec (counter self) header 0 rows self []
                (balanced_start self)) as (self' & log' & new_df & -> & Hb).
    cbn [bind]. do 2 eexists. split; [reflexivity|].
    apply (summary_of_balanced _ _ _ Hb).
  - unfold process_json_enhanced.
    destruct data as [| | | | |items|]; try discriminate.
    simpl in Hd. rewrite Hd.
    destruct (process_records_spec (counter self) 1 items self []
                (balanced_start self)) as (self' & log' & new_data & -> & Hb).
    cbn [bind]. do 2 eexists. split; [reflexivity|].
    apply (summary_of_balanced _ _ _ Hb).
Qed.

End AdapterShapes.

(** ** CSV cleaning *)

Section CleanCsvFacts.
Context {U : Unicode}.

Lemma str_lstrip_spec s :
  exists pre, s = pre ++ str_lstrip s /\ starts_clean (str_lstrip s).
Proof.
  induction s as [|c s (pre & Hs & Hc)]; simpl.
  - exists []. split; [reflexivity|exact I].
  - destruct (isspace c) eqn:Hsp.
    + exists (c :: pre). split; [simpl; congruence|exact Hc].
    + exists []. split; [reflexivity|exact Hsp].
Qed.

Lemma str_lstrip_fixed s : starts_clean s -> str_lstrip s = s.
Proof. destruct s as [|c s]; simpl; [reflexivity|]. intros ->. reflexivity. Qed.

Lemma str_strip_ends s :
  starts_clean (str_strip s) /\ starts_clean (rev (str_strip s)).
Proof.
  unfold str_strip. rewrite rev_involutive.
  destruct (str_lstrip_spec s) as (pre & _ & Ht).
  destruct (str_lstrip_spec (rev (str_lstrip s))) as (pre' & Hu & Hu').
  split; [|exact Hu'].
  set (t := str_lstrip s) in *. set (u := str_lstrip (rev t)) in *.
  assert (Ht' : t = rev u ++ rev pre').
  { rewrite <- rev_app_distr, <- Hu, rev_involutive. reflexivity. }
  destruct (rev u) as [|c w]; [exact I|].
  rewrite Ht' in Ht. exact Ht.
Qed.

Lemma str_strip_fixed s :
  starts_clean s -> starts_clean (rev s) -> str_strip s = s.
Proof.
  intros H1 H2. unfold str_strip.
  rewrite (str_lstrip_fixed s H1), (str_lstrip_fixed _ H2).
  apply rev_involutive.
Qed.

Lemma str_strip_idempotent s : str_strip (str_strip s) = str_strip s.
Proof. apply str_strip_fixed; apply str_strip_ends. Qed.

(** X29. Every line that [_clean_csv] keeps is not empty, does not start with
    a Markdown fence, and has no white space at either end; cleaning the
    cleaned lines again changes nothing. *)
Theorem cleaned_lines_clean (lines : list text) :
  Forall (fun l => l <> [] /\ starts_with (txt "```") l = false /\
                   starts_clean l /\ starts_clean (rev l))
         (cleaned_lines lines) /\
  cleaned_lines (cleaned_lines lines) = cleaned_lines lines.
Proof.
  assert (H : Forall (fun l => kept_line l = true /\ str_strip l = l)
                     (cleaned_lines lines)).
  { unfold cleaned_lines. apply List.Forall_forall. intros l Hl.
    apply in_map_iff in Hl as (line & <- & Hline).
    apply filter_In in Hline as [_ Hk]. split; [|apply str_strip_idempotent].
    unfold kept_line in *. rewrite str_strip_idempotent. exact Hk. }
  split.
  - eapply List.Forall_impl; [|exact H]. intros l [Hk Hs].
    unfold kept_line in Hk. rewrite Hs in Hk.
    destruct l as [|c l]; [discriminate|].
    split; [discriminate|]. split; [apply negb_true_iff, Hk|].
    rewrite <- Hs. apply str_strip_ends.
  - generalize dependent (cleaned_lines lines). intros l H.
    unfold cleaned_lines. induction H as [|x l [Hk Hs] _ IH]; [reflexivity|].
    cbn [List.filter]. rewrite Hk. cbn [List.map]. rewrite Hs. f_equal. exact IH.
Qed.

End CleanCsvFacts.

(** ** Runs on concrete inputs *)

Section Runs.
#[local] Existing Instance latin1.
#[local] Existing Instance latin1_library.

(** In ["1.2.3.4@x.co"] the e-mail address and the IP address both start at
    offset 0 and both are accepted: the two replacements are applied one
    after the other at the same start offset, so the order of application
    is not strictly decreasing. *)
Lemma redaction_order_not_strict :
  let r := _deidentify_text_enhanced (new_processor 0.7) (txt "1.2.3.4@x.co") [] in
  List.map span_of (rev (detections_of r))
    = [(email, 0, 12); (ip_address, 0, 7)]%nat /\
  ~ StronglySorted (fun a b => (start b < start a)%nat) (rev (detections_of r)).
Proof.
  intros r. set (l := rev (detections_of r)). vm_compute in l.
  split; [reflexivity|]. intros H. subst l.
  inversion H as [|? ? _ Hall]. inversion Hall as [|? ? Hlt _].
  simpl in Hlt. lia.
Qed.

(** In ["123456789012"] at threshold 0.7 the bank-account match scores 0.6
    and is discarded, yet the text of its span is rewritten: the national-ID
    match of the same span is accepted and masked. *)
Lemma sub_threshold_span_rewritten :
  let s := txt "123456789012" in
  let m := {| m_start := 0; m_end := 12; group0 := s |} in
  let r := _deidentify_text_enhanced (new_processor 0.7) s [] in
  In m (finditer (pattern_of bank_account) s) /\
  _calculate_confidence bank_account (group0 m) [] = Ok 0.6%Q /\
  (0.6 < 0.7)%Q /\
  List.map span_of (detections_of r) = [(aadhaar, 0, 12)]%nat /\
  text_of r = txt "1234XXXX9012" /\
  slice (m_start m) (m_end m) (text_of r) <> group0 m.
Proof.
  intros s m r.
  split; [left; reflexivity|]. split; [reflexivity|]. split; [reflexivity|].
  split; [vm_compute; reflexivity|]. split; [vm_compute; reflexivity|].
  vm_compute. discriminate.
Qed.

(** The IP mask of the matched value ["192.168.100.200"] is ["192.168.X.X"]:
    the value is shorter, the dot at offset 11 is not kept, and of the 12
    digits 6 are left with no filler standing for the others. *)
Lemma mask_ip_changes_format :
  let s := txt "192.168.100.200" in
  let m := {| m_start := 0; m_end := 15; group0 := s |} in
  In m (finditer (pattern_of ip_address) s) /\
  ENHANCED_DEIDENTIFY ip_address (group0 m) = Ok (txt "192.168.X.X") /\
  ~ format_preserved (group0 m) (txt "192.168.X.X") /\
  group0 m !! 11%nat = Some 46 /\ txt "192.168.X.X" !! 11%nat = None /\
  count_digits (group0 m) = 12%nat /\ count_digits (txt "192.168.X.X") = 6%nat.
Proof.
  intros s m. split; [left; reflexivity|]. split; [reflexivity|].
  split; [|repeat split].
  intros H. apply format_preserved_length in H. discriminate.
Qed.

(** A mask replaces digits by the filler: the masked card number has 4
    digit characters where the original has 16, in the same 16 positions. *)
Lemma masked_card_digit_count :
  let s := txt "4111 1111 1111 1111" in
  ENHANCED_DEIDENTIFY credit_card s = Ok (txt "XXXX XXXX XXXX 1111") /\
  count_digits s = 16%nat /\ count_digits (txt "XXXX XXXX XXXX 1111") = 4%nat.
Proof. repeat split. Qed.

(** The document [[{"a": []}]] is not a list of flat records, and the
    adapter does not raise on it. *)
Lemma nested_record_accepted :
  let doc := JList [JDict [(txt "a", JList [])]] in
  is_flat_records doc = false /\
  process_json_enhanced (new_processor 0.7) doc <> Raise ValueError.
Proof. split; [reflexivity|]. vm_compute. discriminate. Qed.

(** C5. One processor, two runs on the text ["a@b.co"]: the log of the second
    run holds one e-mail detection and its summary counts two, because
    [det_counts] is an attribute of the processor that no run resets (and
    the service keeps one processor for all uploads). *)
Theorem second_run_double_counts :
  let p0 := new_processor 0.7 in
  let r1 := process_txt_enhanced p0 (txt "a@b.co") in
  let r2 := process_txt_enhanced (processor_after r1 p0) (txt "a@b.co") in
  log_count r1 email = 1%nat /\ summary_count r1 email = Some 1%nat /\
  log_count r2 email = 1%nat /\ summary_count r2 email = Some 2%nat.
Proof. vm_compute. repeat split. Qed.

(** C9. On the superscript two followed by [".0.0.0"] the IP validator
    raises ValueError: [str.isdigit] accepts the superscript, [int] does
    not, and the call of [int] is not guarded by a handler. *)
Theorem validate_ip_raises :
  isdigit 178 = true /\ isdecimal 178 = false /\
  validate_ip (178 :: txt ".0.0.0") = Raise ValueError.
Proof.
  split; [reflexivity|]. split; [reflexivity|].
  apply validate_ip_raises_on_digit; reflexivity.
Qed.

(** A national ID written with tabs: the pattern accepts it ([\s]), the mask
    drops the tabs. *)
Lemma mask_aadhaar_drops_tabs :
  let s := txt "1234" ++ [9] ++ txt "5678" ++ [9] ++ txt "9012" in
  let m := {| m_start := 0; m_end := 14; group0 := s |} in
  In m (finditer (pattern_of aadhaar) s) /\
  mask_aadhaar s = txt "1234XXXX9012".
Proof. split; [left; reflexivity|reflexivity]. Qed.

(** C4 on ["1.2.3.4@x.co"], for the thresholds 0.5 and 0.96 *)
Lemma threshold_monotone_witness :
  (0.5 <= 0.96)%Q /\
  exists l1 l2,
    find_all_enhanced 0.5 (txt "1.2.3.4@x.co") [] = Ok l1 /\
    find_all_enhanced 0.96 (txt "1.2.3.4@x.co") [] = Ok l2 /\
    (length l2 <= length l1)%nat.
Proof.
  split; [unfold Qle; simpl; lia|].
  apply (threshold_monotone 0.5 0.96 (txt "1.2.3.4@x.co") []).
  unfold Qle; simpl; lia.
Defined.

(** C10 on ["alice@example.com"] at the threshold 0.7 *)
Lemma pan_email_always_detected_witness :
  let s := txt "alice@example.com" in
  let m := {| m_start := 0; m_end := 17; group0 := s |} in
  (email = pan \/ email = email) /\
  (confidence_threshold (new_processor 0.7) <= 1)%Q /\
  In m (finditer (pattern_of email) s) /\
  exists found self' new_text dets,
    find_all_enhanced 0.7 s [] = Ok found /\
    In (email, m, 1%Q) found /\
    _deidentify_text_enhanced (new_processor 0.7) s [] = Ok (self', (new_text, dets)) /\
    In {| row_index := -1; column_name := []; pii_type := email;
          raw_value := s; masked_value := pseudo_email s;
          start := 0; end_ := 17; confidence := 1%Q; context := [] |} dets /\
    new_text = fold_left apply_detection (rev dets) s.
Proof.
  intros s m.
  assert (H1 : email = pan \/ email = email) by (right; reflexivity).
  assert (H2 : (confidence_threshold (new_processor 0.7) <= 1)%Q)
    by (unfold Qle; simpl; lia).
  assert (H3 : In m (finditer (pattern_of email) s)) by (left; reflexivity).
  split; [exact H1|]. split; [exact H2|]. split; [exact H3|].
  exact (proj2 (pan_email_always_detected (new_processor 0.7) s [] email m H1 H2 H3)).
Defined.

(** C3 on the card number ["4111 1111 1111 1111"] *)
Lemma digit_masks_preserve_format_witness :
  let s := txt "4111 1111 1111 1111" in
  let m := {| m_start := 0; m_end := 19; group0 := s |} in
  In m (finditer (pattern_of credit_card) s) /\
  exists masked,
    ENHANCED_DEIDENTIFY credit_card s = Ok masked /\ format_preserved s masked.
Proof.
  intros s m.
  assert (H : In m (finditer (pattern_of credit_card) s)) by (left; reflexivity).
  split; [exact H|].
  apply (digit_masks_preserve_format credit_card s m); [|exact H].
  left. simpl. tauto.
Defined.

(** *** The further properties on concrete inputs *)

(** X2 on the valid number ["2363"], its last digit replaced by 4 *)
Lemma verhoeff_detects_substitution_witness :
  decimal_value 51 <> decimal_value 52 /\
  verhoeff_validate (txt "236" ++ 51 :: []) = Ok true /\
  verhoeff_validate (txt "236" ++ 52 :: []) = Ok false.
Proof.
  assert (H1 : decimal_value 51 <> decimal_value 52) by (vm_compute; discriminate).
  assert (H2 : verhoeff_validate (txt "236" ++ 51 :: []) = Ok true) by reflexivity.
  split; [exact H1|]. split; [exact H2|].
  exact (verhoeff_detects_substitution (txt "236") [] 51 52 H1 H2).
Defined.

(** X3 on the valid number ["2363"], the digits 3 and 6 exchanged *)
Lemma verhoeff_detects_transposition_witness :
  decimal_value 51 <> decimal_value 54 /\
  verhoeff_validate (txt "2" ++ 51 :: 54 :: txt "3") = Ok true /\
  verhoeff_validate (txt "2" ++ 54 :: 51 :: txt "3") = Ok false.
Proof.
  assert (H1 : decimal_value 51 <> decimal_value 54) by (vm_compute; discriminate).
  assert (H2 : verhoeff_validate (txt "2" ++ 51 :: 54 :: txt "3") = Ok true)
    by reflexivity.
  split; [exact H1|]. split; [exact H2|].
  exact (verhoeff_detects_transposition (txt "2") (txt "3") 51 54 H1 H2).
Defined.

(** X4 on the card number ["4111111111111111"], its last digit replaced
    by 2 *)
Lemma luhn_detects_substitution_witness :
  isdecimal 49 = true /\ isdecimal 50 = true /\
  decimal_value 49 <> decimal_value 50 /\
  luhn_check (txt "411111111111111" ++ 49 :: []) = Ok true /\
  luhn_check (txt "411111111111111" ++ 50 :: []) = Ok false.
Proof.
  assert (H1 : isdecimal 49 = true) by reflexivity.
  assert (H2 : isdecimal 50 = true) by reflexivity.
  assert (H3 : decimal_value 49 <> decimal_value 50) by (vm_compute; discriminate).
  assert (H4 : luhn_check (txt "411111111111111" ++ 49 :: []) = Ok true)
    by reflexivity.
  split; [exact H1|]. split; [exact H2|]. split; [exact H3|]. split; [exact H4|].
  exact (luhn_detects_substitution (txt "411111111111111") [] 49 50 H1 H2 H3 H4).
Defined.

(** X5 on ["1234 5678 9012"] *)
Lemma aadhaar_match_scores_witness :
  let s := txt "1234 5678 9012" in
  let m := {| m_start := 0; m_end := 14; group0 := s |} in
  In m (finditer (pattern_of aadhaar) s) /\
  exists ok,
    verhoeff_validate (strip_non_digits (group0 m)) = Ok ok /\
    _calculate_confidence aadhaar (group0 m) [] = Ok (if ok then 0.95 else 0.7)%Q.
Proof.
  intros s m.
  assert (H : In m (finditer (pattern_of aadhaar) s)) by (left; reflexivity).
  split; [exact H|]. exact (aadhaar_match_scores s [] m H).
Defined.

(** X6 on ["123456789012"] in the context ["Bank A/C"] *)
Lemma bank_account_score_by_context_witness :
  let s := txt "123456789012" in
  let m := {| m_start := 0; m_end := 12; group0 := s |} in
  In m (finditer (pattern_of bank_account) s) /\
  _calculate_confidence bank_account (group0 m) (txt "Bank A/C") =
  Ok (if mentions_bank (txt "Bank A/C") then 0.8 else 0.6)%Q.
Proof.
  intros s m.
  assert (H : In m (finditer (pattern_of bank_account) s)) by (left; reflexivity).
  split; [exact H|]. exact (bank_account_score_by_context s (txt "Bank A/C") m H).
Defined.

(** X7 on the branch code ["SBIN0123456"] *)
Lemma ifsc_medical_scores_fixed_witness :
  let s := txt "SBIN0123456" in
  let m := {| m_start := 0; m_end := 11; group0 := s |} in
  (ifsc = ifsc \/ ifsc = medical_id) /\
  In m (finditer (pattern_of ifsc) s) /\
  _calculate_confidence ifsc (group0 m) [] = Ok 0.95%Q.
Proof.
  intros s m.
  assert (H1 : ifsc = ifsc \/ ifsc = medical_id) by (left; reflexivity).
  assert (H2 : In m (finditer (pattern_of ifsc) s)) by (left; reflexivity).
  split; [exact H1|]. split; [exact H2|].
  exact (ifsc_medical_scores_fixed ifsc s [] m H1 H2).
Defined.

(** X8 on ["x+919876543210"]: the match starts with the plus sign and
    scores 0.4 *)
Lemma phone_score_by_prefix_witness :
  let s := txt "x+919876543210" in
  let m := {| m_start := 1; m_end := 14; group0 := txt "+919876543210" |} in
  In m (finditer (pattern_of phone) s) /\
  _calculate_confidence phone (group0 m) [] =
  Ok (if starts_with [43] (group0 m) then 0.4%Q else 0.9%Q).
Proof.
  intros s m.
  assert (H : In m (finditer (pattern_of phone) s)) by (left; reflexivity).
  split; [exact H|]. exact (phone_score_by_prefix s [] m H).
Defined.

(** X11 on ["a@b.co 1.2.3.4"] at the threshold 0.7: the e-mail address and
    the IP address do not overlap *)
Lemma disjoint_detections_rendered_witness :
  let s := txt "a@b.co 1.2.3.4" in
  let r := _deidentify_text_enhanced (new_processor 0.7) s [] in
  separated 0 (detections_of r) /\
  exists self',
    r = Ok (self', (render 0 (detections_of r) s, detections_of r)).
Proof.
  intros s r.
  assert (H : separated 0 (detections_of r)) by (vm_compute; repeat split; lia).
  split; [exact H|].
  exact (disjoint_detections_rendered (new_processor 0.7) s [] H).
Defined.

(** X12 on ["hi a@b.co"] at the threshold 0.7, for the first 3 characters *)
Lemma prefix_untouched_witness :
  let s := txt "hi a@b.co" in
  let r := _deidentify_text_enhanced (new_processor 0.7) s [] in
  Forall (fun d => (3 <= start d)%nat) (detections_of r) /\
  exists self' new_text,
    r = Ok (self', (new_text, detections_of r)) /\
    take 3 new_text = take 3 s.
Proof.
  intros s r.
  assert (H : Forall (fun d => (3 <= start d)%nat) (detections_of r))
    by (vm_compute; repeat constructor).
  split; [exact H|].
  exact (prefix_untouched (new_processor 0.7) s [] 3 H).
Defined.

(** X13 on ["a@b.co"] at the threshold 2 *)
Lemma nothing_above_one_witness :
  (1 < confidence_threshold (new_processor 2))%Q /\
  _deidentify_text_enhanced (new_processor 2) (txt "a@b.co") [] =
  Ok (new_processor 2, (txt "a@b.co", [])).
Proof.
  assert (H : (1 < confidence_threshold (new_processor 2))%Q)
    by (unfold Qlt; simpl; lia).
  split; [exact H|].
  exact (nothing_above_one (new_processor 2) (txt "a@b.co") [] H).
Defined.

(** X14 on ["123456789012"] at the threshold 0.3, for the bank-account
    match *)
Lemma everything_at_low_threshold_witness :
  let s := txt "123456789012" in
  let m := {| m_start := 0; m_end := 12; group0 := s |} in
  (0.3 <= 0.3)%Q /\
  In m (finditer (pattern_of bank_account) s) /\
  exists found q,
    find_all_enhanced 0.3 s [] = Ok found /\
    _calculate_confidence bank_account (group0 m) [] = Ok q /\
    In (bank_account, m, q) found.
Proof.
  intros s m.
  assert (H1 : (0.3 <= 0.3)%Q) by (unfold Qle; simpl; lia).
  assert (H2 : In m (finditer (pattern_of bank_account) s)) by (left; reflexivity).
  split; [exact H1|]. split; [exact H2|].
  exact (everything_at_low_threshold 0.3 s [] bank_account m H1 H2).
Defined.

(** X16 on the card number ["4111 1111 1111 1234"] *)
Lemma last_four_digits_shown_witness :
  let s := txt "4111 1111 1111 1234" in
  let m := {| m_start := 0; m_end := 19; group0 := s |} in
  (credit_card = credit_card \/ credit_card = phone) /\
  In m (finditer (pattern_of credit_card) s) /\
  exists masked,
    ENHANCED_DEIDENTIFY credit_card (group0 m) = Ok masked /\
    strip_non_digits masked = last_n 4 (strip_non_digits (group0 m)).
Proof.
  intros s m.
  assert (H1 : credit_card = credit_card \/ credit_card = phone)
    by (left; reflexivity).
  assert (H2 : In m (finditer (pattern_of credit_card) s)) by (left; reflexivity).
  split; [exact H1|]. split; [exact H2|].
  exact (last_four_digits_shown credit_card s m H1 H2).
Defined.

(** X18 on ["1234 5678 9012"] *)
Lemma aadhaar_mask_shows_eight_witness :
  let s := txt "1234 5678 9012" in
  let m := {| m_start := 0; m_end := 14; group0 := s |} in
  In m (finditer (pattern_of aadhaar) s) /\
  strip_non_digits (mask_aadhaar (group0 m)) =
  take 4 (strip_non_digits (group0 m)) ++ last_n 4 (strip_non_digits (group0 m)).
Proof.
  intros s m.
  assert (H : In m (finditer (pattern_of aadhaar) s)) by (left; reflexivity).
  split; [exact H|]. exact (aadhaar_mask_shows_eight s m H).
Defined.

(** X19 on ["01/02/1990"] *)
Lemma dob_mask_shows_year_witness :
  let s := txt "01/02/1990" in
  let m := {| m_start := 0; m_end := 10; group0 := s |} in
  In m (finditer (pattern_of dob) s) /\
  ENHANCED_DEIDENTIFY dob (group0 m) = Ok (txt "XX/XX/" ++ last_n 4 (group0 m)).
Proof.
  intros s m.
  assert (H : In m (finditer (pattern_of dob) s)) by (left; reflexivity).
  split; [exact H|]. exact (dob_mask_shows_year s m H).
Defined.

(** X20 on ["MH12/123456/7890"] *)
Lemma driving_license_mask_shows_ends_witness :
  let s := txt "MH12/123456/7890" in
  let m := {| m_start := 0; m_end := 16; group0 := s |} in
  In m (finditer (pattern_of driving_license) s) /\
  ENHANCED_DEIDENTIFY driving_license (group0 m) =
  Ok (take 4 (group0 m) ++ txt "/XXXXXX/" ++ last_n 4 (group0 m)).
Proof.
  intros s m.
  assert (H : In m (finditer (pattern_of driving_license) s))
    by (left; reflexivity).
  split; [exact H|]. exact (driving_license_mask_shows_ends s m H).
Defined.

(** X21 on ["192.168.100.200"] *)
Lemma mask_ip_keeps_two_parts_witness :
  char_in 46 (txt "192") = false /\ char_in 46 (txt "168") = false /\
  mask_ip (txt "192" ++ 46 :: txt "168" ++ 46 :: txt "100.200") =
  txt "192" ++ 46 :: txt "168" ++ txt ".X.X".
Proof.
  assert (H1 : char_in 46 (txt "192") = false) by reflexivity.
  assert (H2 : char_in 46 (txt "168") = false) by reflexivity.
  split; [exact H1|]. split; [exact H2|].
  exact (mask_ip_keeps_two_parts (txt "192") (txt "168") (txt "100.200") H1 H2).
Defined.

(** X22 on ["alice@example.com"] *)
Lemma pseudo_email_keeps_domain_witness :
  char_in 64 (txt "alice") = false /\
  pseudo_email (txt "alice" ++ 64 :: txt "example.com") =
  txt "xxxx@" ++ txt "example.com".
Proof.
  assert (H : char_in 64 (txt "alice") = false) by reflexivity.
  split; [exact H|].
  exact (pseudo_email_keeps_domain (txt "alice") (txt "example.com") H).
Defined.

(** X24 on the document [[{"email": "a@b.co", "n": null}]] *)
Lemma json_records_kept_witness :
  let items := [JDict [(txt "email", JStr (txt "a@b.co")); (txt "n", JNone)]] in
  forallb is_dict items = true /\
  exists self' out,
    process_json_enhanced (new_processor 0.7) (JList items) = Ok (self', out) /\
    Forall2 (fun item new_item =>
               List.map fst new_item = List.map fst (dict_items item) /\
               forall i key, dict_items item !! i = Some (key, JNone) ->
                             new_item !! i = Some (key, []))
            items (output out).
Proof.
  intros items.
  assert (H : forallb is_dict items = true) by reflexivity.
  split; [exact H|]. exact (json_records_kept (new_processor 0.7) items H).
Defined.

(** X25 on the document [[{"email": "a@b.co", "n": null}]] *)
Lemma json_log_refers_to_cells_witness :
  let items := [JDict [(txt "email", JStr (txt "a@b.co")); (txt "n", JNone)]] in
  forallb is_dict items = true /\
  exists self' out,
    process_json_enhanced (new_processor 0.7) (JList items) = Ok (self', out) /\
    Forall (fun d => exists i item,
              items !! i = Some item /\
              logged_in (confidence_threshold (new_processor 0.7))
                        (Z.of_nat i + 1) (record_cells item) d)
           (detections_log out).
Proof.
  intros items.
  assert (H : forallb is_dict items = true) by reflexivity.
  split; [exact H|]. exact (json_log_refers_to_cells (new_processor 0.7) items H).
Defined.


(** X28 on the text ["a@b.co"], one page, a table of one cell and a
    document of one record *)
Lemma summaries_consistent_witness :
  let p := new_processor 0.7 in
  let s := txt "a@b.co" in
  let data := JList [JDict [(txt "email", JStr s)]] in
  is_list_of_dicts data = true /\
  summary_consistent (process_txt_enhanced p s) /\
  summary_consistent (process_pdf_enhanced p [s]) /\
  summary_consistent (_process_tabular p [txt "email"] [[Some s]]) /\
  summary_consistent (process_json_enhanced p data).
Proof.
  intros p s data.
  assert (H : is_list_of_dicts data = true) by reflexivity.
  split; [exact H|].
  exact (summaries_consistent p s [s] [txt "email"] [[Some s]] data H).
Defined.

End Runs.
